(** * buildASTSchema: from a parsed schema document to a schema and its diagnostics

    A shallow embedding of [src/utils/buildASTSchema.js].  Objects created
    with [new] live in an explicit heap and are referred to by address, the
    closure variables of [buildASTSchema] ([errors], [innerTypeMap]) are
    threaded as a state, and exceptions are a result constructor. *)

From Stdlib Require Import List String Ascii Arith Bool Lia.
Import ListNotations.
Open Scope string_scope.
Open Scope list_scope.
Open Scope nat_scope.

(* ------------------------------------------------------------------ *)
(** ** Lexer tokens and source locations *)

Module Lexer.

(** The token kinds of [graphql/language/lexer]: only [COMMENT] is tested. *)
Inductive TokenKind := SOF | EOF | COMMENT | NAME | PUNCTUATOR | OTHER.

Definition TokenKind_eqb (a b : TokenKind) : bool :=
  match a, b with
  | SOF, SOF | EOF, EOF | COMMENT, COMMENT | NAME, NAME
  | PUNCTUATOR, PUNCTUATOR | OTHER, OTHER => true
  | _, _ => false
  end.

(** A token without its links.  [value] is [None] for a token whose [value]
    property is undefined. *)
Record Token := mkToken {
  kind : TokenKind;
  line : nat;
  value : option string
}.

(** [loc] of a node.  The lexer links the tokens in a doubly linked list;
    [prevTokens] is the chain [startToken.prev], [startToken.prev.prev], ...
    down to the token whose [prev] is null (nearest token first).  [next] of
    an element of that chain is the element before it, [startToken] for the
    first. *)
Record Location := mkLocation {
  startToken : Token;
  prevTokens : list Token
}.

End Lexer.
Import Lexer.

(** [String(token.value)] *)
Definition String_of (v : option string) : string :=
  match v with
  | Some s => s
  | None => "undefined"
  end.

(** [leadingSpaces]: the index of the first character that is not a space. *)
Fixpoint leadingSpaces (str : string) : nat :=
  match str with
  | String c rest => if Ascii.eqb c " " then S (leadingSpaces rest) else 0
  | EmptyString => 0
  end.

(** [str.slice(n)] for a number [n >= 0]. *)
Fixpoint slice_from (n : nat) (str : string) : string :=
  match n, str with
  | 0, _ => str
  | S n', String _ rest => slice_from n' rest
  | S _, EmptyString => EmptyString
  end.

(** [comment.slice(minSpaces)]; [minSpaces] is undefined until a comment was
    seen, and [slice(undefined)] is the whole string. *)
Definition slice (minSpaces : option nat) (str : string) : string :=
  match minSpaces with
  | Some n => slice_from n str
  | None => str
  end.

(** The guard of the [while] loop of [getDescription]; [token.next] is not
    null for a token reached through [prev]. *)
Definition isDescriptionComment (token next : Token) (prev : option Token) : bool :=
  match prev with
  | None => false
  | Some p =>
      TokenKind_eqb (kind token) COMMENT
      && (line token + 1 =? line next)
      && negb (line token =? line p)
  end.

(** [if (minSpaces === undefined || spaces < minSpaces) minSpaces = spaces] *)
Definition updateMinSpaces (minSpaces : option nat) (spaces : nat) : option nat :=
  match minSpaces with
  | None => Some spaces
  | Some m => if spaces <? m then Some spaces else Some m
  end.

(** The loop itself: [tokens] is the chain starting at [token], [comments]
    grows by [push]. *)
Fixpoint collectComments (next : Token) (tokens : list Token)
    (minSpaces : option nat) (comments : list string)
  : option nat * list string :=
  match tokens with
  | [] => (minSpaces, comments)
  | token :: rest =>
      if isDescriptionComment token next (hd_error rest) then
        let value := String_of (value token) in
        let spaces := leadingSpaces value in
        collectComments token rest (updateMinSpaces minSpaces spaces)
                        (comments ++ [value])
      else (minSpaces, comments)
  end.

(** The separator of [join]. *)
Definition newline : string :=
  String (Ascii false true false true false false false false) EmptyString.

(** [getDescription]: [None] is null. *)
Definition getDescription (loc : option Location) : option string :=
  match loc with
  | None => None
  | Some l =>
      let '(minSpaces, comments) :=
        collectComments (startToken l) (prevTokens l) None [] in
      Some (String.concat newline (map (slice minSpaces) (rev comments)))
  end.

(* ------------------------------------------------------------------ *)
(** ** The parsed document *)

Module AST.

Record NameNode := mkName {
  name_value : string;
  name_loc : option Location
}.

Record NamedTypeNode := mkNamedType {
  nt_name : NameNode;
  nt_loc : option Location
}.

(** [TypeNode]: a named type under [ListType] and [NonNullType] nodes. *)
Inductive TypeNode :=
| NamedType (n : NamedTypeNode)
| ListType (type : TypeNode)
| NonNullType (type : TypeNode).

(** Constant literals, as they occur as directive arguments. *)
Inductive ValueNode :=
| StringValue (s : string)
| IntValue (s : string)
| BooleanValue (b : bool)
| EnumValue (s : string)
| NullValue.

Record ArgumentNode := mkArgument {
  arg_name : NameNode;
  arg_value : ValueNode
}.

Record DirectiveNode := mkDirectiveNode {
  dir_name : NameNode;
  dir_arguments : list ArgumentNode
}.

(** Input values are taken without a default value: [valueFromAST] of
    graphql-js, which coerces one, returns undefined when there is none. *)
Record InputValueDefinitionNode := mkInputValue {
  iv_name : NameNode;
  iv_type : TypeNode;
  iv_loc : option Location
}.

Record FieldDefinitionNode := mkField {
  fd_name : NameNode;
  fd_arguments : list InputValueDefinitionNode;
  fd_type : TypeNode;
  fd_directives : option (list DirectiveNode);
  fd_loc : option Location
}.

Record EnumValueDefinitionNode := mkEnumValue {
  ev_name : NameNode;
  ev_directives : option (list DirectiveNode);
  ev_loc : option Location
}.

(** The six kinds of type definition. *)
Inductive TypeDefinitionNode :=
| ScalarTypeDefinition (name : NameNode) (loc : option Location)
| ObjectTypeDefinition (name : NameNode)
    (interfaces : option (list NamedTypeNode))
    (fields : list FieldDefinitionNode) (loc : option Location)
| InterfaceTypeDefinition (name : NameNode)
    (fields : list FieldDefinitionNode) (loc : option Location)
| UnionTypeDefinition (name : NameNode)
    (types : list NamedTypeNode) (loc : option Location)
| EnumTypeDefinition (name : NameNode)
    (values : list EnumValueDefinitionNode) (loc : option Location)
| InputObjectTypeDefinition (name : NameNode)
    (fields : list InputValueDefinitionNode) (loc : option Location).

Definition def_name (d : TypeDefinitionNode) : NameNode :=
  match d with
  | ScalarTypeDefinition n _ | ObjectTypeDefinition n _ _ _
  | InterfaceTypeDefinition n _ _ | UnionTypeDefinition n _ _
  | EnumTypeDefinition n _ _ | InputObjectTypeDefinition n _ _ => n
  end.

Definition def_loc (d : TypeDefinitionNode) : option Location :=
  match d with
  | ScalarTypeDefinition _ l | ObjectTypeDefinition _ _ _ l
  | InterfaceTypeDefinition _ _ l | UnionTypeDefinition _ _ l
  | EnumTypeDefinition _ _ l | InputObjectTypeDefinition _ _ l => l
  end.

Record OperationTypeDefinitionNode := mkOperationType {
  operation : string;
  op_type : NamedTypeNode
}.

Record SchemaDefinitionNode := mkSchemaDefinition {
  operationTypes : list OperationTypeDefinitionNode;
  sd_loc : option Location
}.

Record DirectiveDefinitionNode := mkDirectiveDefinition {
  dd_name : NameNode;
  dd_arguments : option (list InputValueDefinitionNode);
  dd_locations : list NameNode;
  dd_loc : option Location
}.

(** A definition of the document; [OtherDefinition] is every kind that the
    [switch] of [buildASTSchema] sends to [default]. *)
Inductive DefinitionNode :=
| SchemaDefinition (d : SchemaDefinitionNode)
| TypeDefinition (d : TypeDefinitionNode)
| DirectiveDefinition (d : DirectiveDefinitionNode)
| OtherDefinition (kind : string).

(** What [buildASTSchema] may be handed: a node of kind [DOCUMENT] or a node
    of another kind; a missing node is [None]. *)
Inductive RootNode :=
| Document (definitions : list DefinitionNode)
| OtherNode (kind : string).

End AST.
Import AST.

(* ------------------------------------------------------------------ *)
(** ** Types, directives and diagnostics *)

(** The four members of [PLACEHOLDER_TYPES] (from [../constants]). *)
Inductive PlaceholderSlot := inputType | outputType | objectType | interfaceType.

(** What a name resolves to.  [Specified] is one of the scalars and
    introspection types [innerTypeMap] starts with, [Instance] an object made
    by one of the [make...Def] functions, at its heap address, [Inherited] a
    property that [innerTypeMap], an object literal, inherits from
    [Object.prototype], and [Placeholder] a member of [PLACEHOLDER_TYPES]. *)
Inductive GraphQLNamedType :=
| Specified (name : string)
| Instance (addr : nat)
| Inherited (name : string)
| Placeholder (slot : PlaceholderSlot).

Inductive GraphQLType :=
| Named (t : GraphQLNamedType)
| GraphQLList (ofType : GraphQLType)
| GraphQLNonNull (ofType : GraphQLType).

(** JavaScript values that an argument or a deprecation reason can be. *)
Inductive Value :=
| VUndefined
| VNull
| VString (s : string)
| VBoolean (b : bool).

Record InputValueConfig := mkInputValueConfig {
  ivc_type : GraphQLType;
  ivc_node : InputValueDefinitionNode;
  ivc_description : option string;
  ivc_defaultValue : Value
}.

Record FieldConfig := mkFieldConfig {
  fc_type : GraphQLType;
  fc_node : FieldDefinitionNode;
  fc_description : option string;
  fc_args : list (string * InputValueConfig);
  fc_deprecationReason : Value
}.

Record EnumValueConfig := mkEnumValueConfig {
  evc_description : option string;
  evc_deprecationReason : Value;
  evc_node : EnumValueDefinitionNode
}.

(** The objects of the heap.  [node] is the definition the object was made
    from ([innerTypeDef.node]); the [fields] and [interfaces] thunks of an
    object close over that definition only, so they are not stored. *)
Inductive TypeObject :=
| GraphQLObjectType (name : string) (node : TypeDefinitionNode)
    (description : option string)
| GraphQLInterfaceType (name : string) (node : TypeDefinitionNode)
    (description : option string)
| GraphQLEnumType (name : string) (node : TypeDefinitionNode)
    (description : option string) (values : list (string * EnumValueConfig))
| GraphQLUnionType (name : string) (node : TypeDefinitionNode)
    (description : option string) (types : list GraphQLType)
| GraphQLScalarType (name : string) (node : TypeDefinitionNode)
    (description : option string)
| GraphQLInputObjectType (name : string) (node : TypeDefinitionNode)
    (description : option string).

Definition obj_name (o : TypeObject) : string :=
  match o with
  | GraphQLObjectType n _ _ | GraphQLInterfaceType n _ _
  | GraphQLEnumType n _ _ _ | GraphQLUnionType n _ _ _
  | GraphQLScalarType n _ _ | GraphQLInputObjectType n _ _ => n
  end.

Definition obj_node (o : TypeObject) : TypeDefinitionNode :=
  match o with
  | GraphQLObjectType _ d _ | GraphQLInterfaceType _ d _
  | GraphQLEnumType _ d _ _ | GraphQLUnionType _ d _ _
  | GraphQLScalarType _ d _ | GraphQLInputObjectType _ d _ => d
  end.

(** A directive of the schema: one of the three that graphql-js specifies,
    or one made by [getDirective]. *)
Inductive GraphQLDirective :=
| GraphQLSkipDirective
| GraphQLIncludeDirective
| GraphQLDeprecatedDirective
| NewDirective (name : string) (description : option string)
    (locations : list string)
    (args : option (list (string * InputValueConfig))).

Definition directive_name (d : GraphQLDirective) : string :=
  match d with
  | GraphQLSkipDirective => "skip"
  | GraphQLIncludeDirective => "include"
  | GraphQLDeprecatedDirective => "deprecated"
  | NewDirective n _ _ _ => n
  end.

(** The nodes a diagnostic points at.  [NotANode] is the placeholder that
    [getObjectType] passes where a node is expected. *)
Inductive ASTNode :=
| SchemaNode (d : SchemaDefinitionNode)
| DefNode (d : TypeDefinitionNode)
| NameOf (n : NameNode)
| TypeRef (n : NamedTypeNode)
| NotANode (t : GraphQLNamedType).

(** [SEVERITY] of [../constants]. *)
Inductive Severity := SEVERITY_error | SEVERITY_warning.

(** Modelled from the spec: [newGQLError] of [./GQLError] is not part of the
    file; a diagnostic is a message, the nodes it points at (null or a
    sequence) and a severity. *)
Record GQLError := newGQLError {
  message : string;
  nodes : option (list ASTNode);
  severity : Severity
}.

(** Modelled from the spec: [getNamedTypeNode] of [./getNamedTypeNode] is not
    part of the file; it strips the list and non-null modifiers and returns
    the innermost named type node. *)
Fixpoint getNamedTypeNode (typeNode : TypeNode) : NamedTypeNode :=
  match typeNode with
  | NamedType n => n
  | ListType t | NonNullType t => getNamedTypeNode t
  end.

(* ------------------------------------------------------------------ *)
(** ** Objects used as maps *)

(** An object used as a map from names, as an association list in insertion
    order: the order of [Object.keys] for names that are not array indices,
    which a GraphQL name never is. *)
Fixpoint lookup {V : Type} (key : string) (map : list (string * V)) : option V :=
  match map with
  | [] => None
  | (k, v) :: rest => if String.eqb key k then Some v else lookup key rest
  end.

(** [map[key] = v]: an existing key keeps its place. *)
Fixpoint assign {V : Type} (key : string) (v : V) (map : list (string * V))
  : list (string * V) :=
  match map with
  | [] => [(key, v)]
  | (k, w) :: rest =>
      if String.eqb key k then (k, v) :: rest else (k, w) :: assign key v rest
  end.

Definition mem (key : string) (keys : list string) : bool :=
  existsb (String.eqb key) keys.

(** The own properties [innerTypeMap] is created with. *)
Definition specifiedTypeNames : list string :=
  [ "String"; "Int"; "Float"; "Boolean"; "ID";
    "__Schema"; "__Directive"; "__DirectiveLocation"; "__Type"; "__Field";
    "__InputValue"; "__EnumValue"; "__TypeKind" ].

(** The properties of [Object.prototype], which [innerTypeMap], written as
    an object literal, inherits; each is a function or an object, so truthy.
    ([nodeMap] and [nodeMapWithAllReferences] come from
    [Object.create(null)] and inherit nothing.) *)
Definition objectPrototypeKeys : list string :=
  [ "constructor"; "hasOwnProperty"; "isPrototypeOf"; "propertyIsEnumerable";
    "toLocaleString"; "toString"; "valueOf"; "__proto__";
    "__defineGetter__"; "__defineSetter__";
    "__lookupGetter__"; "__lookupSetter__" ].

(* ------------------------------------------------------------------ *)
(** ** State, exceptions and the monad of the builder *)

(** The mutable closure variables of a call of [buildASTSchema], and the
    heap of the objects it has made.  [innerTypeMap] holds the entries added
    by [typeDefNamed] only. *)
Record State := mkState {
  errors : list GQLError;
  innerTypeMap : list (string * nat);
  heap : list TypeObject
}.

Definition initialState : State := mkState [] [] [].

Inductive Exn :=
| TypeError (msg : string)
| Error (msg : string)
| InvariantViolation (msg : string)
| LibraryError (msg : string).

(** The outcome of a computation: a value and the state after it, an
    exception, or not enough fuel to follow the recursion to its end. *)
Inductive Result (A : Type) :=
| Ok (a : A) (st : State)
| Throw (e : Exn)
| OutOfFuel.

Arguments Ok {A} a st.
Arguments Throw {A} e.
Arguments OutOfFuel {A}.

Definition M (A : Type) : Type := State -> Result A.

Definition ret {A : Type} (a : A) : M A := fun st => Ok a st.

Definition bind {A B : Type} (m : M A) (f : A -> M B) : M B :=
  fun st =>
    match m st with
    | Ok a st' => f a st'
    | Throw e => Throw e
    | OutOfFuel => OutOfFuel
    end.

Definition throw {A : Type} (e : Exn) : M A := fun _ => Throw e.

Notation "x <- m ;; k" := (bind m (fun x => k))
  (at level 61, m at next level, right associativity).
Notation "m ;;; k" := (bind m (fun _ => k))
  (at level 61, right associativity).

(** [errors.push(e)] *)
Definition pushError (e : GQLError) : M unit :=
  fun st => Ok tt (mkState (errors st ++ [e]) (innerTypeMap st) (heap st)).

(** [new GraphQL...Type(...)]: the object goes to a fresh address.  The
    constructors of graphql-js are taken to accept what the builders hand
    them (names and value lists as the parser produces them). *)
Definition alloc (o : TypeObject) : M nat :=
  fun st =>
    Ok (List.length (heap st))
       (mkState (errors st) (innerTypeMap st) (heap st ++ [o])).

(** [innerTypeMap[typeName] = innerTypeDef] *)
Definition cache (typeName : string) (addr : nat) : M unit :=
  fun st =>
    Ok tt (mkState (errors st) (assign typeName addr (innerTypeMap st)) (heap st)).

Definition getState : M State := fun st => Ok st st.

(** [list.map(f)] with an [f] that has effects. *)
Fixpoint mapM {A B : Type} (f : A -> M B) (l : list A) : M (list B) :=
  match l with
  | [] => ret []
  | x :: rest => y <- f x ;; ys <- mapM f rest ;; ret (y :: ys)
  end.

(** [keyValMap(list, keyFn, valFn)] of graphql-js: a reduce that assigns
    [valFn(item)] at [keyFn(item)], item after item. *)
Fixpoint keyValMap_from {A V : Type} (map : list (string * V)) (items : list A)
    (keyFn : A -> string) (valFn : A -> M V) : M (list (string * V)) :=
  match items with
  | [] => ret map
  | item :: rest =>
      v <- valFn item ;;
      keyValMap_from (assign (keyFn item) v map) rest keyFn valFn
  end.

Definition keyValMap {A V : Type} (items : list A)
    (keyFn : A -> string) (valFn : A -> M V) : M (list (string * V)) :=
  keyValMap_from [] items keyFn valFn.

(** [innerTypeMap[typeName]]: an own property, or else an inherited one. *)
Definition innerTypeMap_get (st : State) (typeName : string)
  : option GraphQLNamedType :=
  if mem typeName specifiedTypeNames then Some (Specified typeName)
  else match lookup typeName (innerTypeMap st) with
       | Some addr => Some (Instance addr)
       | None =>
           if mem typeName objectPrototypeKeys then Some (Inherited typeName)
           else None
       end.

(* ------------------------------------------------------------------ *)
(** ** Kinds of resolved types *)

Inductive TypeKind :=
| SCALAR | OBJECT | INTERFACE | UNION | ENUM | INPUT_OBJECT.

Definition obj_kind (o : TypeObject) : TypeKind :=
  match o with
  | GraphQLObjectType _ _ _ => OBJECT
  | GraphQLInterfaceType _ _ _ => INTERFACE
  | GraphQLEnumType _ _ _ _ => ENUM
  | GraphQLUnionType _ _ _ _ => UNION
  | GraphQLScalarType _ _ _ => SCALAR
  | GraphQLInputObjectType _ _ _ => INPUT_OBJECT
  end.

(** The class of each specified type (graphql-js [type/scalars] and
    [type/introspection]). *)
Definition specifiedKind (name : string) : TypeKind :=
  if mem name ["__DirectiveLocation"; "__TypeKind"] then ENUM
  else if mem name ["String"; "Int"; "Float"; "Boolean"; "ID"] then SCALAR
  else OBJECT.

(** Modelled from the spec: [PLACEHOLDER_TYPES] of [../constants] is not
    part of the file; each member is a sentinel named type of the kind its
    slot expects, so [objectType] is an object type, [interfaceType] an
    interface type, [inputType] valid as input and [outputType] valid as
    output. *)
Definition placeholderIs (expected : PlaceholderSlot) (slot : PlaceholderSlot) : bool :=
  match expected, slot with
  | inputType, inputType | outputType, outputType
  | objectType, objectType | interfaceType, interfaceType => true
  | _, _ => false
  end.

(** The class of the object a name resolved to, if it is one of the six
    type classes; an inherited property of [Object.prototype] is none. *)
Definition classOf (st : State) (t : GraphQLNamedType) : option TypeKind :=
  match t with
  | Specified n => Some (specifiedKind n)
  | Instance a => option_map obj_kind (nth_error (heap st) a)
  | Inherited _ => None
  | Placeholder _ => None
  end.

(** [type instanceof GraphQLObjectType] *)
Definition instanceof_GraphQLObjectType (st : State) (type : GraphQLType) : bool :=
  match type with
  | Named (Placeholder slot) => placeholderIs objectType slot
  | Named t => match classOf st t with Some OBJECT => true | _ => false end
  | _ => false
  end.

(** [type instanceof GraphQLInterfaceType] *)
Definition instanceof_GraphQLInterfaceType (st : State) (type : GraphQLType) : bool :=
  match type with
  | Named (Placeholder slot) => placeholderIs interfaceType slot
  | Named t => match classOf st t with Some INTERFACE => true | _ => false end
  | _ => false
  end.

(** [getNamedType] of graphql-js: the type under the wrappers. *)
Fixpoint getNamedType (type : GraphQLType) : GraphQLNamedType :=
  match type with
  | Named t => t
  | GraphQLList t | GraphQLNonNull t => getNamedType t
  end.

(** [isInputType] of graphql-js: a scalar, an enum or an input object under
    the wrappers. *)
Definition isInputType (st : State) (type : GraphQLType) : bool :=
  match getNamedType type with
  | Placeholder slot => placeholderIs inputType slot
  | t => match classOf st t with
         | Some SCALAR | Some ENUM | Some INPUT_OBJECT => true
         | _ => false
         end
  end.

(** [isOutputType] of graphql-js: a scalar, an object, an interface, a union
    or an enum under the wrappers. *)
Definition isOutputType (st : State) (type : GraphQLType) : bool :=
  match getNamedType type with
  | Placeholder slot => placeholderIs outputType slot
  | t => match classOf st t with
         | Some SCALAR | Some OBJECT | Some INTERFACE | Some UNION
         | Some ENUM => true
         | _ => false
         end
  end.

(* ------------------------------------------------------------------ *)
(** ** Wrappers *)

(** A computation without state that can throw. *)
Definition lift {A : Type} (r : Exn + A) : M A :=
  fun st =>
    match r with
    | inr a => Ok a st
    | inl e => Throw e
    end.

Definition is_GraphQLNonNull (type : GraphQLType) : bool :=
  match type with
  | GraphQLNonNull _ => true
  | _ => false
  end.

(** [buildWrappedType]; the [invariant] throws. *)
Fixpoint buildWrappedType (innerType : GraphQLType) (inputTypeAST : TypeNode)
  : Exn + GraphQLType :=
  match inputTypeAST with
  | ListType type =>
      match buildWrappedType innerType type with
      | inr wrappedType => inr (GraphQLList wrappedType)
      | inl e => inl e
      end
  | NonNullType type =>
      match buildWrappedType innerType type with
      | inr wrappedType =>
          if is_GraphQLNonNull wrappedType
          then inl (InvariantViolation "No nesting nonnull.")
          else inr (GraphQLNonNull wrappedType)
      | inl e => inl e
      end
  | NamedType _ => inr innerType
  end.

(* ------------------------------------------------------------------ *)
(** ** Messages *)

Definition dquote : string :=
  String (Ascii false true false false false true false false) EmptyString.

Definition msg_onlyOneSchema : string :=
  "Must provide only one schema definition.".

Definition msg_multipleTypes (name : string) : string :=
  ("Schema must contain unique named types but contains multiple types named "
   ++ dquote ++ name ++ dquote ++ ".")%string.

Definition msg_noQueryType : string :=
  "Must provide schema definition with query type or a type named Query.".

Definition msg_notFound (typeName : string) : string :=
  ("Type " ++ dquote ++ typeName ++ dquote ++ " not found.")%string.

(* ------------------------------------------------------------------ *)
(** ** The scan of the definitions *)

(** The variables that the [for] loop over [ast.definitions] fills. *)
Record Scan := mkScan {
  schemaDef : option SchemaDefinitionNode;
  scanErrors : list GQLError;
  typeDefs : list TypeDefinitionNode;
  nodeMap : list (string * TypeDefinitionNode);
  nodeMapWithAllReferences : list (string * list TypeDefinitionNode);
  directiveDefs : list DirectiveDefinitionNode
}.

Definition emptyScan : Scan := mkScan None [] [] [] [] [].

(** One turn of the loop: the [switch] on [d.kind]. *)
Definition scanDefinition (s : Scan) (d : DefinitionNode) : Scan :=
  match d with
  | SchemaDefinition d =>
      mkScan (Some d)
        (match schemaDef s with
         | Some previous =>
             scanErrors s ++
             [newGQLError msg_onlyOneSchema
                (Some [SchemaNode previous; SchemaNode d]) SEVERITY_error]
         | None => scanErrors s
         end)
        (typeDefs s) (nodeMap s) (nodeMapWithAllReferences s) (directiveDefs s)
  | TypeDefinition d =>
      let name := name_value (def_name d) in
      let fresh :=
        match lookup name (nodeMap s) with None => true | Some _ => false end in
      mkScan (schemaDef s) (scanErrors s)
        (if fresh then typeDefs s ++ [d] else typeDefs s)
        (if fresh then assign name d (nodeMap s) else nodeMap s)
        (match lookup name (nodeMapWithAllReferences s) with
         | None => assign name [d] (nodeMapWithAllReferences s)
         | Some all => assign name (all ++ [d]) (nodeMapWithAllReferences s)
         end)
        (directiveDefs s)
  | DirectiveDefinition d =>
      mkScan (schemaDef s) (scanErrors s) (typeDefs s) (nodeMap s)
        (nodeMapWithAllReferences s) (directiveDefs s ++ [d])
  | OtherDefinition _ => s
  end.

Definition scanDefinitions (definitions : list DefinitionNode) : Scan :=
  fold_left scanDefinition definitions emptyScan.

(** The [forEach] over [Object.keys(nodeMapWithAllReferences)]. *)
Fixpoint duplicateErrors (all : list (string * list TypeDefinitionNode))
  : list GQLError :=
  match all with
  | [] => []
  | (name, defs) :: rest =>
      if 1 <? List.length defs
      then newGQLError (msg_multipleTypes name)
             (Some (map (fun typeDefAST => NameOf (def_name typeDefAST)) defs))
             SEVERITY_error
           :: duplicateErrors rest
      else duplicateErrors rest
  end.

(** [queryTypeName], [mutationTypeName], [subscriptionTypeName]; [None] is
    undefined. *)
Record RootNames := mkRootNames {
  queryTypeName : option string;
  mutationTypeName : option string;
  subscriptionTypeName : option string
}.

Definition setOperationType (r : RootNames) (operationType : OperationTypeDefinitionNode)
  : RootNames :=
  let typeName := name_value (nt_name (op_type operationType)) in
  if String.eqb (operation operationType) "query" then
    mkRootNames (Some typeName) (mutationTypeName r) (subscriptionTypeName r)
  else if String.eqb (operation operationType) "mutation" then
    mkRootNames (queryTypeName r) (Some typeName) (subscriptionTypeName r)
  else if String.eqb (operation operationType) "subscription" then
    mkRootNames (queryTypeName r) (mutationTypeName r) (Some typeName)
  else r.

Definition conventionalName (nodeMap : list (string * TypeDefinitionNode))
    (name : string) : option string :=
  match lookup name nodeMap with
  | Some _ => Some name
  | None => None
  end.

Definition rootNames (s : Scan) : RootNames :=
  match schemaDef s with
  | Some schemaDef =>
      fold_left setOperationType (operationTypes schemaDef)
        (mkRootNames None None None)
  | None =>
      mkRootNames (conventionalName (nodeMap s) "Query")
        (conventionalName (nodeMap s) "Mutation")
        (conventionalName (nodeMap s) "Subscription")
  end.

(** Truthiness of a root name: undefined and the empty string are falsy. *)
Definition truthy (name : option string) : bool :=
  match name with
  | Some s => negb (String.eqb s EmptyString)
  | None => false
  end.

(** What [new GraphQLSchema] is called with. *)
Record SchemaConfig := mkSchemaConfig {
  query : option GraphQLNamedType;
  mutation : option GraphQLNamedType;
  subscription : option GraphQLNamedType;
  types : list GraphQLNamedType;
  directives : list GraphQLDirective;
  cfg_nodeMap : list (string * TypeDefinitionNode)
}.

(* ------------------------------------------------------------------ *)
(** ** The builders *)

Section Builders.

(** [getArgumentValues] of graphql-js ([execution/values]), called on a
    directive and a directive node: the coerced arguments by name, or an
    exception. *)
Variable getArgumentValues :
  GraphQLDirective -> DirectiveNode -> Exn + list (string * Value).

(** [getDeprecationReason]: null without a deprecated directive, else the
    [reason] among the argument values. *)
Definition getDeprecationReason (directives : option (list DirectiveNode))
  : Exn + Value :=
  match directives with
  | None => inr VNull
  | Some directives =>
      match find (fun directive =>
                    String.eqb (name_value (dir_name directive))
                               (directive_name GraphQLDeprecatedDirective))
                 directives with
      | None => inr VNull
      | Some deprecatedAST =>
          match getArgumentValues GraphQLDeprecatedDirective deprecatedAST with
          | inl e => inl e
          | inr values =>
              inr (match lookup "reason" values with
                   | Some reason => reason
                   | None => VUndefined
                   end)
          end
      end
  end.

(** [nodeMap], which does not change once the definitions are scanned. *)
Variable nodeMap : list (string * TypeDefinitionNode).

Section Resolver.

(** The functions below call [typeDefNamed], which calls them back through
    [makeSchemaDef]; here the callee is a variable, bound further down. *)
Variable typeDefNamed : string -> ASTNode -> M (option GraphQLNamedType).

Definition produceType (typeNode : TypeNode) (defaultValue : GraphQLType)
  : M GraphQLType :=
  let namedTypeNode := getNamedTypeNode typeNode in
  let typeName := name_value (nt_name namedTypeNode) in
  found <- typeDefNamed typeName (TypeRef namedTypeNode) ;;
  let typeDef :=
    match found with
    | Some t => Named t
    | None => defaultValue
    end in
  lift (buildWrappedType typeDef typeNode).

(** The shape shared by the four [produce...Type] functions: produce, test,
    push a diagnostic when the test fails, return the type all the same. *)
Definition produceChecked (slot : PlaceholderSlot)
    (test : State -> GraphQLType -> bool) (expected : string)
    (typeNode : TypeNode) : M GraphQLType :=
  type <- produceType typeNode (Named (Placeholder slot)) ;;
  st <- getState ;;
  (if test st type then ret tt
   else pushError (newGQLError expected
                     (Some [TypeRef (getNamedTypeNode typeNode)])
                     SEVERITY_error)) ;;;
  ret type.

Definition produceInputType : TypeNode -> M GraphQLType :=
  produceChecked inputType isInputType "Expected Input type.".

Definition produceOutputType : TypeNode -> M GraphQLType :=
  produceChecked outputType isOutputType "Expected Output type.".

Definition produceObjectType : TypeNode -> M GraphQLType :=
  produceChecked objectType instanceof_GraphQLObjectType "Expected Object type.".

Definition produceInterfaceType : TypeNode -> M GraphQLType :=
  produceChecked interfaceType instanceof_GraphQLInterfaceType
    "Expected Interface type.".

Definition makeInputValues (values : list InputValueDefinitionNode)
  : M (list (string * InputValueConfig)) :=
  keyValMap values
    (fun value => name_value (iv_name value))
    (fun value =>
       type <- produceInputType (iv_type value) ;;
       ret (mkInputValueConfig type value (getDescription (iv_loc value))
              VUndefined)).

(** [makeFieldDefMap]: [def.fields] is undefined on a definition that is
    neither an object nor an interface, and [keyValMap] fails on it. *)
Definition makeFieldDefMap (def : TypeDefinitionNode)
  : M (list (string * FieldConfig)) :=
  match def with
  | ObjectTypeDefinition _ _ fields _ | InterfaceTypeDefinition _ fields _ =>
      keyValMap fields
        (fun field => name_value (fd_name field))
        (fun field =>
           type <- produceOutputType (fd_type field) ;;
           let description := getDescription (fd_loc field) in
           args <- makeInputValues (fd_arguments field) ;;
           deprecationReason <- lift (getDeprecationReason (fd_directives field)) ;;
           ret (mkFieldConfig type field description args deprecationReason))
  | _ => throw (TypeError "Cannot read property 'reduce' of undefined")
  end.

Definition makeImplementedInterfaces (def : TypeDefinitionNode)
  : M (option (list GraphQLType)) :=
  match def with
  | ObjectTypeDefinition _ (Some interfaces) _ _ =>
      l <- mapM (fun iface => produceInterfaceType (NamedType iface)) interfaces ;;
      ret (Some l)
  | _ => ret None
  end.

Definition makeTypeDef (def : TypeDefinitionNode) : M nat :=
  let typeName := name_value (def_name def) in
  alloc (GraphQLObjectType typeName def (getDescription (def_loc def))).

Definition makeInterfaceDef (def : TypeDefinitionNode) : M nat :=
  let typeName := name_value (def_name def) in
  alloc (GraphQLInterfaceType typeName def (getDescription (def_loc def))).

Definition makeEnumDef (def : TypeDefinitionNode)
    (values : list EnumValueDefinitionNode) : M nat :=
  let description := getDescription (def_loc def) in
  values <- keyValMap values
    (fun enumValue => name_value (ev_name enumValue))
    (fun enumValue =>
       let description := getDescription (ev_loc enumValue) in
       deprecationReason <- lift (getDeprecationReason (ev_directives enumValue)) ;;
       ret (mkEnumValueConfig description deprecationReason enumValue)) ;;
  alloc (GraphQLEnumType (name_value (def_name def)) def description values).

Definition makeUnionDef (def : TypeDefinitionNode)
    (types : list NamedTypeNode) : M nat :=
  let description := getDescription (def_loc def) in
  types <- mapM (fun t => produceObjectType (NamedType t)) types ;;
  alloc (GraphQLUnionType (name_value (def_name def)) def description types).

Definition makeScalarDef (def : TypeDefinitionNode) : M nat :=
  alloc (GraphQLScalarType (name_value (def_name def)) def
           (getDescription (def_loc def))).

Definition makeInputObjectDef (def : TypeDefinitionNode) : M nat :=
  alloc (GraphQLInputObjectType (name_value (def_name def)) def
           (getDescription (def_loc def))).

(** [makeSchemaDef]: the address of the new object.  A definition of
    [nodeMap] is of one of the six kinds, so neither [throw] of the source is
    reached. *)
Definition makeSchemaDef (def : TypeDefinitionNode) : M nat :=
  match def with
  | ObjectTypeDefinition _ _ _ _ => makeTypeDef def
  | InterfaceTypeDefinition _ _ _ => makeInterfaceDef def
  | EnumTypeDefinition _ values _ => makeEnumDef def values
  | UnionTypeDefinition _ types _ => makeUnionDef def types
  | ScalarTypeDefinition _ _ => makeScalarDef def
  | InputObjectTypeDefinition _ _ _ => makeInputObjectDef def
  end.

Definition getDirective (directiveNode : DirectiveDefinitionNode)
  : M GraphQLDirective :=
  let description := getDescription (dd_loc directiveNode) in
  let locations := map name_value (dd_locations directiveNode) in
  args <- match dd_arguments directiveNode with
          | Some arguments =>
              a <- makeInputValues arguments ;; ret (Some a)
          | None => ret None
          end ;;
  ret (NewDirective (name_value (dd_name directiveNode)) description
         locations args).

(** [getObjectType]; [typeNode] is [nodeMap[...]], undefined when the name
    has no definition, and [typeNode.name] then fails. *)
Definition getObjectType (typeNode : option TypeDefinitionNode)
  : M (option GraphQLNamedType) :=
  match typeNode with
  | None => throw (TypeError "Cannot read property 'name' of undefined")
  | Some node =>
      type <- typeDefNamed (name_value (def_name node))
                (NotANode (Placeholder objectType)) ;;
      st <- getState ;;
      (if match type with
          | Some t => instanceof_GraphQLObjectType st (Named t)
          | None => false
          end
       then ret tt
       else pushError (newGQLError "AST must provide object type."
                         (Some [DefNode node]) SEVERITY_error)) ;;;
      ret type
  end.

End Resolver.

(** [typeDefNamed]: [fuel] bounds the depth of the calls of [makeSchemaDef]
    inside one another. *)
Fixpoint typeDefNamed (fuel : nat) (typeName : string) (node : ASTNode)
  : M (option GraphQLNamedType) :=
  fun st =>
    match innerTypeMap_get st typeName with
    | Some t => Ok (Some t) st
    | None =>
        match lookup typeName nodeMap with
        | None =>
            (pushError (newGQLError (msg_notFound typeName) (Some [node])
                          SEVERITY_error) ;;;
             ret None) st
        | Some def =>
            match fuel with
            | 0 => OutOfFuel
            | S fuel' =>
                (innerTypeDef <- makeSchemaDef (typeDefNamed fuel') def ;;
                 cache typeName innerTypeDef ;;;
                 ret (Some (Instance innerTypeDef))) st
            end
        end
    end.

(** [getFields()] of an object or interface type runs the [fields] thunk it
    was made with. *)
Definition getFields (fuel : nat) (addr : nat) : M (list (string * FieldConfig)) :=
  fun st =>
    match nth_error (heap st) addr with
    | Some (GraphQLObjectType _ def _) | Some (GraphQLInterfaceType _ def _) =>
        makeFieldDefMap (typeDefNamed fuel) def st
    | _ => Throw (TypeError "getFields is not a function")
    end.

(** [getInterfaces()] of an object type runs its [interfaces] thunk. *)
Definition getInterfaces (fuel : nat) (addr : nat) : M (option (list GraphQLType)) :=
  fun st =>
    match nth_error (heap st) addr with
    | Some (GraphQLObjectType _ def _) =>
        makeImplementedInterfaces (typeDefNamed fuel) def st
    | _ => Throw (TypeError "getInterfaces is not a function")
    end.

End Builders.

(** [list.filter(Boolean)] on the results of [typeDefNamed]. *)
Fixpoint filterBoolean {A : Type} (l : list (option A)) : list A :=
  match l with
  | [] => []
  | Some a :: rest => a :: filterBoolean rest
  | None :: rest => filterBoolean rest
  end.

Definition hasDirective (name : string) (directives : list GraphQLDirective) : bool :=
  existsb (fun directive => String.eqb (directive_name directive) name) directives.

(** The three [if (!directives.some(...)) directives.push(...)]. *)
Definition addSpecifiedDirectives (directives : list GraphQLDirective)
  : list GraphQLDirective :=
  let d1 := if hasDirective "skip" directives then directives
            else directives ++ [GraphQLSkipDirective] in
  let d2 := if hasDirective "include" d1 then d1
            else d1 ++ [GraphQLIncludeDirective] in
  if hasDirective "deprecated" d2 then d2
  else d2 ++ [GraphQLDeprecatedDirective].

(** [name ? getObjectType(nodeMap[name]) : null], the value of each of
    [query], [mutation] and [subscription]. *)
Definition rootType (resolve : string -> ASTNode -> M (option GraphQLNamedType))
    (nodeMap : list (string * TypeDefinitionNode)) (name : option string)
  : M (option GraphQLNamedType) :=
  match name with
  | Some typeName =>
      if truthy name then getObjectType resolve (lookup typeName nodeMap)
      else ret None
  | None => ret None
  end.

Section Build.

Variable getArgumentValues :
  GraphQLDirective -> DirectiveNode -> Exn + list (string * Value).

(** The body of [buildASTSchema] on the definitions of a document, up to the
    call of [new GraphQLSchema]: the configuration the schema is made from,
    and, in the state, the [errors] array at that point. *)
Definition buildFromDefinitions (fuel : nat) (definitions : list DefinitionNode)
  : Result SchemaConfig :=
  let s := scanDefinitions definitions in
  let errors := scanErrors s ++ duplicateErrors (nodeMapWithAllReferences s) in
  let r := rootNames s in
  let errors :=
    if truthy (queryTypeName r) then errors
    else errors ++ [newGQLError msg_noQueryType None SEVERITY_error] in
  let resolve := typeDefNamed getArgumentValues (nodeMap s) fuel in
  let root := rootType resolve (nodeMap s) in
  (found <- mapM (fun def => resolve (name_value (def_name def)) (DefNode def))
              (typeDefs s) ;;
   let types :=
     filterBoolean found ++
     [Specified "String"; Specified "Int"; Specified "Float";
      Specified "Boolean"; Specified "ID"] in
   explicit <- mapM (getDirective resolve) (directiveDefs s) ;;
   let directives := addSpecifiedDirectives explicit in
   query <- root (queryTypeName r) ;;
   mutation <- root (mutationTypeName r) ;;
   subscription <- root (subscriptionTypeName r) ;;
   ret (mkSchemaConfig query mutation subscription types directives (nodeMap s)))
  (mkState errors [] []).

(** [buildASTSchema]: the result is the schema made from the configuration,
    with the diagnostics of the final state before those the schema holds. *)
Definition buildASTSchema (fuel : nat) (ast : option RootNode)
  : Result SchemaConfig :=
  match ast with
  | Some (Document definitions) => buildFromDefinitions fuel definitions
  | _ => Throw (Error "Must provide a document ast.")
  end.

End Build.

(* ------------------------------------------------------------------ *)
(** ** A reading of the deprecation reason that follows the specification *)

(** The specification lets a "deprecated" directive of the document
    override the argument set used in deprecation-reason lookups.  This is
    that reading, to compare with [getDeprecationReason]: the directive
    handed to [getArgumentValues] is the one named "deprecated" in the
    directive set of the schema. *)
Definition spec_getDeprecationReason
    (getArgumentValues : GraphQLDirective -> DirectiveNode -> Exn + list (string * Value))
    (schemaDirectives : list GraphQLDirective)
    (directives : option (list DirectiveNode)) : Exn + Value :=
  match directives with
  | None => inr VNull
  | Some directives =>
      match find (fun directive =>
                    String.eqb (name_value (dir_name directive)) "deprecated")
                 directives,
            find (fun d => String.eqb (directive_name d) "deprecated")
                 schemaDirectives with
      | Some deprecatedAST, Some deprecated =>
          match getArgumentValues deprecated deprecatedAST with
          | inl e => inl e
          | inr values =>
              inr (match lookup "reason" values with
                   | Some reason => reason
                   | None => VUndefined
                   end)
          end
      | _, _ => inr VNull
      end
  end.

(* ------------------------------------------------------------------ *)
(** ** An instance of [getArgumentValues] for the examples *)

(** The argument definitions of a directive: name, type, default value
    ([VUndefined] when there is none). *)
Definition directive_args (d : GraphQLDirective)
  : list (string * GraphQLType * Value) :=
  match d with
  | GraphQLSkipDirective | GraphQLIncludeDirective =>
      [("if", GraphQLNonNull (Named (Specified "Boolean")), VUndefined)]
  | GraphQLDeprecatedDirective =>
      [("reason", Named (Specified "String"), VString "No longer supported")]
  | NewDirective _ _ _ (Some args) =>
      map (fun a => (fst a, ivc_type (snd a), ivc_defaultValue (snd a))) args
  | NewDirective _ _ _ None => []
  end.

(** The coercion of a literal at the argument types of the specified
    directives: a string at [String], a boolean at [Boolean], null at a
    nullable type.  [None] is an invalid value. *)
Fixpoint coerceLiteral (valueNode : ValueNode) (type : GraphQLType) : option Value :=
  match type with
  | GraphQLNonNull t =>
      match valueNode with
      | NullValue => None
      | _ => coerceLiteral valueNode t
      end
  | Named (Specified n) =>
      match valueNode with
      | NullValue => Some VNull
      | StringValue s => if String.eqb n "String" then Some (VString s) else None
      | BooleanValue b => if String.eqb n "Boolean" then Some (VBoolean b) else None
      | _ => None
      end
  | _ =>
      match valueNode with
      | NullValue => Some VNull
      | _ => None
      end
  end.

Definition findArgument (name : string) (argNodes : list ArgumentNode)
  : option ArgumentNode :=
  find (fun arg => String.eqb (name_value (arg_name arg)) name) (rev argNodes).

(** The loop of [getArgumentValues] over the argument definitions, for
    constant arguments: the default of an argument that is not given, the
    coerced literal of one that is, an exception for an invalid literal or
    for a non-null argument left out. *)
Fixpoint coerceArguments (argDefs : list (string * GraphQLType * Value))
    (argNodes : list ArgumentNode) (coercedValues : list (string * Value))
  : Exn + list (string * Value) :=
  match argDefs with
  | [] => inr coercedValues
  | (name, argType, defaultValue) :: rest =>
      match findArgument name argNodes with
      | None =>
          match defaultValue with
          | VUndefined =>
              if is_GraphQLNonNull argType
              then inl (LibraryError "Argument of required type was not provided.")
              else coerceArguments rest argNodes coercedValues
          | _ => coerceArguments rest argNodes (assign name defaultValue coercedValues)
          end
      | Some argumentNode =>
          match coerceLiteral (arg_value argumentNode) argType with
          | None => inl (LibraryError "Argument got invalid value.")
          | Some coercedValue =>
              coerceArguments rest argNodes (assign name coercedValue coercedValues)
          end
      end
  end.

(** Follows graphql-js on directives whose arguments are of type [String] or
    [Boolean], the specified directives among them. *)
Definition literalArgumentValues (def : GraphQLDirective) (node : DirectiveNode)
  : Exn + list (string * Value) :=
  coerceArguments (directive_args def) (dir_arguments node) [].

(* ------------------------------------------------------------------ *)
(** ** Sample documents *)

Module Samples.

Definition nm (s : string) : NameNode := mkName s None.
Definition named (s : string) : NamedTypeNode := mkNamedType (nm s) None.
Definition ref (s : string) : TypeNode := NamedType (named s).
Definition field (name type : string) : FieldDefinitionNode :=
  mkField (nm name) [] (ref type) (Some []) None.
Definition object (name : string) (fields : list FieldDefinitionNode)
  : TypeDefinitionNode :=
  ObjectTypeDefinition (nm name) (Some []) fields None.
Definition union (name : string) (members : list string) : TypeDefinitionNode :=
  UnionTypeDefinition (nm name) (map named members) None.
Definition schemaBlock (ops : list (string * string)) (l : option Location)
  : SchemaDefinitionNode :=
  mkSchemaDefinition
    (map (fun o => mkOperationType (fst o) (named (snd o))) ops) l.

(** [schema { query: Missing }] *)
Definition missingRoot : list DefinitionNode :=
  [SchemaDefinition (schemaBlock [("query", "Missing")] None)].

(** [type Query { a: Int }  union A = B  union B = A] *)
Definition cyclicUnions : list DefinitionNode :=
  [TypeDefinition (object "Query" [field "a" "Int"]);
   TypeDefinition (union "A" ["B"]);
   TypeDefinition (union "B" ["A"])].

(** A location on the given line, to tell schema blocks apart. *)
Definition at_line (n : nat) : option Location :=
  Some (mkLocation (mkToken NAME n (Some "schema")) [mkToken SOF 0 None]).

(** Three schema blocks, then [type Query { a: Int }]. *)
Definition block1 := schemaBlock [("query", "Query")] (at_line 1).
Definition block2 := schemaBlock [("query", "Query")] (at_line 2).
Definition block3 := schemaBlock [("query", "Query")] (at_line 3).
Definition threeSchemaBlocks : list DefinitionNode :=
  [SchemaDefinition block1; SchemaDefinition block2; SchemaDefinition block3;
   TypeDefinition (object "Query" [field "a" "Int"])].

(** [directive @deprecated on FIELD_DEFINITION]
    [type Query { old: Int @deprecated }] *)
Definition deprecatedNode : DirectiveNode := mkDirectiveNode (nm "deprecated") [].
Definition oldField : FieldDefinitionNode :=
  mkField (nm "old") [] (ref "Int") (Some [deprecatedNode]) None.
Definition ownDeprecated : list DefinitionNode :=
  [DirectiveDefinition
     (mkDirectiveDefinition (nm "deprecated") (Some []) [nm "FIELD_DEFINITION"] None);
   TypeDefinition (object "Query" [oldField])].

(** [type Query { a: Int }  union U = toString] *)
Definition inheritedName : list DefinitionNode :=
  [TypeDefinition (object "Query" [field "a" "Int"]);
   TypeDefinition (union "U" ["toString"])].

(** [type Query { a: Int }  union A = B  union B = Query] *)
Definition chainedUnions : list DefinitionNode :=
  [TypeDefinition (object "Query" [field "a" "Int"]);
   TypeDefinition (union "A" ["B"]);
   TypeDefinition (union "B" ["Query"])].

(** [type Query { t: T }  type T { a: Int }  scalar T  type T { b: Int }],
    the three definitions of [T] told apart by their lines. *)
Definition nameAt (s : string) (n : nat) : NameNode := mkName s (at_line n).
Definition firstT : TypeDefinitionNode :=
  ObjectTypeDefinition (nameAt "T" 2) (Some []) [field "a" "Int"] None.
Definition secondT : TypeDefinitionNode :=
  ScalarTypeDefinition (nameAt "T" 3) None.
Definition thirdT : TypeDefinitionNode :=
  ObjectTypeDefinition (nameAt "T" 4) (Some []) [field "b" "Int"] None.
Definition duplicateTypes : list DefinitionNode :=
  [TypeDefinition (object "Query" [field "t" "T"]);
   TypeDefinition firstT; TypeDefinition secondT; TypeDefinition thirdT].

(** [type A { b: B }  type B { a: A }], for any names of the types and of
    the fields. *)
Definition typeA (A B b : string) : TypeDefinitionNode := object A [field b B].
Definition typeB (A B a : string) : TypeDefinitionNode := object B [field a A].
Definition mutualObjects (A B a b : string) : list DefinitionNode :=
  [TypeDefinition (typeA A B b); TypeDefinition (typeB A B a)].

(** [type Query { a: Int }  union U = Bogus] *)
Definition unknownMember : list DefinitionNode :=
  [TypeDefinition (object "Query" [field "a" "Int"]);
   TypeDefinition (union "U" ["Bogus"])].

End Samples.

(** The diagnostics of a build that returned, none otherwise. *)
Definition errorsOf (r : Result SchemaConfig) : list GQLError :=
  match r with
  | Ok _ st => errors st
  | _ => []
  end.

(* ------------------------------------------------------------------ *)
(** ** Notions used in the statements *)

(** The text of each comment of a block. *)
Definition commentLines (block : list Token) : list string :=
  map (fun c => String_of (value c)) block.

(** Each comment of [block] (in document order) is on the line just above
    the token that follows it, the last one just above [node]. *)
Fixpoint linesRunInto (block : list Token) (node : Token) : Prop :=
  match block with
  | [] => True
  | c :: rest => line c + 1 = line (hd node rest) /\ linesRunInto rest node
  end.

(** The least element of a list of numbers ([0] for the empty list). *)
Definition least (l : list nat) : nat := fold_right Nat.min (hd 0 l) l.

Definition minLeadingSpaces (lines : list string) : nat :=
  least (map leadingSpaces lines).

Fixpoint spaces (n : nat) : string :=
  match n with
  | 0 => EmptyString
  | S n' => String " " (spaces n')
  end.

(** Whether the token just before the node is a comment the loop takes. *)
Definition hasDescriptionComment (l : Location) : bool :=
  match prevTokens l with
  | token :: rest => isDescriptionComment token (startToken l) (hd_error rest)
  | [] => false
  end.

(** The list and non-null modifiers of a type reference, outermost first. *)
Inductive Modifier := ListModifier | NonNullModifier.

Fixpoint modifiersOf (typeNode : TypeNode) : list Modifier :=
  match typeNode with
  | NamedType _ => []
  | ListType t => ListModifier :: modifiersOf t
  | NonNullType t => NonNullModifier :: modifiersOf t
  end.

(** The wrappers of a resolved type, outermost first. *)
Fixpoint wrappersOf (type : GraphQLType) : list Modifier :=
  match type with
  | Named _ => []
  | GraphQLList t => ListModifier :: wrappersOf t
  | GraphQLNonNull t => NonNullModifier :: wrappersOf t
  end.

Fixpoint wrap (modifiers : list Modifier) (inner : GraphQLType) : GraphQLType :=
  match modifiers with
  | [] => inner
  | ListModifier :: rest => GraphQLList (wrap rest inner)
  | NonNullModifier :: rest => GraphQLNonNull (wrap rest inner)
  end.

(** No non-null modifier directly inside a non-null modifier. *)
Fixpoint noNonNullInNonNull (typeNode : TypeNode) : bool :=
  match typeNode with
  | NamedType _ => true
  | ListType t => noNonNullInNonNull t
  | NonNullType t =>
      match t with
      | NonNullType _ => false
      | _ => noNonNullInNonNull t
      end
  end.

(** The type reference read back from a resolved type, given the node of
    the innermost name. *)
Fixpoint toTypeNode (n : NamedTypeNode) (type : GraphQLType) : TypeNode :=
  match type with
  | Named _ => NamedType n
  | GraphQLList t => ListType (toTypeNode n t)
  | GraphQLNonNull t => NonNullType (toTypeNode n t)
  end.

(** The schema blocks of a document, in document order. *)
Fixpoint schemaBlocks (definitions : list DefinitionNode)
  : list SchemaDefinitionNode :=
  match definitions with
  | [] => []
  | SchemaDefinition d :: rest => d :: schemaBlocks rest
  | _ :: rest => schemaBlocks rest
  end.

(** The type definitions of a document, in document order. *)
Fixpoint typeDefinitions (definitions : list DefinitionNode)
  : list TypeDefinitionNode :=
  match definitions with
  | [] => []
  | TypeDefinition d :: rest => d :: typeDefinitions rest
  | _ :: rest => typeDefinitions rest
  end.

(** The directive definitions of a document, in document order. *)
Fixpoint directiveDefinitions (definitions : list DefinitionNode)
  : list DirectiveDefinitionNode :=
  match definitions with
  | [] => []
  | DirectiveDefinition d :: rest => d :: directiveDefinitions rest
  | _ :: rest => directiveDefinitions rest
  end.

(** The type definitions that declare [name], in document order. *)
Definition definitionsNamed (name : string) (definitions : list DefinitionNode)
  : list TypeDefinitionNode :=
  filter (fun d => String.eqb (name_value (def_name d)) name)
         (typeDefinitions definitions).

(** Each element with the one that follows it. *)
Fixpoint consecutivePairs {A : Type} (l : list A) : list (A * A) :=
  match l with
  | a :: (b :: _) as rest => (a, b) :: consecutivePairs rest
  | _ => []
  end.

Definition onlyOneSchemaError (p : SchemaDefinitionNode * SchemaDefinitionNode)
  : GQLError :=
  newGQLError msg_onlyOneSchema (Some [SchemaNode (fst p); SchemaNode (snd p)])
    SEVERITY_error.

Definition multipleTypesError (name : string) (defs : list TypeDefinitionNode)
  : GQLError :=
  newGQLError (msg_multipleTypes name)
    (Some (map (fun d => NameOf (def_name d)) defs)) SEVERITY_error.

Definition hasMessage (m : string) (e : GQLError) : bool :=
  String.eqb (message e) m.

(** The diagnostics of the [errors] array once the definitions are scanned
    and the duplicates reported. *)
Definition scanDiagnostics (definitions : list DefinitionNode) : list GQLError :=
  let s := scanDefinitions definitions in
  scanErrors s ++ duplicateErrors (nodeMapWithAllReferences s).

(** The directive set of a document that defines no directive. *)
Definition specifiedDirectives : list GraphQLDirective :=
  [GraphQLSkipDirective; GraphQLIncludeDirective; GraphQLDeprecatedDirective].

(** The [errors] array when the builders start. *)
Definition initialErrors (definitions : list DefinitionNode) : list GQLError :=
  if truthy (queryTypeName (rootNames (scanDefinitions definitions)))
  then scanDiagnostics definitions
  else scanDiagnostics definitions
       ++ [newGQLError msg_noQueryType None SEVERITY_error].

(** A directive made by [getDirective] from a definition. *)
Definition madeFrom (directiveNode : DirectiveDefinitionNode)
    (d : GraphQLDirective) : Prop :=
  exists description locations args,
    d = NewDirective (name_value (dd_name directiveNode)) description
          locations args.

(** The diagnostic of [typeDefNamed] for a name without definition. *)
Definition notFoundError (n : NamedTypeNode) : GQLError :=
  newGQLError (msg_notFound (name_value (nt_name n))) (Some [TypeRef n])
    SEVERITY_error.

(** [produce], one of the four [produce...Type], answers a reference with
    the placeholder of [slot] under the modifiers of the reference, after a
    "not found" diagnostic, and leaves the heap and [innerTypeMap] alone. *)
Definition substitutesPlaceholder (produce : TypeNode -> M GraphQLType)
    (slot : PlaceholderSlot) (typeNode : TypeNode) (st : State) : Prop :=
  exists st',
    produce typeNode st
    = Ok (wrap (modifiersOf typeNode) (Named (Placeholder slot))) st'
    /\ In (notFoundError (getNamedTypeNode typeNode)) (errors st')
    /\ heap st' = heap st
    /\ innerTypeMap st' = innerTypeMap st.

Definition isUnionDefinition (d : DefinitionNode) : bool :=
  match d with
  | TypeDefinition (UnionTypeDefinition _ _ _) => true
  | _ => false
  end.

Definition isUnionType (d : TypeDefinitionNode) : bool :=
  match d with
  | UnionTypeDefinition _ _ _ => true
  | _ => false
  end.

(** A computation that the fuel it is given suffices for, in every state. *)
Definition terminates {A : Type} (m : M A) : Prop :=
  forall st : State, m st <> OutOfFuel.

(* ------------------------------------------------------------------ *)
(** ** Notions used in the proofs *)

(** [chain next rb rest]: walking back from [next], every token of [rb]
    (nearest first) passes the guard of the loop. *)
Fixpoint chain (next : Token) (rb rest : list Token) : Prop :=
  match rb with
  | [] => True
  | t :: rb' =>
      isDescriptionComment t next (hd_error (rb' ++ rest)) = true
      /\ chain t rb' rest
  end.

Definition lastOf {A : Type} (l : list A) : option A := hd_error (rev l).

Definition cyclicNodeMap : list (string * TypeDefinitionNode) :=
  nodeMap (scanDefinitions Samples.cyclicUnions).

(** The messages of the diagnostics that the builders push. *)
Inductive builderMessage : string -> Prop :=
| bm_notFound (typeName : string) : builderMessage (msg_notFound typeName)
| bm_root : builderMessage "AST must provide object type."
| bm_input : builderMessage "Expected Input type."
| bm_output : builderMessage "Expected Output type."
| bm_object : builderMessage "Expected Object type."
| bm_interface : builderMessage "Expected Interface type.".

Section Soundness.

Variable getArgumentValues :
  GraphQLDirective -> DirectiveNode -> Exn + list (string * Value).
Variable nodeMap : list (string * TypeDefinitionNode).

(** An object made from the definition that [nodeMap] holds for its name. *)
Definition builtFrom (o : TypeObject) : Prop :=
  lookup (obj_name o) nodeMap = Some (obj_node o).

(** The deprecation reason of an enum value is the one that
    [getDeprecationReason] reads on the directives of its node. *)
Definition valueReason (v : EnumValueConfig) : Prop :=
  getDeprecationReason getArgumentValues (ev_directives (evc_node v))
  = inr (evc_deprecationReason v).

Definition fieldReason (f : FieldConfig) : Prop :=
  getDeprecationReason getArgumentValues (fd_directives (fc_node f))
  = inr (fc_deprecationReason f).

Definition sound (o : TypeObject) : Prop :=
  builtFrom o
  /\ match o with
     | GraphQLEnumType _ _ _ values => Forall (fun kv => valueReason (snd kv)) values
     | _ => True
     end.

(** From [st] to [st']: diagnostics were pushed, all with a message of the
    builders, and objects were made, all sound. *)
Definition extends (st st' : State) : Prop :=
  (exists es, errors st' = errors st ++ es
              /\ Forall (fun e => builderMessage (message e)) es)
  /\ (exists os, heap st' = heap st ++ os /\ Forall sound os).

Definition respects {A : Type} (m : M A) : Prop :=
  forall (st : State) (a : A) (st' : State), m st = Ok a st' -> extends st st'.

End Soundness.

(* ------------------------------------------------------------------ *)
(** ** More notions used in statements *)

Definition defName (d : TypeDefinitionNode) : string := name_value (def_name d).

(** The type that the last operation type of a schema block gives for
    [op]. *)
Definition lastOperation (op : string) (ops : list OperationTypeDefinitionNode)
  : option string :=
  option_map (fun o => name_value (nt_name (op_type o)))
    (find (fun o => String.eqb (operation o) op) (rev ops)).

Definition noQueryError : GQLError :=
  newGQLError msg_noQueryType None SEVERITY_error.

(** The definitions of [ds] without those whose name is in [seen] or is
    the name of a definition before them. *)
Fixpoint firstDefinitions (seen : list string) (ds : list TypeDefinitionNode)
  : list TypeDefinitionNode :=
  match ds with
  | [] => []
  | d :: rest =>
      if mem (defName d) seen then firstDefinitions seen rest
      else d :: firstDefinitions (defName d :: seen) rest
  end.

Definition specifiedScalars : list GraphQLNamedType :=
  [Specified "String"; Specified "Int"; Specified "Float";
   Specified "Boolean"; Specified "ID"].

(** The state after [errors.push] of each of [es]. *)
Definition pushed (st : State) (es : list GQLError) : State :=
  mkState (errors st ++ es) (innerTypeMap st) (heap st).

Definition expectedError (expected : string) (typeNode : TypeNode) : GQLError :=
  newGQLError expected (Some [TypeRef (getNamedTypeNode typeNode)])
    SEVERITY_error.

(** The specified directives that [explicit] leaves to add. *)
Definition missingDirectives (explicit : list GraphQLDirective)
  : list GraphQLDirective :=
  filter (fun d => negb (hasDirective (directive_name d) explicit))
         specifiedDirectives.

(** A member name that resolving does not build anything for: it is in
    [innerTypeMap] already, or it has no definition. *)
Definition settled (nodeMap : list (string * TypeDefinitionNode)) (st : State)
    (n : NamedTypeNode) : Prop :=
  innerTypeMap_get st (name_value (nt_name n)) <> None
  \/ lookup (name_value (nt_name n)) nodeMap = None.

(** The class of the object that each kind of definition is built as. *)
Definition defKind (d : TypeDefinitionNode) : TypeKind :=
  match d with
  | ScalarTypeDefinition _ _ => SCALAR
  | ObjectTypeDefinition _ _ _ _ => OBJECT
  | InterfaceTypeDefinition _ _ _ => INTERFACE
  | UnionTypeDefinition _ _ _ => UNION
  | EnumTypeDefinition _ _ _ => ENUM
  | InputObjectTypeDefinition _ _ _ => INPUT_OBJECT
  end.

(** An address is valid when the heap has an object there. *)
Definition validNamed (st : State) (t : GraphQLNamedType) : Prop :=
  match t with
  | Instance a => a < List.length (heap st)
  | _ => True
  end.

Definition validType (st : State) (type : GraphQLType) : Prop :=
  validNamed st (getNamedType type).

Definition grows (st st' : State) : Prop :=
  exists os, heap st' = heap st ++ os.

Section Coherence.

Variable nodeMap : list (string * TypeDefinitionNode).

(** An object as [typeDefNamed] makes them: of the name and of the class
    of its definition, which is the one [nodeMap] holds for that name, a name
    that [innerTypeMap] did not answer from the start. *)
Definition wellMade (o : TypeObject) : Prop :=
  obj_name o = defName (obj_node o)
  /\ obj_kind o = defKind (obj_node o)
  /\ lookup (obj_name o) nodeMap = Some (obj_node o)
  /\ mem (obj_name o) specifiedTypeNames = false
  /\ mem (obj_name o) objectPrototypeKeys = false.

Definition membersValid (st : State) (o : TypeObject) : Prop :=
  match o with
  | GraphQLUnionType _ _ _ types => Forall (validType st) types
  | _ => True
  end.

(** The heap and [innerTypeMap] fit together: an entry of [innerTypeMap]
    is the address of an object of that name, every object is well made, and
    the members of a union are valid. *)
Definition coherent (st : State) : Prop :=
  (forall n a, lookup n (innerTypeMap st) = Some a ->
     exists o, nth_error (heap st) a = Some o /\ obj_name o = n)
  /\ Forall wellMade (heap st)
  /\ Forall (membersValid st) (heap st).

(** What a name resolved to: an object of that name, or the name itself
    as a specified type or as a property of [Object.prototype]. *)
Definition resolvedFor (st : State) (n : string) (t : GraphQLNamedType) : Prop :=
  match t with
  | Instance a => exists o, nth_error (heap st) a = Some o /\ obj_name o = n
  | Specified m => m = n /\ mem n specifiedTypeNames = true
  | Inherited m => m = n /\ mem n objectPrototypeKeys = true
  | Placeholder _ => False
  end.

Definition resolverSpec (resolve : string -> ASTNode -> M (option GraphQLNamedType))
  : Prop :=
  forall n node st r st',
    resolve n node st = Ok r st' ->
    grows st st'
    /\ (coherent st ->
        coherent st' /\ forall t, r = Some t -> resolvedFor st' n t).

(** A computation that keeps the heap growing and coherent. *)
Definition keeps {A : Type} (m : M A) : Prop :=
  forall st a st',
    m st = Ok a st' -> grows st st' /\ (coherent st -> coherent st').

(** The same for one that returns a type, which is then valid. *)
Definition keepsType (m : M GraphQLType) : Prop :=
  forall st type st',
    m st = Ok type st' ->
    grows st st' /\ (coherent st -> coherent st' /\ validType st' type).

End Coherence.

(** What [types] holds for a definition: the object made from it, or, for
    a name that [innerTypeMap] answers from the start, the specified type or
    the inherited property of that name. *)
Definition builtAs (st : State) (d : TypeDefinitionNode) (t : GraphQLNamedType)
  : Prop :=
  match t with
  | Instance a =>
      exists o, nth_error (heap st) a = Some o
                /\ obj_name o = defName d /\ obj_node o = d
                /\ obj_kind o = defKind d
  | Specified n => n = defName d /\ mem n specifiedTypeNames = true
  | Inherited n => n = defName d /\ mem n objectPrototypeKeys = true
  | Placeholder _ => False
  end.

Definition rootError (d : TypeDefinitionNode) : GQLError :=
  newGQLError "AST must provide object type." (Some [DefNode d]) SEVERITY_error.

(* ================================================================== *)
(** * Properties *)

(* ------------------------------------------------------------------ *)
(** ** The description extractor *)

Section Description.

Lemma last_cons (A : Type) :
  forall (xs : list A) (x d : A), last (x :: xs) d = last xs x.
Proof.
  induction xs as [|y xs IH]; intros x d; [reflexivity|].
  change (last (x :: y :: xs) d) with (last (y :: xs) d).
  rewrite (IH y d), (IH y x). reflexivity.
Qed.

Lemma chain_snoc (c : Token) (rest : list Token) :
  forall (xs : list Token) (next : Token),
    chain next xs (c :: rest) ->
    isDescriptionComment c (last xs next) (hd_error rest) = true ->
    chain next (xs ++ [c]) rest.
Proof.
  induction xs as [|x xs IH]; intros next Hc Hq.
  - split; [exact Hq | exact I].
  - destruct Hc as [Hx Hc]. rewrite last_cons in Hq.
    cbn [app chain]. split.
    + rewrite <- app_assoc. exact Hx.
    + apply IH; assumption.
Qed.

Lemma last_rev_hd (A : Type) (l : list A) (d : A) : last (rev l) d = hd d l.
Proof.
  destruct l as [|a l]; simpl; [reflexivity|].
  apply last_last.
Qed.

Lemma block_chain (start : Token) :
  forall (block rest : list Token),
    Forall (fun c => kind c = COMMENT) block ->
    linesRunInto block start ->
    (block <> [] ->
     exists p, hd_error rest = Some p /\ line (hd start block) <> line p) ->
    chain start (rev block) rest.
Proof.
  induction block as [|c b IH]; intros rest Hk Hl Hp; simpl; [exact I|].
  inversion Hk as [|? ? Hc Hb]; subst. destruct Hl as [Hadj Hl].
  destruct (Hp ltac:(discriminate)) as [p [Hrest Hne]]. simpl in Hne.
  apply chain_snoc.
  - apply IH; trivial. intros Hb'. exists c. split; [reflexivity|].
    destruct b; [congruence|]. simpl in *. lia.
  - rewrite last_rev_hd. unfold isDescriptionComment. rewrite Hrest, Hc. simpl.
    apply andb_true_iff. split.
    + apply Nat.eqb_eq. exact Hadj.
    + apply negb_true_iff, Nat.eqb_neq. exact Hne.
Qed.

Lemma collectComments_chain :
  forall (rb rest : list Token) (next : Token) (m : option nat) (cs : list string),
    chain next rb rest ->
    (forall p, hd_error rest = Some p ->
               isDescriptionComment p (last rb next) (hd_error (tl rest)) = false) ->
    collectComments next (rb ++ rest) m cs =
    (fold_left updateMinSpaces (map leadingSpaces (commentLines rb)) m,
     cs ++ commentLines rb).
Proof.
  induction rb as [|t rb IH]; intros rest next m cs Hc Hstop; simpl.
  - rewrite app_nil_r. destruct rest as [|p rest]; simpl; [reflexivity|].
    pose proof (Hstop p eq_refl) as H. simpl in H. rewrite H. reflexivity.
  - destruct Hc as [Hq Hc]. rewrite Hq. rewrite IH; trivial.
    + rewrite <- app_assoc. reflexivity.
    + intros p Hp. specialize (Hstop p Hp).
      rewrite last_cons in Hstop. exact Hstop.
Qed.

(** The minimum the loop keeps is the least element. *)
Lemma least_spec (l : list nat) :
  l <> [] -> In (least l) l /\ forall x, In x l -> least l <= x.
Proof.
  unfold least. destruct l as [|a l]; [congruence|]. intros _. simpl hd.
  assert (H : forall (l : list nat) (a : nat),
             (fold_right Nat.min a l = a \/ In (fold_right Nat.min a l) l)
             /\ fold_right Nat.min a l <= a
             /\ forall x, In x l -> fold_right Nat.min a l <= x).
  { clear. induction l as [|b l IH]; intros a; simpl.
    - repeat split; auto. intros x [].
    - destruct (IH a) as [Hin [Hle Hall]]. repeat split.
      + destruct (Nat.min_dec b (fold_right Nat.min a l)) as [E|E]; rewrite E.
        * right. left. reflexivity.
        * destruct Hin as [Hin|Hin]; [left; exact Hin | right; right; exact Hin].
      + lia.
      + intros x [Hx|Hx]; [subst; lia|]. specialize (Hall x Hx). lia. }
  destruct (H (a :: l) a) as [Hin [Hle Hall]]. split.
  - destruct Hin as [Hin|Hin]; [rewrite Hin; left; reflexivity | exact Hin].
  - exact Hall.
Qed.

Lemma updateMinSpaces_spec :
  forall (l : list nat) (m : nat),
    exists r, fold_left updateMinSpaces l (Some m) = Some r
              /\ (r = m \/ In r l) /\ r <= m /\ forall x, In x l -> r <= x.
Proof.
  induction l as [|a l IH]; intros m; simpl.
  - exists m. repeat split; auto. intros x [].
  - destruct (a <? m) eqn:E.
    + apply Nat.ltb_lt in E. destruct (IH a) as [r [Hr [Hin [Hle Hall]]]].
      exists r. split; [exact Hr|]. repeat split.
      * destruct Hin as [->|Hin]; [right; left; reflexivity | right; right; exact Hin].
      * lia.
      * intros x [<-|Hx]; [exact Hle | exact (Hall x Hx)].
    + apply Nat.ltb_ge in E. destruct (IH m) as [r [Hr [Hin [Hle Hall]]]].
      exists r. split; [exact Hr|]. repeat split.
      * destruct Hin as [->|Hin]; [left; reflexivity | right; right; exact Hin].
      * exact Hle.
      * intros x [<-|Hx]; [lia | exact (Hall x Hx)].
Qed.

Lemma loop_minimum (l : list nat) :
  l <> [] ->
  fold_left updateMinSpaces (rev l) None = Some (least l).
Proof.
  intros Hl. assert (Hr : rev l <> []).
  { intros E. apply Hl. rewrite <- (rev_involutive l), E. reflexivity. }
  destruct (rev l) as [|a r] eqn:E; [congruence|]. simpl.
  destruct (updateMinSpaces_spec r a) as [m [Hm [Hin [Hle Hall]]]].
  rewrite Hm. f_equal.
  destruct (least_spec _ Hl) as [Lin Lall].
  assert (Hmem : forall x, In x l <-> x = a \/ In x r).
  { intros x. rewrite (in_rev l x), E. simpl. intuition. }
  assert (In m l) by (apply Hmem; destruct Hin; auto).
  assert (m <= least l).
  { apply Hmem in Lin. destruct Lin as [->|Lin]; [exact Hle | exact (Hall _ Lin)]. }
  specialize (Lall m H). lia.
Qed.

Lemma strip_spaces :
  forall (m : nat) (s : string),
    m <= leadingSpaces s -> s = (spaces m ++ slice_from m s)%string.
Proof.
  induction m as [|m IH]; intros s H; simpl; [reflexivity|].
  destruct s as [|c s]; simpl in H; [lia|].
  destruct (Ascii.eqb c " ") eqn:E; [|lia].
  apply Ascii.eqb_eq in E. subst c. simpl. f_equal. apply IH. lia.
Qed.

(** The walk stops at a token that is not a comment, and at a comment that
    a blank line separates from the token after it. *)
Lemma walk_stops (p next : Token) (prev : option Token) :
  kind p <> COMMENT \/ line p + 1 <> line next ->
  isDescriptionComment p next prev = false.
Proof.
  intros H. unfold isDescriptionComment. destruct prev as [q|]; [|reflexivity].
  destruct H as [H|H].
  - destruct (kind p); try reflexivity. congruence.
  - apply Nat.eqb_neq in H. rewrite H, andb_false_r. reflexivity.
Qed.

(** C9. A block of full-line comments [block] (in document order) that runs
    line after line into the node, whose first comment is on another line
    than the token before it, and before which the walk stops (as it does at
    a token that is not a comment, or at a comment with a blank line after
    it), gives as description the lines of the block in their order, joined
    by newlines, each without its first [m] characters, where [m] is the
    least count of leading spaces in the block; those [m] characters are
    spaces on every line.  Without such a block ([block] empty) the
    description is the empty string. *)
Theorem getDescription_comment_block :
  forall (start : Token) (block rest : list Token),
    Forall (fun c => kind c = COMMENT) block ->
    linesRunInto block start ->
    (block <> [] ->
     exists p, hd_error rest = Some p /\ line (hd start block) <> line p) ->
    (forall p, hd_error rest = Some p ->
       isDescriptionComment p (hd start block) (hd_error (tl rest)) = false) ->
    let lines := commentLines block in
    let m := minLeadingSpaces lines in
    getDescription (Some (mkLocation start (rev block ++ rest)))
      = Some (String.concat newline (map (slice_from m) lines))
    /\ Forall (fun s => s = (spaces m ++ slice_from m s)%string) lines.
Proof.
  intros start block rest Hk Hl Hp Hstop lines m.
  assert (Hmin : forall s, In s lines -> m <= leadingSpaces s).
  { intros s Hs. destruct block as [|c b]; [destruct Hs|].
    assert (Hne : map leadingSpaces lines <> []) by (simpl; discriminate).
    destruct (least_spec _ Hne) as [_ Hall]. apply Hall.
    apply in_map. exact Hs. }
  split.
  - unfold getDescription. simpl.
    rewrite collectComments_chain.
    + simpl.
      assert (E : commentLines (rev block) = rev lines)
        by (unfold lines, commentLines; apply map_rev).
      rewrite E, rev_involutive, map_rev.
      destruct block as [|c b] eqn:Eb; [reflexivity|].
      rewrite loop_minimum; [reflexivity | simpl; discriminate].
    + apply block_chain; assumption.
    + intros p Hp'. rewrite last_rev_hd. apply Hstop. exact Hp'.
  - apply Forall_forall. intros s Hs. apply strip_spaces. apply Hmin. exact Hs.
Qed.

(** Three comment lines right above a field, a blank line after an earlier
    comment: the three lines, without their two common leading spaces. *)
Lemma getDescription_comment_block_witness :
  let comment (n : nat) (s : string) := mkToken COMMENT n (Some s) in
  let field := mkToken NAME 7 (Some "f") in
  let block := [comment 4 "    a"; comment 5 "  b"; comment 6 "   c"] in
  let rest := [comment 2 " unrelated"; mkToken PUNCTUATOR 1 None;
               mkToken SOF 0 None] in
  getDescription (Some (mkLocation field (rev block ++ rest)))
  = Some (String.concat newline ["  a"; "b"; " c"]).
Proof.
  intros comment field block rest.
  refine (proj1 (getDescription_comment_block field block rest _ _ _ _)).
  - repeat constructor.
  - simpl. repeat split.
  - intros _. exists (comment 2 " unrelated"). split; [reflexivity|].
    simpl. discriminate.
  - intros p Hp. injection Hp as <-. reflexivity.
Defined.

(** C10. [getDescription] returns null exactly when the node has no source
    location; with a location and no comment that the loop takes just before
    the node, it returns the empty string. *)
Theorem getDescription_absent :
  forall (loc : option Location),
    (getDescription loc = None <-> loc = None)
    /\ (forall l, loc = Some l -> hasDescriptionComment l = false ->
                  getDescription loc = Some EmptyString).
Proof.
  intros loc. split; [split|].
  - destruct loc as [l|]; [|reflexivity]. unfold getDescription.
    destruct (collectComments _ _ _ _). discriminate.
  - intros ->. reflexivity.
  - intros l -> H. unfold getDescription, hasDescriptionComment in *.
    destruct (prevTokens l) as [|t rest]; simpl; [reflexivity|].
    rewrite H. reflexivity.
Qed.

(** A field on line 3 under a brace on line 2: a location, no comment. *)
Lemma getDescription_absent_witness :
  let l := mkLocation (mkToken NAME 3 (Some "f"))
             [mkToken PUNCTUATOR 2 None; mkToken SOF 0 None] in
  getDescription (Some l) = Some EmptyString
  /\ getDescription None = None.
Proof.
  intros l. split.
  - exact (proj2 (getDescription_absent (Some l)) l eq_refl eq_refl).
  - exact (proj2 (proj1 (getDescription_absent None)) eq_refl).
Defined.

End Description.

(* ------------------------------------------------------------------ *)
(** ** Wrappers *)

Section Wrappers.

Lemma buildWrappedType_wrap (innerType : GraphQLType) :
  is_GraphQLNonNull innerType = false ->
  forall typeNode : TypeNode,
    noNonNullInNonNull typeNode = true ->
    buildWrappedType innerType typeNode
    = inr (wrap (modifiersOf typeNode) innerType).
Proof.
  intros Hinner. induction typeNode as [n|t IH|t IH]; intros H; simpl in *.
  - reflexivity.
  - rewrite (IH H). reflexivity.
  - destruct t as [n|t'|t']; try discriminate; rewrite (IH H); simpl.
    + rewrite Hinner. reflexivity.
    + reflexivity.
Qed.

Lemma wrappersOf_wrap (t : GraphQLNamedType) :
  forall modifiers : list Modifier,
    wrappersOf (wrap modifiers (Named t)) = modifiers
    /\ getNamedType (wrap modifiers (Named t)) = t.
Proof.
  induction modifiers as [|[|] ms [IH1 IH2]]; simpl; split; congruence.
Qed.

Lemma toTypeNode_wrap (t : GraphQLNamedType) :
  forall typeNode : TypeNode,
    toTypeNode (getNamedTypeNode typeNode) (wrap (modifiersOf typeNode) (Named t))
    = typeNode.
Proof.
  induction typeNode as [n|ty IH|ty IH]; simpl; congruence.
Qed.

(** C8. A type reference with no non-null directly inside a non-null, of
    any depth, whose innermost name the registry resolves to [found] (the
    fallback [d] standing in for a null result), produces exactly the
    modifiers of the reference, in their order, around that named type; the
    wrappers, the named type and the reference itself can be read back from
    the produced type. *)
Theorem produceType_wrappers :
  forall (resolve : string -> ASTNode -> M (option GraphQLNamedType))
         (typeNode : TypeNode) (d : GraphQLNamedType)
         (st st' : State) (found : option GraphQLNamedType),
    noNonNullInNonNull typeNode = true ->
    resolve (name_value (nt_name (getNamedTypeNode typeNode)))
            (TypeRef (getNamedTypeNode typeNode)) st = Ok found st' ->
    let inner := match found with Some t => t | None => d end in
    let produced := wrap (modifiersOf typeNode) (Named inner) in
    produceType resolve typeNode (Named d) st = Ok produced st'
    /\ wrappersOf produced = modifiersOf typeNode
    /\ getNamedType produced = inner
    /\ toTypeNode (getNamedTypeNode typeNode) produced = typeNode.
Proof.
  intros resolve typeNode d st st' found Hwf Hres inner produced.
  split; [|split; [|split]].
  - unfold produceType, bind. rewrite Hres.
    replace (match found with Some t => Named t | None => Named d end)
      with (Named inner) by (destruct found; reflexivity).
    rewrite buildWrappedType_wrap by (reflexivity || assumption).
    reflexivity.
  - apply wrappersOf_wrap.
  - apply wrappersOf_wrap.
  - apply toTypeNode_wrap.
Qed.

(** [[Int!]!], three modifiers deep, resolved in an empty document. *)
Lemma produceType_wrappers_witness :
  let typeNode := NonNullType (ListType (NonNullType (Samples.ref "Int"))) in
  let resolve := typeDefNamed literalArgumentValues [] 0 in
  produceType resolve typeNode (Named (Placeholder outputType)) initialState
  = Ok (GraphQLNonNull (GraphQLList (GraphQLNonNull (Named (Specified "Int")))))
       initialState.
Proof.
  intros typeNode resolve.
  exact (proj1 (produceType_wrappers resolve typeNode (Placeholder outputType)
                  initialState initialState (Some (Specified "Int"))
                  eq_refl eq_refl)).
Defined.

End Wrappers.

(* ------------------------------------------------------------------ *)
(** ** The build on three documents *)

Section Evaluation.

Import Samples.

Variable getArgumentValues :
  GraphQLDirective -> DirectiveNode -> Exn + list (string * Value).

(** C1. On [schema { query: Missing }], a document whose schema block names
    a type that has no definition, the build throws whatever the fuel:
    [nodeMap["Missing"]] is undefined and [getObjectType] reads its [name]. *)
Theorem buildASTSchema_missing_root_throws :
  forall fuel : nat,
    buildASTSchema getArgumentValues fuel (Some (Document missingRoot))
    = Throw (TypeError "Cannot read property 'name' of undefined").
Proof.
  intros fuel. reflexivity.
Qed.

(** While neither union is in [innerTypeMap], resolving one asks for the
    other, at every depth. *)
Lemma typeDefNamed_cyclic :
  forall (fuel : nat) (st : State) (node : ASTNode),
    lookup "A" (innerTypeMap st) = None ->
    lookup "B" (innerTypeMap st) = None ->
    typeDefNamed getArgumentValues cyclicNodeMap fuel "A" node st = OutOfFuel
    /\ typeDefNamed getArgumentValues cyclicNodeMap fuel "B" node st = OutOfFuel.
Proof.
  induction fuel as [|f IH]; intros st node HA HB.
  - split; unfold typeDefNamed, innerTypeMap_get; simpl; rewrite ?HA, ?HB;
      reflexivity.
  - split.
    + cbn [typeDefNamed]. unfold innerTypeMap_get. simpl mem. rewrite HA.
      cbv iota.
      change (lookup "A" cyclicNodeMap) with (Some (union "A" ["B"])).
      cbv iota.
      unfold bind, makeSchemaDef, union, makeUnionDef, bind. cbn [map mapM].
      unfold bind, produceObjectType, produceChecked, bind, produceType, bind.
      cbn [getNamedTypeNode named nt_name nm name_value].
      rewrite (proj2 (IH st _ HA HB)). reflexivity.
    + cbn [typeDefNamed]. unfold innerTypeMap_get. simpl mem. rewrite HB.
      cbv iota.
      change (lookup "B" cyclicNodeMap) with (Some (union "B" ["A"])).
      cbv iota.
      unfold bind, makeSchemaDef, union, makeUnionDef, bind. cbn [map mapM].
      unfold bind, produceObjectType, produceChecked, bind, produceType, bind.
      cbn [getNamedTypeNode named nt_name nm name_value].
      rewrite (proj1 (IH st _ HA HB)). reflexivity.
Qed.

(** C2. On [type Query { a: Int }  union A = B  union B = A] no amount of
    fuel lets the build return: [typeDefNamed] enters [makeUnionDef] for [A],
    which resolves [B] before [A] is in [innerTypeMap], and so on. *)
Theorem buildASTSchema_cyclic_unions_diverge :
  forall fuel : nat,
    buildASTSchema getArgumentValues fuel (Some (Document cyclicUnions))
    = OutOfFuel.
Proof.
  intros [|f]; [reflexivity|].
  unfold buildASTSchema, buildFromDefinitions.
  change (nodeMap (scanDefinitions cyclicUnions)) with cyclicNodeMap.
  set (s := scanDefinitions cyclicUnions).
  change (typeDefs s)
    with [object "Query" [field "a" "Int"]; union "A" ["B"]; union "B" ["A"]].
  cbn [mapM]. unfold bind at 1. unfold bind at 1.
  match goal with
  | |- context [typeDefNamed getArgumentValues cyclicNodeMap (S f) ?n ?nd ?st] =>
      let r := eval vm_compute in
                 (typeDefNamed getArgumentValues cyclicNodeMap (S f) n nd st) in
      change (typeDefNamed getArgumentValues cyclicNodeMap (S f) n nd st) with r
  end.
  cbv iota beta. unfold bind at 1. unfold bind at 1.
  cbn [name_value def_name union object nm].
  match goal with
  | |- context [typeDefNamed getArgumentValues cyclicNodeMap (S f) "A" ?nd ?st] =>
      rewrite (proj1 (typeDefNamed_cyclic (S f) st nd eq_refl eq_refl))
  end.
  reflexivity.
Qed.

(** Unions that refer to one another without a cycle build, with fuel for
    the two [makeUnionDef] inside one another. *)
Lemma buildASTSchema_chained_unions :
  exists (cfg : SchemaConfig) (st : State),
    buildASTSchema literalArgumentValues 2 (Some (Document chainedUnions))
    = Ok cfg st
    /\ types cfg = [Instance 0; Instance 2; Instance 1; Specified "String";
                    Specified "Int"; Specified "Float"; Specified "Boolean";
                    Specified "ID"]
    /\ errors st
       = [newGQLError "Expected Object type." (Some [TypeRef (named "B")])
            SEVERITY_error].
Proof.
  eexists. eexists. split; [vm_compute; reflexivity|].
  split; reflexivity.
Qed.

(** C6. On [type Query { a: Int }  union U = toString], where [toString]
    has no definition and is no specified type, the member of [U] is the
    property that [innerTypeMap] inherits from [Object.prototype]: no
    placeholder, and the one diagnostic is not a "not found". *)
Theorem buildASTSchema_inherited_name :
  exists (cfg : SchemaConfig) (st : State) (def : TypeDefinitionNode),
    buildASTSchema getArgumentValues 1 (Some (Document inheritedName))
    = Ok cfg st
    /\ nth_error (heap st) 1
       = Some (GraphQLUnionType "U" def None [Named (Inherited "toString")])
    /\ errors st
       = [newGQLError "Expected Object type." (Some [TypeRef (named "toString")])
            SEVERITY_error].
Proof.
  eexists. eexists. eexists. split; [vm_compute; reflexivity|].
  split; reflexivity.
Qed.

End Evaluation.

(* ------------------------------------------------------------------ *)
(** ** Maps and strings *)

Section Maps.

Context {V : Type}.

Lemma lookup_assign_same (k : string) (v : V) :
  forall m : list (string * V), lookup k (assign k v m) = Some v.
Proof.
  induction m as [|[k' w] m IH]; simpl.
  - rewrite String.eqb_refl. reflexivity.
  - destruct (String.eqb k k') eqn:E; simpl; rewrite E; [reflexivity | exact IH].
Qed.

Lemma lookup_assign_other (k k' : string) (v : V) :
  k' <> k ->
  forall m : list (string * V), lookup k' (assign k v m) = lookup k' m.
Proof.
  intros Hne. induction m as [|[k0 w] m IH]; simpl.
  - apply String.eqb_neq in Hne. rewrite Hne. reflexivity.
  - destruct (String.eqb k k0) eqn:E; simpl.
    + apply String.eqb_eq in E. subst k0.
      apply String.eqb_neq in Hne. rewrite Hne. reflexivity.
    + rewrite IH. reflexivity.
Qed.

Lemma lookup_not_in (k : string) :
  forall m : list (string * V), lookup k m = None <-> ~ In k (map fst m).
Proof.
  induction m as [|[k' w] m IH]; simpl.
  - tauto.
  - destruct (String.eqb k k') eqn:E.
    + apply String.eqb_eq in E. split; [discriminate | intros H; exfalso; auto].
    + apply String.eqb_neq in E. rewrite IH. split.
      * intros H [H'|H']; [congruence | contradiction].
      * intros H H'. apply H. right. exact H'.
Qed.

Lemma keys_assign (k : string) (v : V) :
  forall m : list (string * V),
    map fst (assign k v m)
    = match lookup k m with
      | Some _ => map fst m
      | None => map fst m ++ [k]
      end.
Proof.
  induction m as [|[k' w] m IH]; simpl; [reflexivity|].
  destruct (String.eqb k k') eqn:E; simpl; [reflexivity|].
  rewrite IH. destruct (lookup k m); reflexivity.
Qed.

Lemma NoDup_assign (k : string) (v : V) (m : list (string * V)) :
  NoDup (map fst m) -> NoDup (map fst (assign k v m)).
Proof.
  intros H. rewrite keys_assign. destruct (lookup k m) eqn:E; [exact H|].
  apply lookup_not_in in E.
  apply NoDup_rev in H. rewrite <- (rev_involutive (map fst m ++ [k])).
  apply NoDup_rev. rewrite rev_app_distr. simpl. constructor; [|exact H].
  rewrite <- in_rev. exact E.
Qed.

End Maps.

Lemma length_append (a b : string) :
  String.length (a ++ b)%string = String.length a + String.length b.
Proof.
  induction a as [|c a IH]; simpl; [reflexivity | rewrite IH; reflexivity].
Qed.

Lemma append_inv_tail (s : string) :
  forall a b : string, (a ++ s)%string = (b ++ s)%string -> a = b.
Proof.
  induction a as [|c a IH]; intros [|c' b] H; simpl in H.
  - reflexivity.
  - apply (f_equal String.length) in H. simpl in H. rewrite length_append in H. lia.
  - apply (f_equal String.length) in H. simpl in H. rewrite length_append in H. lia.
  - injection H as -> H. f_equal. apply IH. exact H.
Qed.

Lemma msg_multipleTypes_inj (a b : string) :
  msg_multipleTypes a = msg_multipleTypes b -> a = b.
Proof.
  unfold msg_multipleTypes, dquote. simpl. intros H.
  repeat match type of H with String _ _ = String _ _ => injection H as H end.
  apply append_inv_tail in H. exact H.
Qed.

(* ------------------------------------------------------------------ *)
(** ** What the scan of the definitions leaves *)

Section ScanProperties.

Lemma lastOf_snoc (A : Type) (l : list A) (x : A) : lastOf (l ++ [x]) = Some x.
Proof. unfold lastOf. rewrite rev_app_distr. reflexivity. Qed.

Lemma consecutivePairs_snoc (A : Type) (x : A) :
  forall l : list A,
    consecutivePairs (l ++ [x])
    = consecutivePairs l
      ++ match lastOf l with Some y => [(y, x)] | None => [] end.
Proof.
  induction l as [|a l IH]; [reflexivity|].
  destruct l as [|b l].
  - reflexivity.
  - change (consecutivePairs ((a :: b :: l) ++ [x]))
      with ((a, b) :: consecutivePairs ((b :: l) ++ [x])).
    rewrite IH. simpl consecutivePairs at 2.
    replace (lastOf (a :: b :: l)) with (lastOf (b :: l)); [reflexivity|].
    unfold lastOf. simpl. destruct (rev l ++ [b]) eqn:E; [|reflexivity].
    destruct (rev l); discriminate.
Qed.

Lemma scanDefinitions_snoc (definitions : list DefinitionNode) (d : DefinitionNode) :
  scanDefinitions (definitions ++ [d])
  = scanDefinition (scanDefinitions definitions) d.
Proof. unfold scanDefinitions. rewrite fold_left_app. reflexivity. Qed.

Lemma schemaBlocks_snoc (definitions : list DefinitionNode) (d : DefinitionNode) :
  schemaBlocks (definitions ++ [d])
  = schemaBlocks definitions
    ++ match d with SchemaDefinition b => [b] | _ => [] end.
Proof.
  induction definitions as [|a l IH]; simpl.
  - destruct d; reflexivity.
  - destruct a; simpl; rewrite IH; reflexivity.
Qed.

Lemma typeDefinitions_snoc (definitions : list DefinitionNode) (d : DefinitionNode) :
  typeDefinitions (definitions ++ [d])
  = typeDefinitions definitions
    ++ match d with TypeDefinition t => [t] | _ => [] end.
Proof.
  induction definitions as [|a l IH]; simpl.
  - destruct d; reflexivity.
  - destruct a; simpl; rewrite IH; reflexivity.
Qed.

Lemma directiveDefinitions_snoc (definitions : list DefinitionNode) (d : DefinitionNode) :
  directiveDefinitions (definitions ++ [d])
  = directiveDefinitions definitions
    ++ match d with DirectiveDefinition t => [t] | _ => [] end.
Proof.
  induction definitions as [|a l IH]; simpl.
  - destruct d; reflexivity.
  - destruct a; simpl; rewrite IH; reflexivity.
Qed.

(** [schemaDef] is the last schema block seen, [errors] holds one
    diagnostic for each block after the first, with the block before it. *)
Lemma scan_schema (definitions : list DefinitionNode) :
  schemaDef (scanDefinitions definitions) = lastOf (schemaBlocks definitions)
  /\ scanErrors (scanDefinitions definitions)
     = map onlyOneSchemaError (consecutivePairs (schemaBlocks definitions)).
Proof.
  induction definitions as [|d l [IH1 IH2]] using rev_ind; [split; reflexivity|].
  rewrite scanDefinitions_snoc, schemaBlocks_snoc.
  destruct d as [b|t|dd|k]; simpl; rewrite ?app_nil_r; try (split; assumption).
  rewrite lastOf_snoc, consecutivePairs_snoc, map_app, IH1, IH2.
  split; [reflexivity|].
  destruct (lastOf (schemaBlocks l)); simpl; rewrite ?app_nil_r; reflexivity.
Qed.

Lemma scan_directiveDefs (definitions : list DefinitionNode) :
  directiveDefs (scanDefinitions definitions) = directiveDefinitions definitions.
Proof.
  induction definitions as [|d l IH] using rev_ind; [reflexivity|].
  rewrite scanDefinitions_snoc, directiveDefinitions_snoc.
  destruct d as [b|t|dd|k]; simpl; rewrite ?app_nil_r; congruence.
Qed.

Lemma definitionsNamed_snoc (name : string) (definitions : list DefinitionNode)
    (d : DefinitionNode) :
  definitionsNamed name (definitions ++ [d])
  = definitionsNamed name definitions
    ++ match d with
       | TypeDefinition t =>
           if String.eqb (name_value (def_name t)) name then [t] else []
       | _ => []
       end.
Proof.
  unfold definitionsNamed. rewrite typeDefinitions_snoc, filter_app.
  destruct d; reflexivity.
Qed.

(** [nodeMap] holds the first definition of each name. *)
Lemma scan_nodeMap (name : string) (definitions : list DefinitionNode) :
  lookup name (nodeMap (scanDefinitions definitions))
  = hd_error (definitionsNamed name definitions).
Proof.
  induction definitions as [|d l IH] using rev_ind; [reflexivity|].
  rewrite scanDefinitions_snoc, definitionsNamed_snoc.
  destruct d as [b|t|dd|k]; simpl; rewrite ?app_nil_r; try exact IH.
  destruct (lookup (name_value (def_name t)) (nodeMap (scanDefinitions l))) eqn:E.
  - rewrite IH. destruct (definitionsNamed name l); [|reflexivity].
    destruct (String.eqb (name_value (def_name t)) name) eqn:En; [|reflexivity].
    apply String.eqb_eq in En. subst name. rewrite IH in E. discriminate.
  - destruct (String.eqb (name_value (def_name t)) name) eqn:En.
    + apply String.eqb_eq in En. subst name. rewrite lookup_assign_same.
      rewrite IH in E. destruct (definitionsNamed _ l); [reflexivity|discriminate].
    + apply String.eqb_neq in En. rewrite lookup_assign_other by congruence.
      rewrite IH, app_nil_r. reflexivity.
Qed.

(** A key of [nodeMap] is the name of its definition. *)
Lemma scan_nodeMap_keys (definitions : list DefinitionNode) :
  forall (k : string) (d : TypeDefinitionNode),
    lookup k (nodeMap (scanDefinitions definitions)) = Some d ->
    name_value (def_name d) = k.
Proof.
  intros k d H. rewrite scan_nodeMap in H. unfold definitionsNamed in H.
  destruct (filter _ _) as [|d' r] eqn:E; [discriminate|].
  injection H as ->.
  assert (Hin : In d (filter (fun d0 => String.eqb (name_value (def_name d0)) k)
                        (typeDefinitions definitions)))
    by (rewrite E; left; reflexivity).
  apply filter_In in Hin. apply String.eqb_eq. exact (proj2 Hin).
Qed.

(** [nodeMapWithAllReferences] holds every definition of each name, in
    document order, each name once. *)
Lemma scan_allReferences (definitions : list DefinitionNode) :
  NoDup (map fst (nodeMapWithAllReferences (scanDefinitions definitions)))
  /\ forall name : string,
       lookup name (nodeMapWithAllReferences (scanDefinitions definitions))
       = match definitionsNamed name definitions with
         | [] => None
         | defs => Some defs
         end.
Proof.
  induction definitions as [|d l [IHn IH]] using rev_ind.
  - split; [constructor | reflexivity].
  - rewrite scanDefinitions_snoc.
    destruct d as [b|t|dd|k]; simpl;
      try (split; [exact IHn|]; intros name; rewrite definitionsNamed_snoc,
           app_nil_r; apply IH).
    set (n := name_value (def_name t)).
    split.
    + destruct (lookup n _); apply NoDup_assign; exact IHn.
    + intros name. rewrite definitionsNamed_snoc. fold n.
      destruct (String.eqb n name) eqn:En.
      * apply String.eqb_eq in En. subst name.
        rewrite (IH n). destruct (definitionsNamed n l) as [|d0 ds];
          rewrite lookup_assign_same; reflexivity.
      * apply String.eqb_neq in En. rewrite app_nil_r.
        destruct (lookup n _); rewrite lookup_assign_other by congruence;
          apply IH.
Qed.

Lemma hasMessage_multipleTypes (a b : string) (ns : option (list ASTNode))
    (sev : Severity) :
  hasMessage (msg_multipleTypes a) (newGQLError (msg_multipleTypes b) ns sev)
  = String.eqb b a.
Proof.
  unfold hasMessage. cbn [message]. destruct (String.eqb b a) eqn:E.
  - apply String.eqb_eq in E. subst. apply String.eqb_refl.
  - apply String.eqb_neq. intros H. apply msg_multipleTypes_inj in H.
    apply String.eqb_neq in E. congruence.
Qed.

(** Among the diagnostics for duplicates, the one for [name]. *)
Lemma duplicateErrors_named (name : string) (defs : list TypeDefinitionNode) :
  forall all : list (string * list TypeDefinitionNode),
    NoDup (map fst all) ->
    lookup name all = Some defs ->
    filter (hasMessage (msg_multipleTypes name)) (duplicateErrors all)
    = if 1 <? List.length defs then [multipleTypesError name defs] else [].
Proof.
  assert (Hnone : forall all : list (string * list TypeDefinitionNode),
             ~ In name (map fst all) ->
             filter (hasMessage (msg_multipleTypes name)) (duplicateErrors all) = []).
  { induction all as [|[k ds] all IH]; intros Hn; [reflexivity|].
    cbn [map fst In] in Hn. cbn [duplicateErrors].
    destruct (1 <? List.length ds); [|apply IH; tauto].
    cbn [filter]. rewrite hasMessage_multipleTypes.
    replace (String.eqb k name) with false; [apply IH; tauto|].
    symmetry. apply String.eqb_neq. tauto. }
  induction all as [|[k ds] all IH]; intros Hnd Hl; [discriminate|].
  cbn [map fst] in Hnd. inversion Hnd as [|? ? Hk Hnd']; subst.
  cbn [lookup] in Hl. cbn [duplicateErrors].
  destruct (String.eqb name k) eqn:E.
  - apply String.eqb_eq in E. subst k. injection Hl as ->.
    destruct (1 <? List.length defs); [|apply Hnone; exact Hk].
    cbn [filter]. rewrite hasMessage_multipleTypes, String.eqb_refl.
    rewrite (Hnone all Hk). reflexivity.
  - rewrite String.eqb_sym in E.
    destruct (1 <? List.length ds); [|apply IH; assumption].
    cbn [filter]. rewrite hasMessage_multipleTypes, E. apply IH; assumption.
Qed.

End ScanProperties.

(* ------------------------------------------------------------------ *)
(** ** What every run of the builders keeps *)

Section Invariants.

Variable getArgumentValues :
  GraphQLDirective -> DirectiveNode -> Exn + list (string * Value).
Variable nodeMap : list (string * TypeDefinitionNode).

Hypothesis nodeMap_keys :
  forall (k : string) (d : TypeDefinitionNode),
    lookup k nodeMap = Some d -> name_value (def_name d) = k.

Local Abbreviation extends := (extends getArgumentValues nodeMap).
Local Abbreviation respects := (respects getArgumentValues nodeMap).
Local Abbreviation sound := (sound getArgumentValues nodeMap).

Lemma extends_refl (st : State) : extends st st.
Proof.
  split; exists []; rewrite app_nil_r; split; constructor.
Qed.

Lemma extends_trans (st1 st2 st3 : State) :
  extends st1 st2 -> extends st2 st3 -> extends st1 st3.
Proof.
  intros [[es1 [E1 F1]] [os1 [O1 G1]]] [[es2 [E2 F2]] [os2 [O2 G2]]].
  split.
  - exists (es1 ++ es2). rewrite E2, E1, app_assoc. split; [reflexivity|].
    apply Forall_app. split; assumption.
  - exists (os1 ++ os2). rewrite O2, O1, app_assoc. split; [reflexivity|].
    apply Forall_app. split; assumption.
Qed.

Lemma respects_ret (A : Type) (a : A) : respects (ret a).
Proof. intros st a' st' H. injection H as _ <-. apply extends_refl. Qed.

Lemma respects_throw (A : Type) (e : Exn) : respects (@throw A e).
Proof. intros st a st' H. discriminate. Qed.

Lemma respects_lift (A : Type) (r : Exn + A) : respects (lift r).
Proof.
  intros st a st' H. unfold lift in H. destruct r; [discriminate|].
  injection H as _ <-. apply extends_refl.
Qed.

Lemma respects_getState : respects getState.
Proof. intros st a st' H. injection H as _ <-. apply extends_refl. Qed.

Lemma bind_inv (A B : Type) (m : M A) (f : A -> M B) (st st' : State) (b : B) :
  bind m f st = Ok b st' ->
  exists a st1, m st = Ok a st1 /\ f a st1 = Ok b st'.
Proof.
  unfold bind. destruct (m st) as [a st1| |]; try discriminate.
  intros H. exists a, st1. split; [reflexivity | exact H].
Qed.

Lemma respects_bind (A B : Type) (m : M A) (f : A -> M B) :
  respects m -> (forall a, respects (f a)) -> respects (bind m f).
Proof.
  intros Hm Hf st b st' H. unfold bind in H.
  destruct (m st) as [a st1| |] eqn:E; try discriminate.
  apply extends_trans with st1; [exact (Hm _ _ _ E) | exact (Hf _ _ _ _ H)].
Qed.

Lemma respects_pushError (e : GQLError) :
  builderMessage (message e) -> respects (pushError e).
Proof.
  intros He st a st' H. injection H as _ <-. split; simpl.
  - exists [e]. split; [reflexivity | constructor; [exact He | constructor]].
  - exists []. rewrite app_nil_r. split; constructor.
Qed.

Lemma respects_alloc (o : TypeObject) : sound o -> respects (alloc o).
Proof.
  intros Ho st a st' H. injection H as _ <-. split; simpl.
  - exists []. rewrite app_nil_r. split; constructor.
  - exists [o]. split; [reflexivity | constructor; [exact Ho | constructor]].
Qed.

Lemma respects_cache (typeName : string) (addr : nat) :
  respects (cache typeName addr).
Proof.
  intros st a st' H. injection H as _ <-.
  split; exists []; simpl; rewrite app_nil_r; split; constructor.
Qed.

Lemma respects_mapM (A B : Type) (f : A -> M B) :
  (forall x, respects (f x)) -> forall l, respects (mapM f l).
Proof.
  intros Hf. induction l as [|x l IH]; simpl.
  - apply respects_ret.
  - apply respects_bind; [apply Hf|]. intros y.
    apply respects_bind; [exact IH|]. intros ys. apply respects_ret.
Qed.

Lemma respects_keyValMap (A V : Type) (keyFn : A -> string) (valFn : A -> M V) :
  (forall x, respects (valFn x)) ->
  forall items map, respects (keyValMap_from map items keyFn valFn).
Proof.
  intros Hf. induction items as [|x l IH]; intros map; simpl.
  - apply respects_ret.
  - apply respects_bind; [apply Hf|]. intros v. apply IH.
Qed.

(** The values of the map that [keyValMap] returns are values that [valFn]
    returned. *)
Lemma Forall_assign (V : Type) (P : V -> Prop) (k : string) (v : V) :
  P v ->
  forall map : list (string * V),
    Forall (fun kv => P (snd kv)) map ->
    Forall (fun kv => P (snd kv)) (assign k v map).
Proof.
  intros Hv. induction map as [|[k' w] map IH]; intros H; simpl.
  - constructor; [exact Hv | constructor].
  - inversion H; subst. destruct (String.eqb k k'); constructor; auto.
Qed.

Lemma keyValMap_values (A V : Type) (P : V -> Prop) (keyFn : A -> string)
    (valFn : A -> M V) :
  (forall x st v st', valFn x st = Ok v st' -> P v) ->
  forall items map st res st',
    Forall (fun kv => P (snd kv)) map ->
    keyValMap_from map items keyFn valFn st = Ok res st' ->
    Forall (fun kv => P (snd kv)) res.
Proof.
  intros Hf. induction items as [|x l IH]; intros map st res st' Hmap H;
    simpl in H.
  - injection H as <- _. exact Hmap.
  - unfold bind in H. destruct (valFn x st) as [v st1| |] eqn:E; try discriminate.
    eapply IH; [|exact H]. apply Forall_assign; [|exact Hmap].
    exact (Hf _ _ _ _ E).
Qed.

Section WithResolver.

Variable resolve : string -> ASTNode -> M (option GraphQLNamedType).
Hypothesis resolve_respects : forall n node, respects (resolve n node).

Lemma respects_produceType (typeNode : TypeNode) (defaultValue : GraphQLType) :
  respects (produceType resolve typeNode defaultValue).
Proof.
  unfold produceType. apply respects_bind; [apply resolve_respects|].
  intros found. apply respects_lift.
Qed.

Lemma respects_produceChecked (slot : PlaceholderSlot)
    (test : State -> GraphQLType -> bool) (expected : string)
    (typeNode : TypeNode) :
  builderMessage expected ->
  respects (produceChecked resolve slot test expected typeNode).
Proof.
  intros He. unfold produceChecked.
  apply respects_bind; [apply respects_produceType|]. intros type.
  apply respects_bind; [apply respects_getState|]. intros st.
  apply respects_bind; [|intros; apply respects_ret].
  destruct (test st type); [apply respects_ret|].
  apply respects_pushError. exact He.
Qed.

Lemma respects_makeInputValues (values : list InputValueDefinitionNode) :
  respects (makeInputValues resolve values).
Proof.
  unfold makeInputValues, keyValMap. apply respects_keyValMap. intros value.
  apply respects_bind; [|intros; apply respects_ret].
  apply respects_produceChecked. constructor.
Qed.

Lemma respects_makeFieldDefMap (def : TypeDefinitionNode) :
  respects (makeFieldDefMap getArgumentValues resolve def).
Proof.
  assert (H : forall fields,
             respects (keyValMap fields
               (fun field => name_value (fd_name field))
               (fun field =>
                  type <- produceOutputType resolve (fd_type field) ;;
                  let description := getDescription (fd_loc field) in
                  args <- makeInputValues resolve (fd_arguments field) ;;
                  deprecationReason <-
                    lift (getDeprecationReason getArgumentValues
                            (fd_directives field)) ;;
                  ret (mkFieldConfig type field description args
                         deprecationReason)))).
  { intros fields. apply respects_keyValMap. intros field.
    apply respects_bind; [apply respects_produceChecked; constructor|].
    intros type. apply respects_bind; [apply respects_makeInputValues|].
    intros args. apply respects_bind; [apply respects_lift|].
    intros; apply respects_ret. }
  destruct def; simpl; try apply respects_throw; apply H.
Qed.

Lemma respects_makeImplementedInterfaces (def : TypeDefinitionNode) :
  respects (makeImplementedInterfaces resolve def).
Proof.
  destruct def as [| ? [interfaces|] ? ? | | | |]; simpl;
    try apply respects_ret.
  apply respects_bind; [|intros; apply respects_ret].
  apply respects_mapM. intros iface. apply respects_produceChecked. constructor.
Qed.

Lemma respects_makeSchemaDef (def : TypeDefinitionNode) :
  lookup (name_value (def_name def)) nodeMap = Some def ->
  respects (makeSchemaDef getArgumentValues resolve def).
Proof.
  intros Hdef.
  destruct def as [n l|n i f l|n f l|n t l|n v l|n f l]; simpl;
    try (apply respects_alloc; split; [exact Hdef | exact I]).
  - unfold makeUnionDef.
    apply respects_bind.
    + apply respects_mapM. intros t0. apply respects_produceChecked. constructor.
    + intros types. apply respects_alloc. split; [exact Hdef | exact I].
  - unfold makeEnumDef. intros st a st' H.
    apply bind_inv in H. destruct H as [values [st1 [E H]]].
    apply extends_trans with st1.
    + revert E. apply respects_keyValMap. intros x.
      apply respects_bind; [apply respects_lift | intros; apply respects_ret].
    + revert H. apply respects_alloc. split; [exact Hdef|].
      unfold keyValMap in E.
      eapply keyValMap_values with (P := valueReason getArgumentValues); [| |exact E].
      * intros x s v0 s' Hx. apply bind_inv in Hx.
        destruct Hx as [reason [s1 [R Hx]]]. injection Hx as <- _.
        unfold lift in R.
        destruct (getDeprecationReason _ _) as [e|reason'] eqn:R';
          [discriminate|].
        injection R as -> _. exact R'.
      * constructor.
Qed.

Lemma respects_getDirective (directiveNode : DirectiveDefinitionNode) :
  respects (getDirective resolve directiveNode).
Proof.
  unfold getDirective. apply respects_bind; [|intros; apply respects_ret].
  destruct (dd_arguments directiveNode); [|apply respects_ret].
  apply respects_bind; [apply respects_makeInputValues|].
  intros; apply respects_ret.
Qed.

Lemma respects_getObjectType (typeNode : option TypeDefinitionNode) :
  respects (getObjectType resolve typeNode).
Proof.
  destruct typeNode as [node|]; simpl; [|apply respects_throw].
  apply respects_bind; [apply resolve_respects|]. intros type.
  apply respects_bind; [apply respects_getState|]. intros st.
  apply respects_bind; [|intros; apply respects_ret].
  match goal with |- respects (if ?c then _ else _) => destruct c end;
    [apply respects_ret | apply respects_pushError; constructor].
Qed.

End WithResolver.

Lemma respects_typeDefNamed :
  forall (fuel : nat) (typeName : string) (node : ASTNode),
    respects (typeDefNamed getArgumentValues nodeMap fuel typeName node).
Proof.
  induction fuel as [|fuel IH]; intros typeName node st r st' H;
    cbn [typeDefNamed] in H;
    destruct (innerTypeMap_get st typeName) as [t|];
    try (injection H as _ <-; apply extends_refl);
    destruct (lookup typeName nodeMap) as [def|] eqn:L;
    try discriminate;
    try (revert H; apply respects_bind;
         [apply respects_pushError; constructor | intros; apply respects_ret]).
  revert H. apply respects_bind.
  - apply respects_makeSchemaDef; [exact IH|].
    rewrite (nodeMap_keys _ _ L). exact L.
  - intros addr. apply respects_bind; [apply respects_cache|].
    intros; apply respects_ret.
Qed.

End Invariants.

(* ------------------------------------------------------------------ *)
(** ** The build as a whole *)

Section BuildProperties.

Variable getArgumentValues :
  GraphQLDirective -> DirectiveNode -> Exn + list (string * Value).

Lemma mapM_Forall2 (A B : Type) (R : A -> B -> Prop) (f : A -> M B) :
  (forall x st y st', f x st = Ok y st' -> R x y) ->
  forall l st ys st', mapM f l st = Ok ys st' -> Forall2 R l ys.
Proof.
  intros Hf. induction l as [|x l IH]; intros st ys st' H; simpl in H.
  - injection H as <- _. constructor.
  - apply bind_inv in H. destruct H as [y [st1 [Hy H]]].
    apply bind_inv in H. destruct H as [ys' [st2 [Hys H]]].
    injection H as <- _. constructor; [exact (Hf _ _ _ _ Hy) | exact (IH _ _ _ Hys)].
Qed.

Lemma getDirective_madeFrom (resolve : string -> ASTNode -> M (option GraphQLNamedType))
    (directiveNode : DirectiveDefinitionNode) (st st' : State) (d : GraphQLDirective) :
  getDirective resolve directiveNode st = Ok d st' -> madeFrom directiveNode d.
Proof.
  unfold getDirective. intros H. apply bind_inv in H.
  destruct H as [args [st1 [_ H]]]. injection H as <- _.
  eexists. eexists. eexists. reflexivity.
Qed.

(** What a build that returns has done: from the diagnostics of the scan
    on, the builders pushed diagnostics and made sound objects; the
    directives are those of the definitions and the specified ones. *)
Lemma build_extends (fuel : nat) (definitions : list DefinitionNode)
    (cfg : SchemaConfig) (st : State) :
  buildFromDefinitions getArgumentValues fuel definitions = Ok cfg st ->
  let nm := nodeMap (scanDefinitions definitions) in
  extends getArgumentValues nm (mkState (initialErrors definitions) [] []) st
  /\ cfg_nodeMap cfg = nm
  /\ exists explicit,
       directives cfg = addSpecifiedDirectives explicit
       /\ Forall2 madeFrom (directiveDefinitions definitions) explicit.
Proof.
  intros H nm. unfold buildFromDefinitions in H.
  set (s := scanDefinitions definitions) in *.
  set (resolve := typeDefNamed getArgumentValues (nodeMap s) fuel) in *.
  assert (Hres : forall n node, respects getArgumentValues nm (resolve n node)).
  { intros n node. apply respects_typeDefNamed. apply scan_nodeMap_keys. }
  assert (Hroot : forall name,
             respects getArgumentValues nm (rootType resolve (nodeMap s) name)).
  { intros [typeName|]; [|apply respects_ret]. unfold rootType.
    destruct (truthy (Some typeName)); [|apply respects_ret].
    apply respects_getObjectType. exact Hres. }
  match type of H with
  | _ ?st0 = _ =>
      replace st0 with (mkState (initialErrors definitions) [] []) in H
  end.
  2:{ unfold initialErrors, scanDiagnostics. fold s.
      destruct (truthy (queryTypeName (rootNames s))); reflexivity. }
  apply bind_inv in H. destruct H as [found [st1 [H1 H]]].
  apply bind_inv in H. destruct H as [explicit [st2 [H2 H]]].
  apply bind_inv in H. destruct H as [q [st3 [H3 H]]].
  apply bind_inv in H. destruct H as [m [st4 [H4 H]]].
  apply bind_inv in H. destruct H as [sb [st5 [H5 H]]].
  injection H as <- <-. split; [|split].
  - apply extends_trans with st1.
    { revert H1. apply respects_mapM. intros def. apply Hres. }
    apply extends_trans with st2.
    { revert H2. apply respects_mapM. intros d. apply respects_getDirective.
      exact Hres. }
    apply extends_trans with st3; [exact (Hroot _ _ _ _ H3)|].
    apply extends_trans with st4; [exact (Hroot _ _ _ _ H4)|].
    exact (Hroot _ _ _ _ H5).
  - reflexivity.
  - exists explicit. split; [reflexivity|].
    unfold s in H2. rewrite scan_directiveDefs in H2.
    revert H2. apply mapM_Forall2. intros x s0 y s1.
    apply getDirective_madeFrom.
Qed.

End BuildProperties.

(* ------------------------------------------------------------------ *)
(** ** The diagnostics of the scan in the result *)

Section ScanDiagnostics.

Lemma filter_none (A : Type) (p : A -> bool) (l : list A) :
  Forall (fun x => p x = false) l -> filter p l = [].
Proof.
  induction 1 as [|x l Hx _ IH]; simpl; [reflexivity|]. rewrite Hx. exact IH.
Qed.

Lemma filter_all (A : Type) (p : A -> bool) (l : list A) :
  Forall (fun x => p x = true) l -> filter p l = l.
Proof.
  induction 1 as [|x l Hx _ IH]; simpl; [reflexivity|]. rewrite Hx, IH.
  reflexivity.
Qed.

Lemma builderMessage_not_onlyOne (m : string) :
  builderMessage m -> String.eqb m msg_onlyOneSchema = false.
Proof. intros []; reflexivity. Qed.

Lemma builderMessage_not_multiple (m name : string) :
  builderMessage m -> String.eqb m (msg_multipleTypes name) = false.
Proof. intros []; reflexivity. Qed.

Lemma duplicateErrors_not_onlyOne (all : list (string * list TypeDefinitionNode)) :
  Forall (fun e => hasMessage msg_onlyOneSchema e = false) (duplicateErrors all).
Proof.
  induction all as [|[k ds] all IH]; simpl; [constructor|].
  destruct (1 <? List.length ds); [constructor|]; trivial.
Qed.

Lemma builders_not_onlyOne (es : list GQLError) :
  Forall (fun e => builderMessage (message e)) es ->
  Forall (fun e => hasMessage msg_onlyOneSchema e = false) es.
Proof.
  apply Forall_impl. intros e. apply builderMessage_not_onlyOne.
Qed.

Lemma builders_not_multiple (name : string) (es : list GQLError) :
  Forall (fun e => builderMessage (message e)) es ->
  Forall (fun e => hasMessage (msg_multipleTypes name) e = false) es.
Proof.
  apply Forall_impl. intros e. apply builderMessage_not_multiple.
Qed.

Lemma length_consecutivePairs (A : Type) (l : list A) :
  List.length (consecutivePairs l) = List.length l - 1.
Proof.
  induction l as [|a [|b l] IH]; try reflexivity.
  change (consecutivePairs (a :: b :: l)) with ((a, b) :: consecutivePairs (b :: l)).
  simpl List.length in *. rewrite IH. lia.
Qed.

(** The diagnostics about schema blocks among those the builders start
    with, and among those a build ends with. *)
Lemma onlyOne_initial (definitions : list DefinitionNode) :
  filter (hasMessage msg_onlyOneSchema) (initialErrors definitions)
  = map onlyOneSchemaError (consecutivePairs (schemaBlocks definitions)).
Proof.
  assert (H : filter (hasMessage msg_onlyOneSchema) (scanDiagnostics definitions)
              = map onlyOneSchemaError (consecutivePairs (schemaBlocks definitions))).
  { unfold scanDiagnostics. rewrite filter_app.
    rewrite (filter_none _ _ _ (duplicateErrors_not_onlyOne _)), app_nil_r.
    rewrite (proj2 (scan_schema definitions)). apply filter_all.
    apply Forall_forall. intros e He. apply in_map_iff in He.
    destruct He as [p [<- _]]. reflexivity. }
  unfold initialErrors. destruct (truthy _); [exact H|].
  rewrite filter_app, H. simpl. apply app_nil_r.
Qed.

Lemma multiple_initial (name : string) (definitions : list DefinitionNode) :
  filter (hasMessage (msg_multipleTypes name)) (initialErrors definitions)
  = filter (hasMessage (msg_multipleTypes name)) (scanDiagnostics definitions).
Proof.
  unfold initialErrors. destruct (truthy _); [reflexivity|].
  rewrite filter_app. simpl. apply app_nil_r.
Qed.

Lemma multiple_scan (name : string) (definitions : list DefinitionNode) :
  2 <= List.length (definitionsNamed name definitions) ->
  filter (hasMessage (msg_multipleTypes name)) (scanDiagnostics definitions)
  = [multipleTypesError name (definitionsNamed name definitions)].
Proof.
  intros Hlen. unfold scanDiagnostics. rewrite filter_app.
  rewrite filter_none.
  2:{ rewrite (proj2 (scan_schema definitions)). apply Forall_forall.
      intros e He. apply in_map_iff in He. destruct He as [p [<- _]].
      reflexivity. }
  destruct (scan_allReferences definitions) as [Hnd Hl]. specialize (Hl name).
  destruct (definitionsNamed name definitions) as [|d ds] eqn:E;
    [simpl in Hlen; lia|].
  rewrite (duplicateErrors_named name (d :: ds) _ Hnd Hl).
  replace (1 <? List.length (d :: ds)) with true; [reflexivity|].
  symmetry. apply Nat.ltb_lt. exact Hlen.
Qed.

Variable getArgumentValues :
  GraphQLDirective -> DirectiveNode -> Exn + list (string * Value).

(** C3, as the code has it.  Every schema block after the first brings one
    diagnostic, which points at the block before it and at the block itself,
    the blocks taken in document order: these are the first diagnostics of
    the scan, [n - 1] of them for [n] blocks, and the only ones with this
    message in the result of a build. *)
Theorem schema_blocks_diagnostics :
  forall (definitions : list DefinitionNode),
    let expected :=
      map onlyOneSchemaError (consecutivePairs (schemaBlocks definitions)) in
    scanErrors (scanDefinitions definitions) = expected
    /\ List.length expected = List.length (schemaBlocks definitions) - 1
    /\ forall fuel cfg st,
         buildFromDefinitions getArgumentValues fuel definitions = Ok cfg st ->
         filter (hasMessage msg_onlyOneSchema) (errors st) = expected.
Proof.
  intros definitions expected. split; [|split].
  - apply scan_schema.
  - unfold expected. rewrite length_map. apply length_consecutivePairs.
  - intros fuel cfg st H.
    destruct (build_extends _ _ _ _ _ H) as [[[es [E F]] _] _]. simpl in E.
    rewrite E, filter_app, onlyOne_initial.
    rewrite (filter_none _ _ _ (builders_not_onlyOne _ F)). apply app_nil_r.
Qed.


End ScanDiagnostics.

(** Three schema blocks: two diagnostics, the second for the second and the
    third block. *)
Lemma schema_blocks_diagnostics_witness :
  filter (hasMessage msg_onlyOneSchema)
    (errorsOf (buildFromDefinitions literalArgumentValues 1 Samples.threeSchemaBlocks))
  = [onlyOneSchemaError (Samples.block1, Samples.block2);
     onlyOneSchemaError (Samples.block2, Samples.block3)].
Proof.
  destruct (buildFromDefinitions literalArgumentValues 1 Samples.threeSchemaBlocks)
    as [cfg st| |] eqn:E; try (vm_compute in E; discriminate).
  exact (proj2 (proj2 (schema_blocks_diagnostics literalArgumentValues
                         Samples.threeSchemaBlocks)) 1 cfg st E).
Defined.

(** With three schema blocks the diagnostics about schema blocks are not
    the single one for the first two blocks. *)
Lemma single_schema_diagnostic_counterexample :
  filter (hasMessage msg_onlyOneSchema)
    (errorsOf (buildASTSchema literalArgumentValues 1
                 (Some (Document Samples.threeSchemaBlocks))))
  <> [onlyOneSchemaError (Samples.block1, Samples.block2)].
Proof.
  vm_compute. discriminate.
Qed.


(* ------------------------------------------------------------------ *)
(** ** Directives and deprecation reasons *)

Section Deprecation.

Variable getArgumentValues :
  GraphQLDirective -> DirectiveNode -> Exn + list (string * Value).

(** [getDeprecationReason] hands the specified directive to
    [getArgumentValues], as the reading of the specification does when the
    document defines no directive. *)
Lemma getDeprecationReason_specified (directives : option (list DirectiveNode)) :
  getDeprecationReason getArgumentValues directives
  = spec_getDeprecationReason getArgumentValues specifiedDirectives directives.
Proof.
  unfold getDeprecationReason, spec_getDeprecationReason.
  destruct directives as [ds|]; [|reflexivity]. simpl.
  destruct (find _ ds); reflexivity.
Qed.

Lemma makeFieldDefMap_reasons
    (resolve : string -> ASTNode -> M (option GraphQLNamedType))
    (def : TypeDefinitionNode) (st st' : State)
    (fields : list (string * FieldConfig)) :
  makeFieldDefMap getArgumentValues resolve def st = Ok fields st' ->
  Forall (fun kv => fieldReason getArgumentValues (snd kv)) fields.
Proof.
  assert (H : forall fs,
             keyValMap fs
               (fun field => name_value (fd_name field))
               (fun field =>
                  type <- produceOutputType resolve (fd_type field) ;;
                  let description := getDescription (fd_loc field) in
                  args <- makeInputValues resolve (fd_arguments field) ;;
                  deprecationReason <-
                    lift (getDeprecationReason getArgumentValues
                            (fd_directives field)) ;;
                  ret (mkFieldConfig type field description args
                         deprecationReason)) st = Ok fields st' ->
             Forall (fun kv => fieldReason getArgumentValues (snd kv)) fields).
  { intros fs E. unfold keyValMap in E.
    eapply keyValMap_values with (P := fieldReason getArgumentValues);
      [| |exact E]; [|constructor].
    intros x s v s' Hx.
    apply bind_inv in Hx. destruct Hx as [type [s1 [_ Hx]]].
    apply bind_inv in Hx. destruct Hx as [args [s2 [_ Hx]]].
    apply bind_inv in Hx. destruct Hx as [reason [s3 [R Hx]]].
    injection Hx as <- _. unfold lift in R.
    destruct (getDeprecationReason _ _) as [e|reason'] eqn:R'; [discriminate|].
    injection R as -> _. exact R'. }
  destruct def; simpl; try discriminate; apply H.
Qed.

Lemma Forall2_In_l (A B : Type) (R : A -> B -> Prop) (l : list A) (l' : list B) :
  Forall2 R l l' -> forall x, In x l -> exists y, In y l' /\ R x y.
Proof.
  induction 1 as [|a b l l' Hab _ IH]; intros x Hx; [destruct Hx|].
  destruct Hx as [<-|Hx].
  - exists b. split; [left; reflexivity | exact Hab].
  - destruct (IH x Hx) as [y [Hy Hr]]. exists y. split; [right; exact Hy | exact Hr].
Qed.

Lemma Forall2_In_r (A B : Type) (R : A -> B -> Prop) (l : list A) (l' : list B) :
  Forall2 R l l' -> forall y, In y l' -> exists x, In x l /\ R x y.
Proof.
  induction 1 as [|a b l l' Hab _ IH]; intros y Hy; [destruct Hy|].
  destruct Hy as [<-|Hy].
  - exists a. split; [left; reflexivity | exact Hab].
  - destruct (IH y Hy) as [x [Hx Hr]]. exists x. split; [right; exact Hx | exact Hr].
Qed.

Lemma hasDirective_app (name : string) (l1 l2 : list GraphQLDirective) :
  hasDirective name (l1 ++ l2) = hasDirective name l1 || hasDirective name l2.
Proof. apply existsb_app. Qed.

(** A directive that the document names "deprecated" keeps the specified
    one out of the directive set. *)
Lemma addSpecifiedDirectives_shadow (explicit : list GraphQLDirective) :
  (forall d, In d explicit -> d <> GraphQLDeprecatedDirective) ->
  hasDirective "deprecated" explicit = true ->
  ~ In GraphQLDeprecatedDirective (addSpecifiedDirectives explicit)
  /\ forall d, In d explicit -> In d (addSpecifiedDirectives explicit).
Proof.
  intros Hnew Hdep. unfold addSpecifiedDirectives.
  set (d1 := if hasDirective "skip" explicit then explicit
             else explicit ++ [GraphQLSkipDirective]).
  set (d2 := if hasDirective "include" d1 then d1
             else d1 ++ [GraphQLIncludeDirective]).
  assert (H1a : forall d, In d explicit -> In d d1).
  { intros d Hd. unfold d1. destruct (hasDirective "skip" explicit);
      [exact Hd | apply in_or_app; left; exact Hd]. }
  assert (H1b : forall d, In d d1 -> In d explicit \/ d = GraphQLSkipDirective).
  { intros d. unfold d1. destruct (hasDirective "skip" explicit); [tauto|].
    intros Hd. apply in_app_or in Hd. destruct Hd as [Hd|[<-|[]]]; tauto. }
  assert (H2a : forall d, In d d1 -> In d d2).
  { intros d Hd. unfold d2. destruct (hasDirective "include" d1);
      [exact Hd | apply in_or_app; left; exact Hd]. }
  assert (H2b : forall d, In d d2 -> In d d1 \/ d = GraphQLIncludeDirective).
  { intros d. unfold d2. destruct (hasDirective "include" d1); [tauto|].
    intros Hd. apply in_app_or in Hd. destruct Hd as [Hd|[<-|[]]]; tauto. }
  assert (Hd2 : hasDirective "deprecated" d2 = true).
  { unfold hasDirective in *. apply existsb_exists in Hdep.
    destruct Hdep as [d [Hin Hn]]. apply existsb_exists. exists d.
    split; [|exact Hn]. apply H2a, H1a. exact Hin. }
  rewrite Hd2. split.
  - intros Hin. apply H2b in Hin. destruct Hin as [Hin|Hin]; [|discriminate].
    apply H1b in Hin. destruct Hin as [Hin|Hin]; [|discriminate].
    exact (Hnew _ Hin eq_refl).
  - intros d Hin. apply H2a, H1a. exact Hin.
Qed.

(** C4, as the code has it.  When the document defines a directive named
    "deprecated", the directive set of the schema holds the directive made
    from that definition and not the specified one; the deprecation reasons
    of enum values and of fields are nonetheless those read with the
    arguments of the specified directive, as for a document that defines no
    directive. *)
Theorem own_deprecated_directive :
  forall (fuel : nat) (definitions : list DefinitionNode)
         (cfg : SchemaConfig) (st : State),
    buildFromDefinitions getArgumentValues fuel definitions = Ok cfg st ->
    (exists d, In d (directiveDefinitions definitions)
               /\ name_value (dd_name d) = "deprecated") ->
    ~ In GraphQLDeprecatedDirective (directives cfg)
    /\ (exists description locations args,
          In (NewDirective "deprecated" description locations args)
             (directives cfg))
    /\ (forall name node description values,
          In (GraphQLEnumType name node description values) (heap st) ->
          Forall (fun kv =>
                    spec_getDeprecationReason getArgumentValues
                      specifiedDirectives (ev_directives (evc_node (snd kv)))
                    = inr (evc_deprecationReason (snd kv))) values)
    /\ (forall fuel' addr fields st',
          getFields getArgumentValues (cfg_nodeMap cfg) fuel' addr st
          = Ok fields st' ->
          Forall (fun kv =>
                    spec_getDeprecationReason getArgumentValues
                      specifiedDirectives (fd_directives (fc_node (snd kv)))
                    = inr (fc_deprecationReason (snd kv))) fields).
Proof.
  intros fuel definitions cfg st H [d [Hd Hname]].
  destruct (build_extends _ _ _ _ _ H)
    as [[_ [os [O G]]] [N [explicit [D F]]]].
  simpl in O.
  destruct (Forall2_In_l _ _ _ _ _ F d Hd) as [e [He [desc [locs [args Ee]]]]].
  rewrite Hname in Ee.
  destruct (addSpecifiedDirectives_shadow explicit) as [Hno Hin].
  { intros x Hx. destruct (Forall2_In_r _ _ _ _ _ F x Hx) as [y [_ [a [b [c ->]]]]].
    discriminate. }
  { apply existsb_exists. exists e. split; [exact He|]. subst e. reflexivity. }
  rewrite D. split; [exact Hno|]. split; [|split].
  - exists desc, locs, args. rewrite <- Ee. apply Hin. exact He.
  - intros name node description values Ho. rewrite O in Ho.
    rewrite Forall_forall in G. destruct (G _ Ho) as [_ V].
    revert V. apply Forall_impl. intros kv. unfold valueReason.
    rewrite getDeprecationReason_specified. trivial.
  - intros fuel' addr fields st' Hf. unfold getFields in Hf.
    assert (Hr : Forall (fun kv => fieldReason getArgumentValues (snd kv)) fields).
    { destruct (nth_error (heap st) addr) as [[]|]; try discriminate;
        exact (makeFieldDefMap_reasons _ _ _ _ _ Hf). }
    revert Hr. apply Forall_impl. intros kv. unfold fieldReason.
    rewrite getDeprecationReason_specified. trivial.
Qed.

End Deprecation.

(** The document defines [@deprecated] without arguments and deprecates
    [Query.old]: the directive set holds the definition of the document, and
    the reason of [old] is the default of the specified directive. *)
Lemma own_deprecated_directive_witness :
  exists cfg st fields st',
    buildFromDefinitions literalArgumentValues 1 Samples.ownDeprecated = Ok cfg st
    /\ ~ In GraphQLDeprecatedDirective (directives cfg)
    /\ getFields literalArgumentValues (cfg_nodeMap cfg) 1 0 st = Ok fields st'
    /\ Forall (fun kv =>
                 spec_getDeprecationReason literalArgumentValues
                   specifiedDirectives (fd_directives (fc_node (snd kv)))
                 = inr (fc_deprecationReason (snd kv))) fields.
Proof.
  destruct (buildFromDefinitions literalArgumentValues 1 Samples.ownDeprecated)
    as [cfg st| |] eqn:E; try (vm_compute in E; discriminate).
  destruct (getFields literalArgumentValues (cfg_nodeMap cfg) 1 0 st)
    as [fields st'| |] eqn:F;
    try (vm_compute in E; injection E as <- <-; vm_compute in F; discriminate).
  exists cfg, st, fields, st'.
  assert (Hd : exists d, In d (directiveDefinitions Samples.ownDeprecated)
                         /\ name_value (dd_name d) = "deprecated").
  { eexists. split; [left; reflexivity | reflexivity]. }
  destruct (own_deprecated_directive literalArgumentValues 1
              Samples.ownDeprecated cfg st E Hd) as [H1 [_ [_ H4]]].
  split; [reflexivity|]. split; [exact H1|]. split; [exact F|].
  exact (H4 1 0 fields st' F).
Defined.

(** On the same document the reason of [Query.old] is the default of the
    specified directive, where the directive of the document, which has no
    [reason] argument, gives none. *)
Lemma own_deprecated_reason_counterexample :
  exists cfg st fields st',
    buildASTSchema literalArgumentValues 1 (Some (Document Samples.ownDeprecated))
    = Ok cfg st
    /\ getFields literalArgumentValues (cfg_nodeMap cfg) 1 0 st = Ok fields st'
    /\ option_map fc_deprecationReason (lookup "old" fields)
       = Some (VString "No longer supported")
    /\ spec_getDeprecationReason literalArgumentValues (directives cfg)
         (fd_directives Samples.oldField)
       = inr VUndefined.
Proof.
  eexists. eexists. eexists. eexists.
  split; [vm_compute; reflexivity|].
  split; [vm_compute; reflexivity|].
  split; reflexivity.
Qed.

(* ------------------------------------------------------------------ *)
(** ** Names without a definition *)

Section Unknown.

Variable getArgumentValues :
  GraphQLDirective -> DirectiveNode -> Exn + list (string * Value).
Variable nodeMap : list (string * TypeDefinitionNode).

Lemma typeDefNamed_not_found (fuel : nat) (typeName : string) (node : ASTNode)
    (st : State) :
  innerTypeMap_get st typeName = None ->
  lookup typeName nodeMap = None ->
  typeDefNamed getArgumentValues nodeMap fuel typeName node st
  = Ok None (mkState (errors st ++ [newGQLError (msg_notFound typeName)
                                      (Some [node]) SEVERITY_error])
               (innerTypeMap st) (heap st)).
Proof.
  intros H1 H2. destruct fuel; cbn [typeDefNamed]; rewrite H1, H2; reflexivity.
Qed.

Lemma produceChecked_unknown (fuel : nat) (slot : PlaceholderSlot)
    (test : State -> GraphQLType -> bool) (expected : string)
    (typeNode : TypeNode) (st : State) :
  innerTypeMap_get st (name_value (nt_name (getNamedTypeNode typeNode))) = None ->
  lookup (name_value (nt_name (getNamedTypeNode typeNode))) nodeMap = None ->
  noNonNullInNonNull typeNode = true ->
  substitutesPlaceholder
    (produceChecked (typeDefNamed getArgumentValues nodeMap fuel) slot test expected)
    slot typeNode st.
Proof.
  intros H1 H2 Hwf. unfold substitutesPlaceholder, produceChecked, produceType.
  unfold bind. rewrite (typeDefNamed_not_found fuel _ _ st H1 H2).
  unfold lift. rewrite buildWrappedType_wrap by (reflexivity || assumption).
  unfold getState.
  match goal with |- context [if ?c then _ else _] => destruct c end;
    eexists; (split; [reflexivity|]); simpl; repeat split;
    rewrite ?in_app_iff; simpl; unfold notFoundError; tauto.
Qed.

(** A reference to a name that is neither in [innerTypeMap] (specified,
    already made or inherited from [Object.prototype]) nor in [nodeMap]: each
    of the four [produce...Type] pushes "not found" and returns the
    placeholder of its kind, never null, under the modifiers of the
    reference. *)
Theorem unknown_type_placeholder :
  forall (fuel : nat) (typeNode : TypeNode) (st : State),
    innerTypeMap_get st (name_value (nt_name (getNamedTypeNode typeNode))) = None ->
    lookup (name_value (nt_name (getNamedTypeNode typeNode))) nodeMap = None ->
    noNonNullInNonNull typeNode = true ->
    let resolve := typeDefNamed getArgumentValues nodeMap fuel in
    substitutesPlaceholder (produceInputType resolve) inputType typeNode st
    /\ substitutesPlaceholder (produceOutputType resolve) outputType typeNode st
    /\ substitutesPlaceholder (produceObjectType resolve) objectType typeNode st
    /\ substitutesPlaceholder (produceInterfaceType resolve) interfaceType
         typeNode st.
Proof.
  intros fuel typeNode st H1 H2 Hwf resolve.
  repeat split; apply produceChecked_unknown; assumption.
Qed.

End Unknown.

(** [[Bogus!]] as the type of a field of a document without definitions. *)
Lemma unknown_type_placeholder_witness :
  substitutesPlaceholder
    (produceOutputType (typeDefNamed literalArgumentValues [] 0)) outputType
    (ListType (NonNullType (Samples.ref "Bogus"))) initialState.
Proof.
  exact (proj1 (proj2 (unknown_type_placeholder literalArgumentValues [] 0
                         (ListType (NonNullType (Samples.ref "Bogus")))
                         initialState eq_refl eq_refl eq_refl))).
Defined.

(* ------------------------------------------------------------------ *)
(** ** Two object types that refer to each other *)

Section Mutual.

Import Samples.

Variable getArgumentValues :
  GraphQLDirective -> DirectiveNode -> Exn + list (string * Value).
Variables (A B a b : string).
Hypothesis AB : A <> B.
Hypothesis HA : innerTypeMap_get initialState A = None.
Hypothesis HB : innerTypeMap_get initialState B = None.

Local Abbreviation dA := (typeA A B b).
Local Abbreviation dB := (typeB A B a).
Local Abbreviation nmAB := [(A, dA); (B, dB)].
Local Abbreviation oA := (GraphQLObjectType A dA None).
Local Abbreviation oB := (GraphQLObjectType B dB None).
Local Abbreviation built es := (mkState es [(A, 0); (B, 1)] [oA; oB]).

Lemma unlisted (n : string) :
  innerTypeMap_get initialState n = None ->
  mem n specifiedTypeNames = false /\ mem n objectPrototypeKeys = false.
Proof.
  unfold innerTypeMap_get. cbn [innerTypeMap initialState lookup].
  destruct (mem n specifiedTypeNames); [discriminate|].
  destruct (mem n objectPrototypeKeys); [discriminate|]. tauto.
Qed.

Lemma BA : String.eqb B A = false.
Proof. apply String.eqb_neq. congruence. Qed.

Lemma scan_mutual :
  scanDefinitions (mutualObjects A B a b)
  = mkScan None [] [dA; dB] nmAB [(A, [dA]); (B, [dB])] [].
Proof.
  unfold scanDefinitions, mutualObjects. cbn [fold_left].
  unfold scanDefinition at 2. cbn.
  unfold scanDefinition. cbn. rewrite BA. reflexivity.
Qed.

Lemma resolve_first (fuel : nat) (node : ASTNode) (es : list GQLError) :
  typeDefNamed getArgumentValues nmAB (S fuel) A node (mkState es [] [])
  = Ok (Some (Instance 0)) (mkState es [(A, 0)] [oA]).
Proof.
  destruct (unlisted A HA) as [S1 S2].
  cbn [typeDefNamed]. unfold innerTypeMap_get. rewrite S1, S2.
  cbn [innerTypeMap lookup]. rewrite String.eqb_refl. reflexivity.
Qed.

Lemma resolve_second (fuel : nat) (node : ASTNode) (es : list GQLError) :
  typeDefNamed getArgumentValues nmAB (S fuel) B node (mkState es [(A, 0)] [oA])
  = Ok (Some (Instance 1)) (built es).
Proof.
  destruct (unlisted B HB) as [S1 S2].
  cbn [typeDefNamed]. unfold innerTypeMap_get. rewrite S1, S2.
  cbn [innerTypeMap lookup]. rewrite BA, String.eqb_refl.
  unfold bind, makeSchemaDef, typeB, object, makeTypeDef, alloc, cache, ret.
  cbn. rewrite BA. reflexivity.
Qed.

(** Once both are made, a reference to either is a hit in [innerTypeMap]. *)
Lemma cached_first (fuel : nat) (node : ASTNode) (es : list GQLError) :
  typeDefNamed getArgumentValues nmAB fuel A node (built es)
  = Ok (Some (Instance 0)) (built es).
Proof.
  destruct (unlisted A HA) as [S1 S2].
  destruct fuel; cbn [typeDefNamed]; unfold innerTypeMap_get; rewrite S1;
    cbn [innerTypeMap lookup]; rewrite String.eqb_refl; reflexivity.
Qed.

Lemma cached_second (fuel : nat) (node : ASTNode) (es : list GQLError) :
  typeDefNamed getArgumentValues nmAB fuel B node (built es)
  = Ok (Some (Instance 1)) (built es).
Proof.
  destruct (unlisted B HB) as [S1 S2].
  destruct fuel; cbn [typeDefNamed]; unfold innerTypeMap_get; rewrite S1;
    cbn [innerTypeMap lookup]; rewrite BA, String.eqb_refl; reflexivity.
Qed.

Lemma rootType_built (fuel : nat) (es : list GQLError) (name : string) :
  exists r,
    rootType (typeDefNamed getArgumentValues nmAB fuel) nmAB
      (conventionalName nmAB name) (built es)
    = Ok r (built es).
Proof.
  unfold conventionalName. destruct (lookup name nmAB) as [d|] eqn:L.
  2:{ exists None. reflexivity. }
  unfold rootType. destruct (truthy (Some name)); [|exists None; reflexivity].
  rewrite L. cbn [lookup] in L. destruct (String.eqb name A).
  - injection L as <-. exists (Some (Instance 0)).
    unfold getObjectType. cbn [typeA object def_name nm name_value].
    unfold bind. rewrite cached_first. reflexivity.
  - destruct (String.eqb name B); [|discriminate].
    injection L as <-. exists (Some (Instance 1)).
    unfold getObjectType. cbn [typeB object def_name nm name_value].
    unfold bind. rewrite cached_second. reflexivity.
Qed.

Lemma getFields_first (fuel : nat) (es : list GQLError) :
  getFields getArgumentValues nmAB fuel 0 (built es)
  = Ok [(b, mkFieldConfig (Named (Instance 1)) (field b B) None [] VNull)]
       (built es).
Proof.
  assert (output : produceOutputType (typeDefNamed getArgumentValues nmAB fuel)
                     (ref B) (built es)
                   = Ok (Named (Instance 1)) (built es)).
  { unfold produceOutputType, produceChecked, produceType.
    cbn [ref getNamedTypeNode named nt_name nm name_value].
    unfold bind. rewrite cached_second. reflexivity. }
  unfold getFields. cbn [heap nth_error].
  change (makeFieldDefMap getArgumentValues
            (typeDefNamed getArgumentValues nmAB fuel)
            (ObjectTypeDefinition (nm A) (Some []) [field b B] None) (built es)
          = Ok [(b, mkFieldConfig (Named (Instance 1)) (field b B) None [] VNull)]
               (built es)).
  cbn [makeFieldDefMap]. unfold keyValMap. cbn [keyValMap_from]. unfold bind.
  change (fd_type (field b B)) with (ref B). rewrite output. reflexivity.
Qed.

Lemma getFields_second (fuel : nat) (es : list GQLError) :
  getFields getArgumentValues nmAB fuel 1 (built es)
  = Ok [(a, mkFieldConfig (Named (Instance 0)) (field a A) None [] VNull)]
       (built es).
Proof.
  assert (output : produceOutputType (typeDefNamed getArgumentValues nmAB fuel)
                     (ref A) (built es)
                   = Ok (Named (Instance 0)) (built es)).
  { unfold produceOutputType, produceChecked, produceType.
    cbn [ref getNamedTypeNode named nt_name nm name_value].
    unfold bind. rewrite cached_first. reflexivity. }
  unfold getFields. cbn [heap nth_error].
  change (makeFieldDefMap getArgumentValues
            (typeDefNamed getArgumentValues nmAB fuel)
            (ObjectTypeDefinition (nm B) (Some []) [field a A] None) (built es)
          = Ok [(a, mkFieldConfig (Named (Instance 0)) (field a A) None [] VNull)]
               (built es)).
  cbn [makeFieldDefMap]. unfold keyValMap. cbn [keyValMap_from]. unfold bind.
  change (fd_type (field a A)) with (ref A). rewrite output. reflexivity.
Qed.


End Mutual.


(* ------------------------------------------------------------------ *)
(** ** Documents without unions *)

Section Termination.

Variable getArgumentValues :
  GraphQLDirective -> DirectiveNode -> Exn + list (string * Value).

Lemma terminates_ret (A : Type) (a : A) : terminates (ret a).
Proof. intros st. discriminate. Qed.

Lemma terminates_bind (A B : Type) (m : M A) (f : A -> M B) :
  terminates m -> (forall a, terminates (f a)) -> terminates (bind m f).
Proof.
  intros Hm Hf st. unfold bind. specialize (Hm st).
  destruct (m st) as [a st'| |]; [apply Hf | discriminate | congruence].
Qed.

Lemma terminates_lift (A : Type) (r : Exn + A) : terminates (lift r).
Proof. intros st. unfold lift. destruct r; discriminate. Qed.

Lemma terminates_mapM (A B : Type) (f : A -> M B) :
  (forall x, terminates (f x)) -> forall l, terminates (mapM f l).
Proof.
  intros Hf. induction l as [|x l IH]; simpl; [apply terminates_ret|].
  apply terminates_bind; [apply Hf|]. intros y.
  apply terminates_bind; [exact IH|]. intros ys. apply terminates_ret.
Qed.

Lemma terminates_keyValMap (A V : Type) (keyFn : A -> string) (valFn : A -> M V) :
  (forall x, terminates (valFn x)) ->
  forall items map, terminates (keyValMap_from map items keyFn valFn).
Proof.
  intros Hf. induction items as [|x l IH]; intros map; simpl;
    [apply terminates_ret|].
  apply terminates_bind; [apply Hf | intros v; apply IH].
Qed.

Section WithResolver.

Variable resolve : string -> ASTNode -> M (option GraphQLNamedType).
Hypothesis resolve_terminates : forall n node, terminates (resolve n node).

Lemma terminates_produceChecked (slot : PlaceholderSlot)
    (test : State -> GraphQLType -> bool) (expected : string)
    (typeNode : TypeNode) :
  terminates (produceChecked resolve slot test expected typeNode).
Proof.
  unfold produceChecked, produceType.
  apply terminates_bind.
  - apply terminates_bind; [apply resolve_terminates|].
    intros found. apply terminates_lift.
  - intros type. apply terminates_bind; [intros st; discriminate|].
    intros st. apply terminates_bind; [|intros; apply terminates_ret].
    destruct (test st type); [apply terminates_ret | intros s; discriminate].
Qed.

Lemma terminates_makeInputValues (values : list InputValueDefinitionNode) :
  terminates (makeInputValues resolve values).
Proof.
  unfold makeInputValues, keyValMap. apply terminates_keyValMap. intros value.
  apply terminates_bind; [apply terminates_produceChecked|].
  intros; apply terminates_ret.
Qed.

Lemma terminates_getDirective (directiveNode : DirectiveDefinitionNode) :
  terminates (getDirective resolve directiveNode).
Proof.
  unfold getDirective. apply terminates_bind; [|intros; apply terminates_ret].
  destruct (dd_arguments directiveNode); [|apply terminates_ret].
  apply terminates_bind; [apply terminates_makeInputValues|].
  intros; apply terminates_ret.
Qed.

Lemma terminates_rootType (nodeMap : list (string * TypeDefinitionNode))
    (name : option string) :
  terminates (rootType resolve nodeMap name).
Proof.
  unfold rootType. destruct name as [typeName|]; [|apply terminates_ret].
  destruct (truthy (Some typeName)); [|apply terminates_ret].
  unfold getObjectType.
  destruct (lookup typeName nodeMap); [|intros st; discriminate].
  apply terminates_bind; [apply resolve_terminates|]. intros type.
  apply terminates_bind; [intros st; discriminate|]. intros st.
  apply terminates_bind; [|intros; apply terminates_ret].
  match goal with |- terminates (if ?c then _ else _) => destruct c end;
    [apply terminates_ret | intros s; discriminate].
Qed.

End WithResolver.

(** Without a union in [nodeMap], [makeSchemaDef] never calls back into
    [typeDefNamed]: one unit of fuel is enough. *)
Lemma typeDefNamed_without_unions (nodeMap : list (string * TypeDefinitionNode)) :
  (forall k d, lookup k nodeMap = Some d -> isUnionType d = false) ->
  forall (fuel : nat) (typeName : string) (node : ASTNode),
    terminates (typeDefNamed getArgumentValues nodeMap (S fuel) typeName node).
Proof.
  intros Hnm fuel typeName node st. cbn [typeDefNamed].
  destruct (innerTypeMap_get st typeName); [discriminate|].
  destruct (lookup typeName nodeMap) as [def|] eqn:L; [|discriminate].
  specialize (Hnm _ _ L).
  apply terminates_bind; [|intros addr s; discriminate].
  destruct def; try discriminate; simpl; try (intros s; discriminate).
  unfold makeEnumDef. apply terminates_bind; [|intros v s; discriminate].
  apply terminates_keyValMap. intros x.
  apply terminates_bind; [apply terminates_lift | intros; apply terminates_ret].
Qed.

Lemma nodeMap_without_unions (definitions : list DefinitionNode) :
  forallb (fun d => negb (isUnionDefinition d)) definitions = true ->
  forall k d, lookup k (nodeMap (scanDefinitions definitions)) = Some d ->
              isUnionType d = false.
Proof.
  intros H k d L. rewrite scan_nodeMap in L. unfold definitionsNamed in L.
  assert (Hin : In d (typeDefinitions definitions)).
  { destruct (filter _ _) as [|d' r] eqn:E; [discriminate|]. injection L as ->.
    assert (Hf : In d (filter (fun d0 => String.eqb (name_value (def_name d0)) k)
                         (typeDefinitions definitions)))
      by (rewrite E; left; reflexivity).
    apply filter_In in Hf. exact (proj1 Hf). }
  clear L. rewrite forallb_forall in H.
  assert (Hd : In (TypeDefinition d) definitions).
  { clear H. induction definitions as [|x l IH]; simpl in *; [contradiction|].
    destruct x; simpl in Hin; try (right; apply IH; exact Hin).
    destruct Hin as [->|Hin]; [left; reflexivity | right; apply IH; exact Hin]. }
  specialize (H _ Hd). destruct d; try reflexivity. discriminate.
Qed.


End Termination.


(* ------------------------------------------------------------------ *)
(** ** Root operation types *)

Section Roots.

Lemma lastOperation_snoc (op : string) (ops : list OperationTypeDefinitionNode)
    (o : OperationTypeDefinitionNode) :
  lastOperation op (ops ++ [o])
  = if String.eqb (operation o) op
    then Some (name_value (nt_name (op_type o)))
    else lastOperation op ops.
Proof.
  unfold lastOperation. rewrite rev_app_distr. simpl.
  destruct (String.eqb (operation o) op); reflexivity.
Qed.

Lemma fold_setOperationType (ops : list OperationTypeDefinitionNode) :
  fold_left setOperationType ops (mkRootNames None None None)
  = mkRootNames (lastOperation "query" ops) (lastOperation "mutation" ops)
      (lastOperation "subscription" ops).
Proof.
  induction ops as [|o ops IH] using rev_ind; [reflexivity|].
  rewrite fold_left_app. cbn [fold_left]. rewrite IH.
  rewrite !lastOperation_snoc. unfold setOperationType.
  cbn [queryTypeName mutationTypeName subscriptionTypeName].
  destruct (String.eqb (operation o) "query") eqn:Eq.
  { apply String.eqb_eq in Eq. rewrite Eq. reflexivity. }
  destruct (String.eqb (operation o) "mutation") eqn:Em.
  { apply String.eqb_eq in Em. rewrite Em. reflexivity. }
  destruct (String.eqb (operation o) "subscription"); reflexivity.
Qed.

Lemma conventionalName_scan (definitions : list DefinitionNode) (name : string) :
  conventionalName (nodeMap (scanDefinitions definitions)) name
  = match definitionsNamed name definitions with
    | [] => None
    | _ => Some name
    end.
Proof.
  unfold conventionalName. rewrite scan_nodeMap.
  destruct (definitionsNamed name definitions); reflexivity.
Qed.

(** The root names.  With schema blocks they are read from the last block
    of the document, each from the last operation type of its kind there,
    and a type named Query, Mutation or Subscription plays no part; without
    a schema block a root is named by convention exactly when a type of that
    name is defined. *)
Theorem rootNames_characterized :
  forall definitions : list DefinitionNode,
    rootNames (scanDefinitions definitions)
    = match lastOf (schemaBlocks definitions) with
      | Some block =>
          mkRootNames (lastOperation "query" (operationTypes block))
            (lastOperation "mutation" (operationTypes block))
            (lastOperation "subscription" (operationTypes block))
      | None =>
          let byConvention name :=
            match definitionsNamed name definitions with
            | [] => None
            | _ => Some name
            end in
          mkRootNames (byConvention "Query") (byConvention "Mutation")
            (byConvention "Subscription")
      end.
Proof.
  intros definitions. unfold rootNames.
  rewrite (proj1 (scan_schema definitions)).
  destruct (lastOf (schemaBlocks definitions)) as [block|].
  - apply fold_setOperationType.
  - cbv zeta. rewrite !conventionalName_scan. reflexivity.
Qed.

Lemma scanDiagnostics_not_noQuery (definitions : list DefinitionNode) :
  Forall (fun e => hasMessage msg_noQueryType e = false)
         (scanDiagnostics definitions).
Proof.
  unfold scanDiagnostics. apply Forall_app. split.
  - rewrite (proj2 (scan_schema definitions)). apply Forall_forall.
    intros e He. apply in_map_iff in He. destruct He as [p [<- _]]. reflexivity.
  - induction (nodeMapWithAllReferences (scanDefinitions definitions))
      as [|[k ds] all IH]; simpl; [constructor|].
    destruct (1 <? List.length ds); [constructor|]; trivial.
Qed.

Lemma builderMessage_not_noQuery (m : string) :
  builderMessage m -> String.eqb m msg_noQueryType = false.
Proof. intros []; reflexivity. Qed.

Variable getArgumentValues :
  GraphQLDirective -> DirectiveNode -> Exn + list (string * Value).

(** The parts of a build that returned. *)
Lemma build_inv (fuel : nat) (definitions : list DefinitionNode)
    (cfg : SchemaConfig) (st : State) :
  buildFromDefinitions getArgumentValues fuel definitions = Ok cfg st ->
  let s := scanDefinitions definitions in
  let resolve := typeDefNamed getArgumentValues (nodeMap s) fuel in
  let r := rootNames s in
  exists found explicit st1 st2 st3 st4,
    mapM (fun def => resolve (defName def) (DefNode def)) (typeDefs s)
      (mkState (initialErrors definitions) [] []) = Ok found st1
    /\ mapM (getDirective resolve) (directiveDefs s) st1 = Ok explicit st2
    /\ rootType resolve (nodeMap s) (queryTypeName r) st2 = Ok (query cfg) st3
    /\ rootType resolve (nodeMap s) (mutationTypeName r) st3
       = Ok (mutation cfg) st4
    /\ rootType resolve (nodeMap s) (subscriptionTypeName r) st4
       = Ok (subscription cfg) st
    /\ types cfg = filterBoolean found ++ specifiedScalars
    /\ directives cfg = addSpecifiedDirectives explicit
    /\ cfg_nodeMap cfg = nodeMap s.
Proof.
  intros H s resolve r. unfold buildFromDefinitions in H.
  fold s in H. fold resolve in H. fold r in H.
  match type of H with
  | _ ?st0 = _ =>
      replace st0 with (mkState (initialErrors definitions) [] []) in H
  end.
  2:{ unfold initialErrors, scanDiagnostics. fold s. fold r.
      destruct (truthy (queryTypeName r)); reflexivity. }
  apply bind_inv in H. destruct H as [found [st1 [H1 H]]].
  apply bind_inv in H. destruct H as [explicit [st2 [H2 H]]].
  apply bind_inv in H. destruct H as [q [st3 [H3 H]]].
  apply bind_inv in H. destruct H as [m [st4 [H4 H]]].
  apply bind_inv in H. destruct H as [sb [st5 [H5 H]]].
  injection H as <- <-.
  exists found, explicit, st1, st2, st3, st4. repeat split; assumption.
Qed.

(** The diagnostic for a missing query root is in the result exactly when
    there is no query root name (none, or the empty string), once; the
    schema then has no query type. *)
Theorem missing_query_root :
  forall (fuel : nat) (definitions : list DefinitionNode)
         (cfg : SchemaConfig) (st : State),
    buildFromDefinitions getArgumentValues fuel definitions = Ok cfg st ->
    let named := truthy (queryTypeName (rootNames (scanDefinitions definitions))) in
    filter (hasMessage msg_noQueryType) (errors st)
    = (if named then [] else [noQueryError])
    /\ (named = false -> query cfg = None).
Proof.
  intros fuel definitions cfg st H named. split.
  - destruct (build_extends _ _ _ _ _ H) as [[[es [E F]] _] _]. simpl in E.
    rewrite E, filter_app.
    rewrite (filter_none _ (hasMessage msg_noQueryType) es).
    2:{ revert F. apply Forall_impl. intros e. apply builderMessage_not_noQuery. }
    rewrite app_nil_r. unfold initialErrors. fold named.
    destruct named.
    + apply filter_none. apply scanDiagnostics_not_noQuery.
    + rewrite filter_app, (filter_none _ _ _ (scanDiagnostics_not_noQuery _)).
      reflexivity.
  - intros Hn. destruct (build_inv _ _ _ _ H)
      as [found [explicit [st1 [st2 [st3 [st4 [_ [_ [Q _]]]]]]]]].
    unfold rootType in Q. subst named.
    destruct (queryTypeName (rootNames (scanDefinitions definitions)))
      as [typeName|].
    + rewrite Hn in Q. injection Q as <- _. reflexivity.
    + injection Q as <- _. reflexivity.
Qed.

End Roots.

(** A document with one type, not named Query: one diagnostic for the
    missing root, and no query type. *)
Lemma missing_query_root_witness :
  exists cfg st,
    buildFromDefinitions literalArgumentValues 1
      [TypeDefinition (Samples.object "T" [Samples.field "a" "Int"])] = Ok cfg st
    /\ filter (hasMessage msg_noQueryType) (errors st) = [noQueryError]
    /\ query cfg = None.
Proof.
  destruct (buildFromDefinitions literalArgumentValues 1
              [TypeDefinition (Samples.object "T" [Samples.field "a" "Int"])])
    as [cfg st| |] eqn:E; try (vm_compute in E; discriminate).
  exists cfg, st. split; [reflexivity|].
  destruct (missing_query_root literalArgumentValues 1 _ cfg st E) as [H1 H2].
  split; [exact H1 | exact (H2 eq_refl)].
Defined.

(* ------------------------------------------------------------------ *)
(** ** More on wrappers and descriptions *)

Section WrappersAndDescriptions.

(** [buildWrappedType] fails its [invariant] exactly on a reference with a
    non-null directly inside a non-null (the inner type not being a non-null
    itself), and otherwise wraps. *)
Theorem buildWrappedType_characterized :
  forall (innerType : GraphQLType) (typeNode : TypeNode),
    is_GraphQLNonNull innerType = false ->
    buildWrappedType innerType typeNode
    = if noNonNullInNonNull typeNode
      then inr (wrap (modifiersOf typeNode) innerType)
      else inl (InvariantViolation "No nesting nonnull.").
Proof.
  intros innerType typeNode Hinner.
  induction typeNode as [n|t IH|t IH]; simpl.
  - reflexivity.
  - rewrite IH. destruct (noNonNullInNonNull t); reflexivity.
  - rewrite IH. destruct t as [n|t'|t'].
    + simpl. rewrite Hinner. reflexivity.
    + destruct (noNonNullInNonNull (ListType t')); reflexivity.
    + destruct (noNonNullInNonNull (NonNullType t')); reflexivity.
Qed.

Lemma buildWrappedType_characterized_witness :
  buildWrappedType (Named (Specified "Int"))
    (NonNullType (NonNullType (Samples.ref "Int")))
  = inl (InvariantViolation "No nesting nonnull.").
Proof.
  exact (buildWrappedType_characterized (Named (Specified "Int"))
           (NonNullType (NonNullType (Samples.ref "Int"))) eq_refl).
Defined.

Lemma leadingSpaces_spaces (n : nat) (r : string) :
  leadingSpaces (spaces n ++ r)%string = n + leadingSpaces r.
Proof.
  induction n as [|n IH]; simpl; [reflexivity | rewrite IH; reflexivity].
Qed.

Lemma leadingSpaces_slice :
  forall (m : nat) (s : string),
    m <= leadingSpaces s ->
    leadingSpaces (slice_from m s) = leadingSpaces s - m.
Proof.
  induction m as [|m IH]; intros s H; simpl; [lia|].
  destruct s as [|c s]; simpl in *; [reflexivity|].
  destruct (Ascii.eqb c " "); [apply IH; lia | lia].
Qed.

Lemma leadingSpaces_length (s : string) : leadingSpaces s <= String.length s.
Proof.
  induction s as [|c s IH]; simpl; [lia|].
  destruct (Ascii.eqb c " "); lia.
Qed.

(** [leadingSpaces] is the length of the longest prefix of spaces: the
    string is that many spaces followed by a rest that does not start with a
    space, and spaces put in front of a string are counted. *)
Theorem leadingSpaces_characterized :
  forall s : string,
    leadingSpaces s <= String.length s
    /\ s = (spaces (leadingSpaces s) ++ slice_from (leadingSpaces s) s)%string
    /\ leadingSpaces (slice_from (leadingSpaces s) s) = 0
    /\ forall n : nat, leadingSpaces (spaces n ++ s)%string = n + leadingSpaces s.
Proof.
  intros s. split; [apply leadingSpaces_length|].
  split; [apply strip_spaces; lia|].
  split; [rewrite leadingSpaces_slice by lia; lia|].
  intros n. apply leadingSpaces_spaces.
Qed.

(** What the loop of [getDescription] has when it stops, whatever the
    tokens. *)
Lemma collectComments_spec :
  forall (tokens : list Token) (next : Token) (m : option nat)
         (cs : list string),
  exists new : list string,
    collectComments next tokens m cs
    = (fold_left updateMinSpaces (map leadingSpaces new) m, cs ++ new)
    /\ (forall s, In s new ->
          exists t, In t tokens /\ kind t = COMMENT /\ String_of (value t) = s)
    /\ List.length new <= List.length tokens - 1.
Proof.
  induction tokens as [|token rest IH]; intros next m cs.
  - exists []. simpl. rewrite app_nil_r. repeat split; [intros s []|lia].
  - cbn [collectComments].
    destruct (isDescriptionComment token next (hd_error rest)) eqn:G.
    + destruct (IH token (updateMinSpaces m (leadingSpaces (String_of (value token))))
                  (cs ++ [String_of (value token)])) as [new [E [Hin Hlen]]].
      exists (String_of (value token) :: new). rewrite E. split; [|split].
      * rewrite <- app_assoc. reflexivity.
      * intros s [<-|Hs].
        -- exists token. split; [left; reflexivity|]. split; [|reflexivity].
           unfold isDescriptionComment in G. destruct (hd_error rest); [|discriminate].
           destruct (kind token); try discriminate. reflexivity.
        -- destruct (Hin s Hs) as [t [Ht H]]. exists t. split; [right; exact Ht | exact H].
      * unfold isDescriptionComment in G.
        destruct rest as [|p rest]; [discriminate|]. simpl in *. lia.
    + exists []. rewrite app_nil_r. repeat split; [intros s []|simpl; lia].
Qed.

(** For every location, the description is made of comment tokens that
    precede the node (the first token of the document is never one of them):
    their lines without their first [m] characters, which are spaces on every
    line, and, when there is a line at all, some line is left without any
    leading space. *)
Theorem getDescription_lines :
  forall l : Location,
  exists (lines : list string) (m : nat),
    getDescription (Some l)
    = Some (String.concat newline (map (slice_from m) lines))
    /\ Forall (fun s => s = (spaces m ++ slice_from m s)%string) lines
    /\ (lines <> [] ->
        Exists (fun s => leadingSpaces (slice_from m s) = 0) lines)
    /\ (forall s, In s lines ->
          exists t, In t (prevTokens l) /\ kind t = COMMENT
                    /\ String_of (value t) = s)
    /\ List.length lines <= List.length (prevTokens l) - 1.
Proof.
  intros l. unfold getDescription.
  destruct (collectComments_spec (prevTokens l) (startToken l) None [])
    as [new [E [Hin Hlen]]].
  rewrite E. cbn [app].
  destruct new as [|c new].
  - exists [], 0. simpl.
    repeat split;
      solve [constructor | lia | intros H; congruence | intros s []].
  - cbn [map fold_left updateMinSpaces].
    destruct (updateMinSpaces_spec (map leadingSpaces new) (leadingSpaces c))
      as [r [Hr [Hmem [Hle Hall]]]].
    rewrite Hr. exists (rev (c :: new)), r. cbn [slice].
    assert (Hmin : forall s, In s (c :: new) -> r <= leadingSpaces s).
    { intros s [<-|Hs]; [exact Hle|]. apply Hall. apply in_map. exact Hs. }
    split; [reflexivity|]. split; [|split; [|split]].
    + apply Forall_forall. intros s Hs. apply in_rev in Hs.
      apply strip_spaces. apply Hmin. exact Hs.
    + intros _. apply Exists_exists.
      assert (Hex : exists s, In s (c :: new) /\ leadingSpaces s = r).
      { destruct Hmem as [->|Hmem]; [exists c; split; [left|]; reflexivity|].
        apply in_map_iff in Hmem. destruct Hmem as [s [Hs Hi]].
        exists s. split; [right; exact Hi | exact Hs]. }
      destruct Hex as [s [Hs Hr']]. exists s.
      split; [apply -> in_rev; exact Hs|].
      rewrite leadingSpaces_slice by lia. lia.
    + intros s Hs. apply in_rev in Hs. exact (Hin s Hs).
    + rewrite length_rev. exact Hlen.
Qed.

End WrappersAndDescriptions.

(* ------------------------------------------------------------------ *)
(** ** The type definitions that are built *)

Section TypeDefs.

Lemma mem_app (k : string) (l1 l2 : list string) :
  mem k (l1 ++ l2) = mem k l1 || mem k l2.
Proof. apply existsb_app. Qed.

Lemma mem_In (k : string) (l : list string) : mem k l = true <-> In k l.
Proof.
  unfold mem. rewrite existsb_exists. split.
  - intros [x [Hx E]]. apply String.eqb_eq in E. subst. exact Hx.
  - intros H. exists k. split; [exact H | apply String.eqb_refl].
Qed.

Lemma firstDefinitions_seen (ds : list TypeDefinitionNode) :
  forall seen seen' : list string,
    (forall k, mem k seen = mem k seen') ->
    firstDefinitions seen ds = firstDefinitions seen' ds.
Proof.
  induction ds as [|d ds IH]; intros seen seen' H; simpl; [reflexivity|].
  rewrite <- H. destruct (mem (defName d) seen); [apply IH; exact H|].
  f_equal. apply IH. intros k. simpl. rewrite H. reflexivity.
Qed.

Lemma firstDefinitions_snoc (d : TypeDefinitionNode) :
  forall (ds : list TypeDefinitionNode) (seen : list string),
    firstDefinitions seen (ds ++ [d])
    = firstDefinitions seen ds
      ++ (if mem (defName d) (seen ++ map defName ds) then [] else [d]).
Proof.
  induction ds as [|x ds IH]; intros seen.
  - simpl. rewrite app_nil_r. destruct (mem (defName d) seen); reflexivity.
  - cbn [app firstDefinitions map]. destruct (mem (defName x) seen) eqn:E.
    + rewrite IH. f_equal. rewrite !mem_app. cbn [mem existsb].
      destruct (String.eqb (defName d) (defName x)) eqn:E'; [|reflexivity].
      apply String.eqb_eq in E'. rewrite E', E. reflexivity.
    + rewrite IH, <- (app_comm_cons (firstDefinitions _ _) _ x).
      f_equal. f_equal. rewrite !mem_app. unfold mem. cbn [existsb].
      destruct (String.eqb (defName d) (defName x));
        destruct (existsb (String.eqb (defName d)) seen);
        destruct (existsb (String.eqb (defName d)) (map defName ds));
        reflexivity.
Qed.

Lemma firstDefinitions_incl :
  forall (ds : list TypeDefinitionNode) (seen : list string) (d : TypeDefinitionNode),
    In d (firstDefinitions seen ds) -> In d ds.
Proof.
  induction ds as [|x ds IH]; intros seen d H; simpl in *; [exact H|].
  destruct (mem (defName x) seen).
  - right. exact (IH _ _ H).
  - destruct H as [->|H]; [left; reflexivity | right; exact (IH _ _ H)].
Qed.

Lemma firstDefinitions_NoDup :
  forall (ds : list TypeDefinitionNode) (seen : list string),
    NoDup (map defName (firstDefinitions seen ds))
    /\ forall d, In d (firstDefinitions seen ds) -> mem (defName d) seen = false.
Proof.
  induction ds as [|x ds IH]; intros seen; simpl.
  - split; [constructor | intros d []].
  - destruct (mem (defName x) seen) eqn:E; [apply IH|].
    destruct (IH (defName x :: seen)) as [Hnd Hout]. split.
    + simpl. constructor; [|exact Hnd]. intros Hin.
      apply in_map_iff in Hin. destruct Hin as [d [Hd Hi]].
      specialize (Hout d Hi). simpl in Hout. rewrite Hd, String.eqb_refl in Hout.
      discriminate.
    + intros d [<-|Hd]; [exact E|]. specialize (Hout d Hd). simpl in Hout.
      apply orb_false_iff in Hout. exact (proj2 Hout).
Qed.

Lemma definitionsNamed_none (name : string) (definitions : list DefinitionNode) :
  hd_error (definitionsNamed name definitions) = None
  <-> mem name (map defName (typeDefinitions definitions)) = false.
Proof.
  unfold definitionsNamed.
  induction (typeDefinitions definitions) as [|d l IH]; simpl; [tauto|].
  fold (defName d). rewrite (String.eqb_sym name).
  destruct (String.eqb (defName d) name); simpl; [split; discriminate | exact IH].
Qed.

(** [typeDefs] holds the type definitions of the document in their order,
    without those whose name an earlier definition has. *)
Lemma scan_typeDefs (definitions : list DefinitionNode) :
  typeDefs (scanDefinitions definitions)
  = firstDefinitions [] (typeDefinitions definitions).
Proof.
  induction definitions as [|d l IH] using rev_ind; [reflexivity|].
  rewrite scanDefinitions_snoc, typeDefinitions_snoc.
  destruct d as [b|t|dd|k]; simpl; rewrite ?app_nil_r; try exact IH.
  rewrite firstDefinitions_snoc. simpl. rewrite <- IH.
  fold (defName t). rewrite scan_nodeMap.
  destruct (hd_error (definitionsNamed (defName t) l)) eqn:E.
  - destruct (mem (defName t) (map defName (typeDefinitions l))) eqn:M.
    + rewrite app_nil_r. reflexivity.
    + apply definitionsNamed_none in M. congruence.
  - apply definitionsNamed_none in E. rewrite E. reflexivity.
Qed.

Variable getArgumentValues :
  GraphQLDirective -> DirectiveNode -> Exn + list (string * Value).

Lemma typeDefNamed_some (nodeMap : list (string * TypeDefinitionNode))
    (fuel : nat) (typeName : string) (node : ASTNode) (st st' : State)
    (r : option GraphQLNamedType) :
  lookup typeName nodeMap <> None ->
  typeDefNamed getArgumentValues nodeMap fuel typeName node st = Ok r st' ->
  r <> None.
Proof.
  intros Hl H. destruct fuel; cbn [typeDefNamed] in H;
    destruct (innerTypeMap_get st typeName);
    try (injection H as <- _; discriminate);
    destruct (lookup typeName nodeMap); try congruence; try discriminate.
  apply bind_inv in H. destruct H as [addr [s1 [_ H]]].
  apply bind_inv in H. destruct H as [u [s2 [_ H]]].
  injection H as <- _. discriminate.
Qed.

Lemma filterBoolean_length (A : Type) (l : list (option A)) :
  Forall (fun r => r <> None) l ->
  List.length (filterBoolean l) = List.length l.
Proof.
  induction 1 as [|[a|] l Hx _ IH]; simpl; congruence.
Qed.

(** One type is built for each name that the document defines, the first
    definition of the name standing for it, in document order; [types] holds
    them, none dropped by [filter(Boolean)], before the five specified
    scalars. *)
Theorem types_one_per_name :
  forall definitions : list DefinitionNode,
    let firsts := firstDefinitions [] (typeDefinitions definitions) in
    typeDefs (scanDefinitions definitions) = firsts
    /\ NoDup (map defName firsts)
    /\ (forall d, In d firsts -> In d (typeDefinitions definitions))
    /\ forall fuel cfg st,
         buildFromDefinitions getArgumentValues fuel definitions = Ok cfg st ->
         exists found,
           types cfg = found ++ specifiedScalars
           /\ List.length found = List.length firsts.
Proof.
  intros definitions firsts. split; [apply scan_typeDefs|].
  split; [apply firstDefinitions_NoDup|].
  split; [intros d; apply firstDefinitions_incl|].
  intros fuel cfg st H.
  destruct (build_inv _ _ _ _ _ H)
    as [found [explicit [st1 [st2 [st3 [st4 [M [_ [_ [_ [_ [T _]]]]]]]]]]]].
  exists (filterBoolean found). split; [exact T|].
  set (nm := nodeMap (scanDefinitions definitions)) in *.
  assert (F2 : Forall2 (fun d r => lookup (defName d) nm <> None -> r <> None)
                 (typeDefs (scanDefinitions definitions)) found).
  { revert M. apply mapM_Forall2. intros x s y s' Hx Hl.
    exact (typeDefNamed_some _ _ _ _ _ _ _ Hl Hx). }
  rewrite scan_typeDefs in F2. fold firsts in F2.
  assert (Hall : Forall (fun d => lookup (defName d) nm <> None) firsts).
  { apply Forall_forall. intros d Hd. unfold nm. rewrite scan_nodeMap.
    intros E. apply definitionsNamed_none in E.
    apply firstDefinitions_incl in Hd.
    assert (Hm : mem (defName d) (map defName (typeDefinitions definitions)) = true)
      by (apply mem_In, in_map; exact Hd).
    congruence. }
  rewrite filterBoolean_length.
  - symmetry. exact (Forall2_length F2).
  - clear -F2 Hall. induction F2 as [|d r l l' Hdr _ IH]; constructor.
    + inversion Hall; subst. auto.
    + inversion Hall; subst. auto.
Qed.

Lemma filter_NoDup_length (A : Type) (f : A -> string) (k : string) :
  forall l : list A,
    NoDup (map f l) ->
    List.length (filter (fun d => String.eqb (f d) k) l) <= 1.
Proof.
  induction l as [|x l IH]; intros H; simpl; [lia|].
  inversion H as [|? ? Hx Hl]; subst.
  destruct (String.eqb (f x) k) eqn:E; [|apply IH; exact Hl].
  apply String.eqb_eq in E. simpl.
  rewrite filter_none; [simpl; lia|].
  apply Forall_forall. intros y Hy. apply String.eqb_neq. intros Ey. apply Hx.
  rewrite E, <- Ey. apply in_map. exact Hy.
Qed.

Lemma In_lookup (V : Type) (k : string) (v : V) :
  forall m : list (string * V),
    NoDup (map fst m) -> In (k, v) m -> lookup k m = Some v.
Proof.
  induction m as [|[k' w] m IH]; intros Hnd Hin; simpl in *; [contradiction|].
  inversion Hnd as [|? ? Hk Hm]; subst.
  destruct Hin as [E|Hin].
  - injection E as -> ->. rewrite String.eqb_refl. reflexivity.
  - destruct (String.eqb k k') eqn:E; [|apply IH; assumption].
    apply String.eqb_eq in E. subst k'. exfalso. apply Hk.
    apply in_map_iff. exists (k, v). split; [reflexivity | exact Hin].
Qed.

Lemma duplicateErrors_none (all : list (string * list TypeDefinitionNode)) :
  (forall k ds, In (k, ds) all -> List.length ds <= 1) ->
  duplicateErrors all = [].
Proof.
  induction all as [|[k ds] all IH]; intros H; simpl; [reflexivity|].
  replace (1 <? List.length ds) with false.
  - apply IH. intros k' ds' H'. apply (H k' ds'). right. exact H'.
  - symmetry. apply Nat.ltb_ge. apply (H k ds). left. reflexivity.
Qed.

(** A document whose type definitions have distinct names and that has at
    most one schema block leaves no diagnostic when its definitions are
    scanned. *)
Theorem scanDiagnostics_clean :
  forall definitions : list DefinitionNode,
    NoDup (map defName (typeDefinitions definitions)) ->
    List.length (schemaBlocks definitions) <= 1 ->
    scanDiagnostics definitions = [].
Proof.
  intros definitions Hnd Hsb. unfold scanDiagnostics.
  rewrite (proj2 (scan_schema definitions)).
  replace (consecutivePairs (schemaBlocks definitions)) with
    (@nil (SchemaDefinitionNode * SchemaDefinitionNode)).
  2:{ destruct (schemaBlocks definitions) as [|x [|y l]]; try reflexivity.
      simpl in Hsb. lia. }
  simpl. destruct (scan_allReferences definitions) as [Hkeys Hl].
  assert (Hall : forall k ds,
             In (k, ds) (nodeMapWithAllReferences (scanDefinitions definitions)) ->
             List.length ds <= 1).
  { intros k ds Hin. pose proof (In_lookup _ k ds _ Hkeys Hin) as L.
    rewrite Hl in L.
    assert (ds = definitionsNamed k definitions)
      by (destruct (definitionsNamed k definitions); congruence).
    subst ds. apply (filter_NoDup_length _ defName). exact Hnd. }
  apply duplicateErrors_none. exact Hall.
Qed.

End TypeDefs.

Lemma types_one_per_name_witness :
  exists cfg st found,
    buildFromDefinitions literalArgumentValues 1 Samples.duplicateTypes = Ok cfg st
    /\ types cfg = found ++ specifiedScalars
    /\ List.length found = 2.
Proof.
  destruct (buildFromDefinitions literalArgumentValues 1 Samples.duplicateTypes)
    as [cfg st| |] eqn:E; try (vm_compute in E; discriminate).
  destruct (proj2 (proj2 (proj2 (types_one_per_name literalArgumentValues
                                   Samples.duplicateTypes))) 1 cfg st E)
    as [found [H1 H2]].
  exists cfg, st, found. split; [reflexivity|]. split; [exact H1 | exact H2].
Defined.

Lemma scanDiagnostics_clean_witness :
  scanDiagnostics (Samples.mutualObjects "A" "B" "a" "b") = [].
Proof.
  apply scanDiagnostics_clean.
  - simpl. constructor; [intros [H|[]]; discriminate|].
    constructor; [intros []|constructor].
  - simpl. lia.
Defined.

(* ------------------------------------------------------------------ *)
(** ** More on the builders *)

Section MoreBuilders.

Variable getArgumentValues :
  GraphQLDirective -> DirectiveNode -> Exn + list (string * Value).

(** *** The directive set *)

Lemma hasDirective_snoc (name : string) (l : list GraphQLDirective)
    (d : GraphQLDirective) :
  hasDirective name (l ++ [d])
  = hasDirective name l || String.eqb (directive_name d) name.
Proof.
  rewrite hasDirective_app. unfold hasDirective at 2. simpl.
  rewrite orb_false_r. reflexivity.
Qed.

Lemma addSpecifiedDirectives_missing (explicit : list GraphQLDirective) :
  addSpecifiedDirectives explicit = explicit ++ missingDirectives explicit.
Proof.
  unfold addSpecifiedDirectives, missingDirectives, specifiedDirectives.
  cbn [filter directive_name].
  destruct (hasDirective "skip" explicit) eqn:S;
    destruct (hasDirective "include" explicit) eqn:I;
    destruct (hasDirective "deprecated" explicit) eqn:D;
    cbn -[hasDirective app];
    repeat (rewrite ?hasDirective_snoc, ?S, ?I, ?D; cbn -[hasDirective app]);
    rewrite <- ?app_assoc, ?app_nil_r; reflexivity.
Qed.

(** The directive set of a build: the directives made from the directive
    definitions, one for each definition in document order (two definitions
    of one name give two directives), then those of skip, include and
    deprecated that no definition names, in this order; so each of the three
    names is always there. *)
Theorem directives_of_build :
  forall (fuel : nat) (definitions : list DefinitionNode)
         (cfg : SchemaConfig) (st : State),
    buildFromDefinitions getArgumentValues fuel definitions = Ok cfg st ->
    exists explicit,
      directives cfg = explicit ++ missingDirectives explicit
      /\ Forall2 madeFrom (directiveDefinitions definitions) explicit
      /\ hasDirective "skip" (directives cfg) = true
      /\ hasDirective "include" (directives cfg) = true
      /\ hasDirective "deprecated" (directives cfg) = true.
Proof.
  intros fuel definitions cfg st H.
  destruct (build_extends _ _ _ _ _ H) as [_ [_ [explicit [D F]]]].
  exists explicit. rewrite D, addSpecifiedDirectives_missing.
  split; [reflexivity|]. split; [exact F|].
  unfold missingDirectives, specifiedDirectives. cbn [filter directive_name].
  rewrite !hasDirective_app.
  destruct (hasDirective "skip" explicit) eqn:S;
    destruct (hasDirective "include" explicit) eqn:I;
    destruct (hasDirective "deprecated" explicit) eqn:E;
    cbn -[hasDirective app]; rewrite ?S, ?I, ?E;
    repeat split; reflexivity.
Qed.

(** *** Resolving a name twice *)

Lemma innerTypeMap_get_None (st : State) (n : string) :
  innerTypeMap_get st n = None ->
  mem n specifiedTypeNames = false
  /\ lookup n (innerTypeMap st) = None
  /\ mem n objectPrototypeKeys = false.
Proof.
  unfold innerTypeMap_get. destruct (mem n specifiedTypeNames); [discriminate|].
  destruct (lookup n (innerTypeMap st)); [discriminate|].
  destruct (mem n objectPrototypeKeys); [discriminate|]. tauto.
Qed.

Lemma innerTypeMap_get_ext (st st' : State) (n : string) :
  innerTypeMap st' = innerTypeMap st ->
  innerTypeMap_get st' n = innerTypeMap_get st n.
Proof. intros H. unfold innerTypeMap_get. rewrite H. reflexivity. Qed.

Lemma typeDefNamed_hit (nodeMap : list (string * TypeDefinitionNode))
    (fuel : nat) (n : string) (node : ASTNode) (st : State)
    (t : GraphQLNamedType) :
  innerTypeMap_get st n = Some t ->
  typeDefNamed getArgumentValues nodeMap fuel n node st = Ok (Some t) st.
Proof.
  intros H. destruct fuel; cbn [typeDefNamed]; rewrite H; reflexivity.
Qed.

(** A name that resolved to a type resolves to the same type from then on,
    with any fuel and from any place, and that leaves the state as it is: no
    second object, no diagnostic. *)
Theorem typeDefNamed_memoized :
  forall (nodeMap : list (string * TypeDefinitionNode)) (fuel : nat)
         (n : string) (node : ASTNode) (st st' : State) (t : GraphQLNamedType),
    typeDefNamed getArgumentValues nodeMap fuel n node st = Ok (Some t) st' ->
    forall (fuel' : nat) (node' : ASTNode),
      typeDefNamed getArgumentValues nodeMap fuel' n node' st' = Ok (Some t) st'.
Proof.
  intros nodeMap fuel n node st st' t H fuel' node'.
  apply typeDefNamed_hit.
  destruct fuel; cbn [typeDefNamed] in H;
    destruct (innerTypeMap_get st n) as [t0|] eqn:G;
    try (injection H as <- <-; exact G);
    destruct (lookup n nodeMap) as [def|]; try discriminate.
  apply bind_inv in H. destruct H as [addr [s1 [_ H]]].
  apply bind_inv in H. destruct H as [u [s2 [C H]]].
  unfold ret in H. injection H as <- <-.
  unfold cache in C. injection C as _ <-.
  destruct (innerTypeMap_get_None _ _ G) as [S1 _].
  unfold innerTypeMap_get. rewrite S1. cbn [innerTypeMap].
  rewrite lookup_assign_same. reflexivity.
Qed.

(** *** A type of the wrong kind *)

(** What each [produce...Type] does with a name that resolves to [t]: the
    type is [t] under the modifiers of the reference, whether it passes the
    test of the function or not; when it does not, the diagnostic of the
    function is pushed and [t] is returned all the same, no placeholder in
    its stead. *)
Theorem produce_resolved :
  forall (resolve : string -> ASTNode -> M (option GraphQLNamedType))
         (typeNode : TypeNode) (st st' : State) (t : GraphQLNamedType),
    resolve (name_value (nt_name (getNamedTypeNode typeNode)))
            (TypeRef (getNamedTypeNode typeNode)) st = Ok (Some t) st' ->
    noNonNullInNonNull typeNode = true ->
    let type := wrap (modifiersOf typeNode) (Named t) in
    let after (test : State -> GraphQLType -> bool) (expected : string) :=
      if test st' type then st'
      else pushed st' [expectedError expected typeNode] in
    produceInputType resolve typeNode st
    = Ok type (after isInputType "Expected Input type.")
    /\ produceOutputType resolve typeNode st
       = Ok type (after isOutputType "Expected Output type.")
    /\ produceObjectType resolve typeNode st
       = Ok type (after instanceof_GraphQLObjectType "Expected Object type.")
    /\ produceInterfaceType resolve typeNode st
       = Ok type (after instanceof_GraphQLInterfaceType "Expected Interface type.").
Proof.
  intros resolve typeNode st st' t H Hwf type after.
  assert (G : forall slot test expected,
             produceChecked resolve slot test expected typeNode st
             = Ok type (after test expected)).
  { intros slot test expected. unfold produceChecked, produceType, bind.
    rewrite H. unfold lift.
    rewrite buildWrappedType_wrap by (reflexivity || assumption).
    unfold getState, after. fold type.
    destruct (test st' type); reflexivity. }
  repeat split; apply G.
Qed.

End MoreBuilders.

(** [union U = S] where [S] is a scalar that is built already: the member is
    the scalar itself, with a diagnostic. *)
Lemma produce_resolved_witness :
  let scalar := ScalarTypeDefinition (Samples.nm "S") None in
  let st := mkState [] [("S", 0)] [GraphQLScalarType "S" scalar None] in
  produceObjectType (typeDefNamed literalArgumentValues [("S", scalar)] 0)
    (Samples.ref "S") st
  = Ok (Named (Instance 0))
       (pushed st [expectedError "Expected Object type." (Samples.ref "S")]).
Proof.
  intros scalar st.
  exact (proj1 (proj2 (proj2
           (produce_resolved (typeDefNamed literalArgumentValues [("S", scalar)] 0)
              (Samples.ref "S") st st (Instance 0) eq_refl eq_refl)))).
Defined.

Lemma typeDefNamed_memoized_witness :
  let def := Samples.object "T" [Samples.field "a" "Int"] in
  let st' := mkState [] [("T", 0)] [GraphQLObjectType "T" def None] in
  typeDefNamed literalArgumentValues [("T", def)] 0 "T"
    (TypeRef (Samples.named "T")) st'
  = Ok (Some (Instance 0)) st'.
Proof.
  intros def st'.
  exact (typeDefNamed_memoized literalArgumentValues [("T", def)] 1 "T"
           (DefNode def) initialState st' (Instance 0) eq_refl 0
           (TypeRef (Samples.named "T"))).
Defined.

Lemma directives_of_build_witness :
  exists cfg st,
    buildFromDefinitions literalArgumentValues 1 Samples.ownDeprecated = Ok cfg st
    /\ hasDirective "skip" (directives cfg) = true
    /\ hasDirective "deprecated" (directives cfg) = true.
Proof.
  destruct (buildFromDefinitions literalArgumentValues 1 Samples.ownDeprecated)
    as [cfg st| |] eqn:E; try (vm_compute in E; discriminate).
  destruct (directives_of_build literalArgumentValues 1 _ cfg st E)
    as [explicit [_ [_ [H1 [_ H3]]]]].
  exists cfg, st. split; [reflexivity|]. split; [exact H1 | exact H3].
Defined.

(* ------------------------------------------------------------------ *)
(** ** Unions, enums and field maps *)

Section UnionsAndEnums.

Variable getArgumentValues :
  GraphQLDirective -> DirectiveNode -> Exn + list (string * Value).
Variable nodeMap : list (string * TypeDefinitionNode).

Local Abbreviation resolveWith fuel := (typeDefNamed getArgumentValues nodeMap fuel).

Lemma pushed_pushed (st : State) (es1 es2 : list GQLError) :
  pushed (pushed st es1) es2 = pushed st (es1 ++ es2).
Proof. unfold pushed. simpl. rewrite app_assoc. reflexivity. Qed.

Lemma produceObjectType_unknown (fuel : nat) (m : NamedTypeNode) (st : State) :
  innerTypeMap_get st (name_value (nt_name m)) = None ->
  lookup (name_value (nt_name m)) nodeMap = None ->
  produceObjectType (resolveWith fuel) (NamedType m) st
  = Ok (Named (Placeholder objectType)) (pushed st [notFoundError m]).
Proof.
  intros H1 H2. unfold produceObjectType, produceChecked, produceType, bind.
  cbn [getNamedTypeNode]. rewrite (typeDefNamed_not_found _ _ fuel _ _ st H1 H2).
  reflexivity.
Qed.

Lemma mapM_unknown (fuel : nat) :
  forall (members : list NamedTypeNode) (st : State),
    (forall m, In m members ->
       innerTypeMap_get st (name_value (nt_name m)) = None
       /\ lookup (name_value (nt_name m)) nodeMap = None) ->
    mapM (fun t => produceObjectType (resolveWith fuel) (NamedType t)) members st
    = Ok (map (fun _ => Named (Placeholder objectType)) members)
         (pushed st (map notFoundError members)).
Proof.
  induction members as [|m members IH]; intros st H.
  - simpl. unfold ret, pushed. rewrite app_nil_r. destruct st; reflexivity.
  - cbn [mapM map]. unfold bind at 1.
    destruct (H m (or_introl eq_refl)) as [H1 H2].
    rewrite (produceObjectType_unknown fuel m st H1 H2).
    unfold bind at 1. rewrite IH.
    + unfold ret. rewrite pushed_pushed. reflexivity.
    + intros m' Hm'. destruct (H m' (or_intror Hm')) as [G1 G2].
      split; [|exact G2]. rewrite <- G1. apply innerTypeMap_get_ext. reflexivity.
Qed.

(** A union all of whose members name types without definition is built
    all the same: each member is the object placeholder, and each reference
    brings its own "not found" diagnostic, in the order of the members (a
    name listed twice is reported twice). *)
Theorem union_of_unknown_members :
  forall (fuel : nat) (U : string) (name : NameNode)
         (members : list NamedTypeNode) (loc : option Location)
         (node : ASTNode) (st : State),
    lookup U nodeMap = Some (UnionTypeDefinition name members loc) ->
    innerTypeMap_get st U = None ->
    (forall m, In m members ->
       innerTypeMap_get st (name_value (nt_name m)) = None
       /\ lookup (name_value (nt_name m)) nodeMap = None) ->
    typeDefNamed getArgumentValues nodeMap (S fuel) U node st
    = Ok (Some (Instance (List.length (heap st))))
         (mkState (errors st ++ map notFoundError members)
            (assign U (List.length (heap st)) (innerTypeMap st))
            (heap st ++ [GraphQLUnionType (name_value name)
                           (UnionTypeDefinition name members loc)
                           (getDescription loc)
                           (map (fun _ => Named (Placeholder objectType)) members)])).
Proof.
  intros fuel U name members loc node st L G H.
  cbn [typeDefNamed]. rewrite G, L.
  unfold bind at 1. cbn [makeSchemaDef]. unfold makeUnionDef, bind at 1.
  rewrite (mapM_unknown fuel members st H). reflexivity.
Qed.

(** *** A union among its own members *)

Lemma settled_ext (st st' : State) (m : NamedTypeNode) :
  innerTypeMap st' = innerTypeMap st ->
  settled nodeMap st m -> settled nodeMap st' m.
Proof.
  intros E [H|H]; [left | right; exact H].
  rewrite (innerTypeMap_get_ext _ _ _ E). exact H.
Qed.

Lemma produceObjectType_settled (fuel : nat) (m : NamedTypeNode) (st : State) :
  settled nodeMap st m ->
  exists type st',
    produceObjectType (resolveWith fuel) (NamedType m) st = Ok type st'
    /\ innerTypeMap st' = innerTypeMap st.
Proof.
  intros H.
  destruct (innerTypeMap_get st (name_value (nt_name m))) as [t|] eqn:G.
  - unfold produceObjectType, produceChecked, produceType, bind.
    cbn [getNamedTypeNode].
    rewrite (typeDefNamed_hit _ _ fuel _ _ _ _ G). cbn [lift buildWrappedType].
    unfold getState.
    destruct (instanceof_GraphQLObjectType st (Named t));
      eexists; eexists; split; reflexivity.
  - destruct H as [H|H]; [congruence|].
    rewrite (produceObjectType_unknown fuel m st G H).
    eexists. eexists. split; reflexivity.
Qed.

Lemma mapM_diverges (fuel : nat) (self : NamedTypeNode) (post : list NamedTypeNode) :
  forall (pre : list NamedTypeNode) (st : State),
    Forall (settled nodeMap st) pre ->
    (forall st', innerTypeMap st' = innerTypeMap st ->
       produceObjectType (resolveWith fuel) (NamedType self) st' = OutOfFuel) ->
    mapM (fun t => produceObjectType (resolveWith fuel) (NamedType t))
         (pre ++ self :: post) st = OutOfFuel.
Proof.
  induction pre as [|m pre IH]; intros st Hpre Hself.
  - cbn [app mapM]. unfold bind. rewrite (Hself st eq_refl). reflexivity.
  - inversion Hpre as [|? ? Hm Hrest]; subst.
    destruct (produceObjectType_settled fuel m st Hm) as [type [st' [E I]]].
    cbn [app mapM]. unfold bind at 1. rewrite E. unfold bind at 1.
    rewrite IH; [reflexivity| |].
    + revert Hrest. apply Forall_impl. intros a. apply settled_ext. exact I.
    + intros st'' E''. apply Hself. congruence.
Qed.

(** A union that has its own name among its members, after members that
    are settled (in [innerTypeMap] already, or without definition), never
    resolves: every depth of fuel is used up. *)
Theorem self_union_diverges :
  forall (n : string) (name : NameNode) (pre : list NamedTypeNode)
         (self : NamedTypeNode) (post : list NamedTypeNode)
         (loc : option Location),
    lookup n nodeMap = Some (UnionTypeDefinition name (pre ++ self :: post) loc) ->
    name_value (nt_name self) = n ->
    forall (fuel : nat) (node : ASTNode) (st : State),
      innerTypeMap_get st n = None ->
      Forall (settled nodeMap st) pre ->
      typeDefNamed getArgumentValues nodeMap fuel n node st = OutOfFuel.
Proof.
  intros n name pre self post loc L Hself.
  induction fuel as [|fuel IH]; intros node st G Hpre;
    cbn [typeDefNamed]; rewrite G, L; [reflexivity|].
  unfold bind at 1. cbn [makeSchemaDef]. unfold makeUnionDef, bind at 1.
  rewrite mapM_diverges; [reflexivity | exact Hpre |].
  intros st' E. unfold produceObjectType, produceChecked, produceType, bind.
  cbn [getNamedTypeNode]. rewrite Hself. rewrite IH; [reflexivity| |].
  - rewrite (innerTypeMap_get_ext _ _ _ E). exact G.
  - revert Hpre. apply Forall_impl. intros a. apply settled_ext. exact E.
Qed.

(** *** An exception of [getArgumentValues] *)

Lemma bind_Throw (A B : Type) (m : M A) (f : A -> M B) (st : State) (e : Exn) :
  m st = Throw e -> bind m f st = Throw e.
Proof. intros H. unfold bind. rewrite H. reflexivity. Qed.

Lemma keyValMap_throws (e : Exn) (v : EnumValueDefinitionNode)
    (post : list EnumValueDefinitionNode) :
  getDeprecationReason getArgumentValues (ev_directives v) = inl e ->
  forall (pre : list EnumValueDefinitionNode)
         (map : list (string * EnumValueConfig)) (st : State),
    (forall p, In p pre ->
       exists r, getDeprecationReason getArgumentValues (ev_directives p) = inr r) ->
    keyValMap_from map (pre ++ v :: post)
      (fun enumValue => name_value (ev_name enumValue))
      (fun enumValue =>
         let description := getDescription (ev_loc enumValue) in
         deprecationReason <-
           lift (getDeprecationReason getArgumentValues (ev_directives enumValue)) ;;
         ret (mkEnumValueConfig description deprecationReason enumValue)) st
    = Throw e.
Proof.
  intros Hv. induction pre as [|p pre IH]; intros map st Hpre.
  - cbn [app keyValMap_from]. unfold bind, lift. rewrite Hv. reflexivity.
  - cbn [app keyValMap_from]. unfold bind at 1. unfold bind at 1. unfold lift at 1.
    destruct (Hpre p (or_introl eq_refl)) as [r Hr]. rewrite Hr. unfold ret at 1.
    apply IH. intros q Hq. apply Hpre. right. exact Hq.
Qed.

(** When [getArgumentValues] throws on the deprecated directive of an enum
    value, the values before it being read without exception, the resolution
    of the enum throws that exception: nothing is pushed, built or put in
    [innerTypeMap]. *)
Theorem enum_deprecation_throws :
  forall (fuel : nat) (n : string) (name : NameNode)
         (pre : list EnumValueDefinitionNode) (v : EnumValueDefinitionNode)
         (post : list EnumValueDefinitionNode) (loc : option Location)
         (node : ASTNode) (st : State) (e : Exn),
    lookup n nodeMap = Some (EnumTypeDefinition name (pre ++ v :: post) loc) ->
    innerTypeMap_get st n = None ->
    (forall p, In p pre ->
       exists r, getDeprecationReason getArgumentValues (ev_directives p) = inr r) ->
    getDeprecationReason getArgumentValues (ev_directives v) = inl e ->
    typeDefNamed getArgumentValues nodeMap (S fuel) n node st = Throw e.
Proof.
  intros fuel n name pre v post loc node st e L G Hpre Hv.
  cbn [typeDefNamed]. rewrite G, L.
  apply bind_Throw. cbn [makeSchemaDef]. unfold makeEnumDef.
  apply bind_Throw. unfold keyValMap.
  exact (keyValMap_throws e v post Hv pre [] st Hpre).
Qed.

End UnionsAndEnums.

Section FieldMaps.

(** [keyValMap]: an entry of the result is an entry of the map it started
    from whose key no item has, or the value made for the last item of its
    key. *)
Lemma keyValMap_last (A V : Type) (keyFn : A -> string) (valFn : A -> M V) :
  forall (items : list A) (map : list (string * V)) (st : State)
         (res : list (string * V)) (st' : State),
    keyValMap_from map items keyFn valFn st = Ok res st' ->
    (NoDup (List.map fst map) -> NoDup (List.map fst res))
    /\ forall k v, lookup k res = Some v ->
         (lookup k map = Some v /\ forall y, In y items -> keyFn y <> k)
         \/ exists pre x post s s',
              items = pre ++ x :: post /\ keyFn x = k
              /\ (forall y, In y post -> keyFn y <> k)
              /\ valFn x s = Ok v s'.
Proof.
  induction items as [|x items IH]; intros map st res st' H.
  - injection H as <- _. split; [trivial|]. intros k v L. left.
    split; [exact L | intros y []].
  - cbn [keyValMap_from] in H. apply bind_inv in H.
    destruct H as [v0 [s1 [Hx H]]].
    destruct (IH _ _ _ _ H) as [Hnd Hlast]. split.
    + intros Hm. apply Hnd. apply NoDup_assign. exact Hm.
    + intros k v L. destruct (Hlast k v L) as [[Lm Hno]|Hex].
      * destruct (String.eqb k (keyFn x)) eqn:E.
        -- apply String.eqb_eq in E. subst k. rewrite lookup_assign_same in Lm.
           injection Lm as <-. right.
           exists [], x, items, st, s1. repeat split; trivial.
        -- apply String.eqb_neq in E. rewrite lookup_assign_other in Lm by exact E.
           left. split; [exact Lm|]. intros y [<-|Hy]; [congruence | exact (Hno y Hy)].
      * destruct Hex as [pre [x' [post [s [s' [E [Hk [Hpost Hv]]]]]]]].
        right. exists (x :: pre), x', post, s, s'. rewrite E.
        repeat split; trivial.
Qed.


End FieldMaps.

Lemma union_of_unknown_members_witness :
  typeDefNamed literalArgumentValues
    [("U", Samples.union "U" ["Bogus"; "Bogus"])] 1 "U"
    (DefNode (Samples.union "U" ["Bogus"; "Bogus"])) initialState
  = Ok (Some (Instance 0))
       (mkState [notFoundError (Samples.named "Bogus");
                 notFoundError (Samples.named "Bogus")]
          [("U", 0)]
          [GraphQLUnionType "U" (Samples.union "U" ["Bogus"; "Bogus"]) None
             [Named (Placeholder objectType); Named (Placeholder objectType)]]).
Proof.
  refine (union_of_unknown_members literalArgumentValues
            [("U", Samples.union "U" ["Bogus"; "Bogus"])] 0 "U"
            (Samples.nm "U") (map Samples.named ["Bogus"; "Bogus"]) None _
            initialState eq_refl eq_refl _).
  intros m [<-|[<-|[]]]; split; reflexivity.
Defined.

Lemma self_union_diverges_witness :
  typeDefNamed literalArgumentValues
    [("U", Samples.union "U" ["Int"; "U"])] 5 "U"
    (DefNode (Samples.union "U" ["Int"; "U"])) initialState
  = OutOfFuel.
Proof.
  refine (self_union_diverges literalArgumentValues
            [("U", Samples.union "U" ["Int"; "U"])] "U" (Samples.nm "U")
            [Samples.named "Int"] (Samples.named "U") [] None eq_refl eq_refl
            5 _ initialState eq_refl _).
  constructor; [left; discriminate | constructor].
Defined.

(** [enum E { A @deprecated(reason: 1) }]: the integer is no string. *)
Lemma enum_deprecation_throws_witness :
  let bad := mkEnumValue (Samples.nm "A")
               (Some [mkDirectiveNode (Samples.nm "deprecated")
                        [mkArgument (Samples.nm "reason") (IntValue "1")]])
               None in
  let def := EnumTypeDefinition (Samples.nm "E") [bad] None in
  typeDefNamed literalArgumentValues [("E", def)] 1 "E" (DefNode def) initialState
  = Throw (LibraryError "Argument got invalid value.").
Proof.
  intros bad def.
  refine (enum_deprecation_throws literalArgumentValues [("E", def)] 0 "E"
            (Samples.nm "E")
            [] bad [] None _ initialState _ eq_refl eq_refl _ eq_refl).
  intros p [].
Defined.


(* ------------------------------------------------------------------ *)
(** * The heap and [innerTypeMap] fit together *)

Section CoherenceProperties.

Variable getArgumentValues :
  GraphQLDirective -> DirectiveNode -> Exn + list (string * Value).
Variable nodeMap : list (string * TypeDefinitionNode).

Hypothesis nodeMap_keys :
  forall (k : string) (d : TypeDefinitionNode),
    lookup k nodeMap = Some d -> name_value (def_name d) = k.

Lemma grows_refl (st : State) : grows st st.
Proof. exists []. symmetry. apply app_nil_r. Qed.

Lemma grows_trans (st1 st2 st3 : State) :
  grows st1 st2 -> grows st2 st3 -> grows st1 st3.
Proof.
  intros [a Ha] [b Hb]. exists (a ++ b). rewrite Hb, Ha, app_assoc. reflexivity.
Qed.

Lemma grows_same (st st' : State) : heap st' = heap st -> grows st st'.
Proof. intros H. exists []. rewrite app_nil_r. exact H. Qed.

Lemma nth_error_grows (st st' : State) (a : nat) (o : TypeObject) :
  grows st st' ->
  nth_error (heap st) a = Some o -> nth_error (heap st') a = Some o.
Proof.
  intros [os H] E. rewrite H, nth_error_app1; [exact E|].
  apply nth_error_Some. congruence.
Qed.

Lemma validNamed_grows (st st' : State) (t : GraphQLNamedType) :
  grows st st' -> validNamed st t -> validNamed st' t.
Proof.
  intros [os H] V. destruct t; simpl in *; try exact I.
  rewrite H, length_app. lia.
Qed.

Lemma validType_grows (st st' : State) (type : GraphQLType) :
  grows st st' -> validType st type -> validType st' type.
Proof. apply validNamed_grows. Qed.

Lemma membersValid_grows (st st' : State) (o : TypeObject) :
  grows st st' -> membersValid st o -> membersValid st' o.
Proof.
  intros G. destruct o; simpl; auto.
  apply Forall_impl. intros type. apply validType_grows. exact G.
Qed.

Lemma resolvedFor_grows (st st' : State) (n : string) (t : GraphQLNamedType) :
  grows st st' -> resolvedFor st n t -> resolvedFor st' n t.
Proof.
  intros G R. destruct t; simpl in *; try exact R.
  destruct R as [o [E N]]. exists o.
  split; [exact (nth_error_grows _ _ _ _ G E) | exact N].
Qed.

Lemma resolvedFor_valid (st : State) (n : string) (t : GraphQLNamedType) :
  resolvedFor st n t -> validNamed st t.
Proof.
  destruct t; simpl; try (intros; exact I).
  intros [o [E _]]. apply nth_error_Some. congruence.
Qed.

Lemma coherent_ext (st st' : State) :
  innerTypeMap st' = innerTypeMap st -> heap st' = heap st ->
  coherent nodeMap st -> coherent nodeMap st'.
Proof.
  intros Hm Hh [C1 [C2 C3]]. unfold coherent. rewrite Hm, Hh.
  split; [exact C1|]. split; [exact C2|].
  revert C3. apply Forall_impl. intros o.
  apply membersValid_grows, grows_same, Hh.
Qed.

Lemma coherent_alloc (st : State) (o : TypeObject) :
  wellMade nodeMap o -> membersValid st o -> coherent nodeMap st ->
  coherent nodeMap (mkState (errors st) (innerTypeMap st) (heap st ++ [o])).
Proof.
  intros W V [C1 [C2 C3]].
  assert (G : grows st (mkState (errors st) (innerTypeMap st) (heap st ++ [o])))
    by (exists [o]; reflexivity).
  split; [|split]; cbn [innerTypeMap heap].
  - intros n a L. destruct (C1 n a L) as [o' [E N]]. exists o'.
    split; [exact (nth_error_grows _ _ _ _ G E) | exact N].
  - apply Forall_app. split; [exact C2|]. constructor; [exact W | constructor].
  - apply Forall_app. split.
    + revert C3. apply Forall_impl. intros o'. apply membersValid_grows, G.
    + constructor; [|constructor]. exact (membersValid_grows _ _ _ G V).
Qed.

Lemma coherent_cache (st : State) (n : string) (a : nat) (o : TypeObject) :
  nth_error (heap st) a = Some o -> obj_name o = n ->
  coherent nodeMap st ->
  coherent nodeMap (mkState (errors st) (assign n a (innerTypeMap st)) (heap st)).
Proof.
  intros E N [C1 [C2 C3]]. split; [|split]; cbn [innerTypeMap heap].
  - intros n' a' L. destruct (String.eqb n' n) eqn:En.
    + apply String.eqb_eq in En. subst n'. rewrite lookup_assign_same in L.
      injection L as <-. exists o. split; assumption.
    + apply String.eqb_neq in En. rewrite lookup_assign_other in L by exact En.
      exact (C1 n' a' L).
  - exact C2.
  - revert C3. apply Forall_impl. intros o'.
    apply membersValid_grows, grows_same. reflexivity.
Qed.

Lemma innerTypeMap_get_resolved (st : State) (n : string) (t : GraphQLNamedType) :
  coherent nodeMap st -> innerTypeMap_get st n = Some t -> resolvedFor st n t.
Proof.
  intros [C1 _]. unfold innerTypeMap_get.
  destruct (mem n specifiedTypeNames) eqn:S.
  - intros [= <-]. split; [reflexivity | exact S].
  - destruct (lookup n (innerTypeMap st)) as [a|] eqn:L.
    + intros [= <-]. exact (C1 n a L).
    + destruct (mem n objectPrototypeKeys) eqn:P; [|discriminate].
      intros [= <-]. split; [reflexivity | exact P].
Qed.

(** ** Computations that keep the state coherent *)

Lemma keeps_ret (A : Type) (a : A) : keeps nodeMap (ret a).
Proof.
  intros st b st' H. injection H as _ <-. split; [apply grows_refl | auto].
Qed.

Lemma keeps_lift (A : Type) (r : Exn + A) : keeps nodeMap (lift r).
Proof.
  intros st b st' H. unfold lift in H. destruct r; [discriminate|].
  injection H as _ <-. split; [apply grows_refl | auto].
Qed.

Lemma keeps_pushError (e : GQLError) : keeps nodeMap (pushError e).
Proof.
  intros st b st' H. injection H as _ <-.
  split; [apply grows_same; reflexivity|].
  apply coherent_ext; reflexivity.
Qed.

Lemma keeps_bind (A B : Type) (m : M A) (f : A -> M B) :
  keeps nodeMap m -> (forall a, keeps nodeMap (f a)) -> keeps nodeMap (bind m f).
Proof.
  intros Hm Hf st b st' H. apply bind_inv in H. destruct H as [a [s1 [H1 H2]]].
  destruct (Hm _ _ _ H1) as [G1 K1]. destruct (Hf _ _ _ _ H2) as [G2 K2].
  split; [exact (grows_trans _ _ _ G1 G2) | auto].
Qed.

Lemma keeps_mapM (A B : Type) (f : A -> M B) :
  (forall x, keeps nodeMap (f x)) -> forall l, keeps nodeMap (mapM f l).
Proof.
  intros Hf. induction l as [|x l IH]; cbn [mapM]; [apply keeps_ret|].
  apply keeps_bind; [apply Hf|]. intros y.
  apply keeps_bind; [exact IH|]. intros ys. apply keeps_ret.
Qed.

Lemma keeps_keyValMap (A V : Type) (keyFn : A -> string) (valFn : A -> M V) :
  (forall x, keeps nodeMap (valFn x)) ->
  forall items, keeps nodeMap (keyValMap items keyFn valFn).
Proof.
  intros Hf items. unfold keyValMap. generalize (@nil (string * V)).
  induction items as [|x l IH]; intros acc; cbn [keyValMap_from];
    [apply keeps_ret|].
  apply keeps_bind; [apply Hf|]. intros v. apply IH.
Qed.

Lemma keepsType_keeps (m : M GraphQLType) :
  keepsType nodeMap m -> keeps nodeMap m.
Proof.
  intros Hm st a st' H. destruct (Hm _ _ _ H) as [G K].
  split; [exact G|]. intros C. exact (proj1 (K C)).
Qed.

Lemma buildWrappedType_named (innerType : GraphQLType) :
  forall (typeNode : TypeNode) (type : GraphQLType),
    buildWrappedType innerType typeNode = inr type ->
    getNamedType type = getNamedType innerType.
Proof.
  induction typeNode as [n|t IH|t IH]; intros type H; cbn [buildWrappedType] in H.
  - injection H as <-. reflexivity.
  - destruct (buildWrappedType innerType t) as [e|w]; [discriminate|].
    injection H as <-. exact (IH w eq_refl).
  - destruct (buildWrappedType innerType t) as [e|w]; [discriminate|].
    destruct (is_GraphQLNonNull w); [discriminate|].
    injection H as <-. exact (IH w eq_refl).
Qed.

Lemma alloc_spec (o : TypeObject) (st st' : State) (addr : nat) :
  alloc o st = Ok addr st' ->
  wellMade nodeMap o ->
  grows st st'
  /\ (coherent nodeMap st -> membersValid st o ->
      coherent nodeMap st' /\ nth_error (heap st') addr = Some o).
Proof.
  intros H W. unfold alloc in H. injection H as <- <-.
  split; [exists [o]; reflexivity|]. intros C V.
  split; [exact (coherent_alloc _ _ W V C)|]. cbn [heap].
  rewrite nth_error_app2, Nat.sub_diag by lia. reflexivity.
Qed.

Section WithResolver.

Variable resolve : string -> ASTNode -> M (option GraphQLNamedType).
Hypothesis resolve_spec : resolverSpec nodeMap resolve.

Lemma produceType_keepsType (typeNode : TypeNode) (slot : PlaceholderSlot) :
  keepsType nodeMap (produceType resolve typeNode (Named (Placeholder slot))).
Proof.
  intros st type st' H. unfold produceType in H.
  apply bind_inv in H. destruct H as [found [s1 [H1 H2]]].
  destruct (resolve_spec _ _ _ _ _ H1) as [G K].
  unfold lift in H2.
  destruct (buildWrappedType _ typeNode) as [e|w] eqn:W; [discriminate|].
  injection H2 as <- <-. split; [exact G|]. intros C.
  destruct (K C) as [C1 R]. split; [exact C1|].
  unfold validType. rewrite (buildWrappedType_named _ _ _ W).
  destruct found as [t|]; cbn [getNamedType].
  - exact (resolvedFor_valid _ _ _ (R t eq_refl)).
  - exact I.
Qed.

Lemma produceChecked_keepsType (slot : PlaceholderSlot)
    (test : State -> GraphQLType -> bool) (expected : string)
    (typeNode : TypeNode) :
  keepsType nodeMap (produceChecked resolve slot test expected typeNode).
Proof.
  intros st type st' H. unfold produceChecked in H.
  apply bind_inv in H. destruct H as [type0 [s1 [H1 H]]].
  apply bind_inv in H. destruct H as [s [s1' [Hg H]]].
  unfold getState in Hg. injection Hg as <- <-.
  apply bind_inv in H. destruct H as [u [s2 [Hc H]]].
  injection H as <- <-.
  destruct (produceType_keepsType _ _ _ _ _ H1) as [G K].
  assert (Kc : grows s1 s2 /\ (coherent nodeMap s1 -> coherent nodeMap s2)).
  { destruct (test s1 type0).
    - exact (keeps_ret _ _ _ _ _ Hc).
    - exact (keeps_pushError _ _ _ _ Hc). }
  destruct Kc as [G2 K2]. split; [exact (grows_trans _ _ _ G G2)|].
  intros C. destruct (K C) as [C1 V]. split; [exact (K2 C1)|].
  exact (validType_grows _ _ _ G2 V).
Qed.

Lemma keeps_makeInputValues (values : list InputValueDefinitionNode) :
  keeps nodeMap (makeInputValues resolve values).
Proof.
  unfold makeInputValues. apply keeps_keyValMap. intros value.
  apply keeps_bind.
  - apply keepsType_keeps. apply produceChecked_keepsType.
  - intros type. apply keeps_ret.
Qed.

Lemma mapM_valid (A : Type) (f : A -> M GraphQLType) :
  (forall x, keepsType nodeMap (f x)) ->
  forall (l : list A) (st : State) (types : list GraphQLType) (st' : State),
    mapM f l st = Ok types st' ->
    grows st st'
    /\ (coherent nodeMap st ->
        coherent nodeMap st' /\ Forall (validType st') types).
Proof.
  intros Hf. induction l as [|x l IH]; intros st types st' H; cbn [mapM] in H.
  - injection H as <- <-. split; [apply grows_refl|]. intros C.
    split; [exact C | constructor].
  - apply bind_inv in H. destruct H as [y [s1 [H1 H]]].
    apply bind_inv in H. destruct H as [ys [s2 [H2 H]]].
    injection H as <- <-.
    destruct (Hf _ _ _ _ H1) as [G1 K1]. destruct (IH _ _ _ H2) as [G2 K2].
    split; [exact (grows_trans _ _ _ G1 G2)|]. intros C.
    destruct (K1 C) as [C1 V1]. destruct (K2 C1) as [C2 V2].
    split; [exact C2|]. constructor; [|exact V2].
    exact (validType_grows _ _ _ G2 V1).
Qed.

Lemma makeSchemaDef_coherent (def : TypeDefinitionNode) (st st' : State)
    (addr : nat) :
  lookup (defName def) nodeMap = Some def ->
  mem (defName def) specifiedTypeNames = false ->
  mem (defName def) objectPrototypeKeys = false ->
  makeSchemaDef getArgumentValues resolve def st = Ok addr st' ->
  grows st st'
  /\ (coherent nodeMap st ->
      coherent nodeMap st'
      /\ exists o, nth_error (heap st') addr = Some o
                   /\ obj_name o = defName def).
Proof.
  intros L S P H.
  assert (W : forall o, obj_name o = defName def -> obj_node o = def ->
                        obj_kind o = defKind def -> wellMade nodeMap o).
  { intros o N D K. unfold wellMade. rewrite N, D, K. tauto. }
  assert (simple : forall o,
             obj_name o = defName def -> obj_node o = def ->
             obj_kind o = defKind def ->
             (forall s, membersValid s o) ->
             alloc o st = Ok addr st' ->
             grows st st'
             /\ (coherent nodeMap st ->
                 coherent nodeMap st'
                 /\ exists o, nth_error (heap st') addr = Some o
                              /\ obj_name o = defName def)).
  { intros o N D K V Ha.
    destruct (alloc_spec _ _ _ _ Ha (W o N D K)) as [G Kc].
    split; [exact G|]. intros C. destruct (Kc C (V st)) as [C' E].
    split; [exact C'|]. exists o. split; assumption. }
  destruct def as [n l|n i f l|n f l|n ts l|n vs l|n f l];
    cbn [makeSchemaDef] in H.
  - revert H. unfold makeScalarDef. apply simple; solve [reflexivity | intros s; exact I].
  - revert H. unfold makeTypeDef. apply simple; solve [reflexivity | intros s; exact I].
  - revert H. unfold makeInterfaceDef. apply simple; solve [reflexivity | intros s; exact I].
  - unfold makeUnionDef in H.
    apply bind_inv in H. destruct H as [types [s1 [H1 H2]]].
    assert (Hm := mapM_valid _ _
                    (fun t => produceChecked_keepsType _ _ _ (NamedType t))
                    _ _ _ _ H1).
    destruct Hm as [G1 K1].
    destruct (alloc_spec _ _ _ _ H2) as [G2 K2]; [apply W; reflexivity|].
    split; [exact (grows_trans _ _ _ G1 G2)|]. intros C.
    destruct (K1 C) as [C1 V1]. destruct (K2 C1 V1) as [C2 E].
    split; [exact C2|]. eexists. split; [exact E | reflexivity].
  - unfold makeEnumDef in H.
    apply bind_inv in H. destruct H as [values [s1 [H1 H2]]].
    assert (Hk : keeps nodeMap
                   (keyValMap vs
                      (fun enumValue => name_value (ev_name enumValue))
                      (fun enumValue =>
                         deprecationReason <-
                           lift (getDeprecationReason getArgumentValues
                                   (ev_directives enumValue)) ;;
                         ret (mkEnumValueConfig
                                (getDescription (ev_loc enumValue))
                                deprecationReason enumValue)))).
    { apply keeps_keyValMap. intros x. apply keeps_bind; [apply keeps_lift|].
      intros a. apply keeps_ret. }
    destruct (Hk _ _ _ H1) as [G1 K1].
    destruct (alloc_spec _ _ _ _ H2) as [G2 K2]; [apply W; reflexivity|].
    split; [exact (grows_trans _ _ _ G1 G2)|]. intros C.
    destruct (K2 (K1 C) I) as [C2 E].
    split; [exact C2|]. eexists. split; [exact E | reflexivity].
  - revert H. unfold makeInputObjectDef. apply simple; solve [reflexivity | intros s; exact I].
Qed.

Lemma keeps_getDirective (directiveNode : DirectiveDefinitionNode) :
  keeps nodeMap (getDirective resolve directiveNode).
Proof.
  unfold getDirective. apply keeps_bind.
  - destruct (dd_arguments directiveNode) as [arguments|]; [|apply keeps_ret].
    apply keeps_bind; [apply keeps_makeInputValues|]. intros a. apply keeps_ret.
  - intros args. apply keeps_ret.
Qed.

Lemma getObjectType_coherent (node : TypeDefinitionNode) (st st' : State)
    (r : option GraphQLNamedType) :
  getObjectType resolve (Some node) st = Ok r st' ->
  grows st st'
  /\ (coherent nodeMap st ->
      coherent nodeMap st'
      /\ forall t, r = Some t -> resolvedFor st' (defName node) t).
Proof.
  intros H. unfold getObjectType in H.
  apply bind_inv in H. destruct H as [type [s1 [H1 H]]].
  apply bind_inv in H. destruct H as [s [s1' [Hg H]]].
  unfold getState in Hg. injection Hg as <- <-.
  apply bind_inv in H. destruct H as [u [s2 [Hc H]]].
  injection H as <- <-.
  destruct (resolve_spec _ _ _ _ _ H1) as [G K].
  assert (Kc : grows s1 s2 /\ (coherent nodeMap s1 -> coherent nodeMap s2)).
  { destruct (match type with Some t => _ | None => false end).
    - exact (keeps_ret _ _ _ _ _ Hc).
    - exact (keeps_pushError _ _ _ _ Hc). }
  destruct Kc as [G2 K2]. split; [exact (grows_trans _ _ _ G G2)|].
  intros C. destruct (K C) as [C1 R]. split; [exact (K2 C1)|].
  intros t Ht. exact (resolvedFor_grows _ _ _ _ G2 (R t Ht)).
Qed.

End WithResolver.

Lemma typeDefNamed_coherent :
  forall fuel : nat,
    resolverSpec nodeMap (typeDefNamed getArgumentValues nodeMap fuel).
Proof.
  induction fuel as [|fuel IH]; intros n node st r st' H;
    cbn [typeDefNamed] in H;
    (destruct (innerTypeMap_get st n) as [t|] eqn:G;
     [ injection H as <- <-; split; [apply grows_refl|]; intros C;
       split; [exact C|]; intros t' [= <-];
       exact (innerTypeMap_get_resolved _ _ _ C G) |]);
    (destruct (lookup n nodeMap) as [def|] eqn:L;
     [| apply bind_inv in H; destruct H as [u [s1 [H1 H]]];
        injection H as <- <-;
        destruct (keeps_pushError _ _ _ _ H1) as [G1 K1];
        split; [exact G1|]; intros C; split; [exact (K1 C)|];
        intros t [=] ]).
  - discriminate.
  - apply bind_inv in H. destruct H as [addr [s1 [H1 H]]].
    apply bind_inv in H. destruct H as [u [s2 [H2 H]]].
    injection H as <- <-. unfold cache in H2. injection H2 as _ <-.
    assert (N : defName def = n) by exact (nodeMap_keys _ _ L).
    destruct (innerTypeMap_get_None _ _ G) as [S [_ P]].
    rewrite <- N in L, S, P.
    destruct (makeSchemaDef_coherent _ IH _ _ _ _ L S P H1) as [G1 K1].
    split; [exact (grows_trans _ _ _ G1 (grows_same _ _ eq_refl))|].
    intros C. destruct (K1 C) as [C1 [o [E No]]]. rewrite N in No. split.
    + exact (coherent_cache _ _ _ _ E No C1).
    + intros t [= <-]. exists o. split; assumption.
Qed.

Lemma mapM_resolved (resolve : string -> ASTNode -> M (option GraphQLNamedType)) :
  resolverSpec nodeMap resolve ->
  forall (l : list TypeDefinitionNode) (st : State)
         (found : list (option GraphQLNamedType)) (st' : State),
    mapM (fun def => resolve (defName def) (DefNode def)) l st = Ok found st' ->
    grows st st'
    /\ (coherent nodeMap st ->
        coherent nodeMap st'
        /\ Forall2 (fun d r => forall t, r = Some t ->
                                         resolvedFor st' (defName d) t)
             l found).
Proof.
  intros Hr. induction l as [|x l IH]; intros st found st' H; cbn [mapM] in H.
  - injection H as <- <-. split; [apply grows_refl|]. intros C.
    split; [exact C | constructor].
  - apply bind_inv in H. destruct H as [y [s1 [H1 H]]].
    apply bind_inv in H. destruct H as [ys [s2 [H2 H]]].
    injection H as <- <-.
    destruct (Hr _ _ _ _ _ H1) as [G1 K1]. destruct (IH _ _ _ H2) as [G2 K2].
    split; [exact (grows_trans _ _ _ G1 G2)|]. intros C.
    destruct (K1 C) as [C1 R1]. destruct (K2 C1) as [C2 R2].
    split; [exact C2|]. constructor; [|exact R2].
    intros t Ht. exact (resolvedFor_grows _ _ _ _ G2 (R1 t Ht)).
Qed.

Lemma rootType_coherent (resolve : string -> ASTNode -> M (option GraphQLNamedType))
    (name : option string) (st st' : State) (r : option GraphQLNamedType) :
  resolverSpec nodeMap resolve ->
  rootType resolve nodeMap name st = Ok r st' ->
  grows st st'
  /\ (coherent nodeMap st ->
      coherent nodeMap st'
      /\ forall t, r = Some t ->
                   exists q, name = Some q /\ resolvedFor st' q t).
Proof.
  intros Hr H. unfold rootType in H.
  assert (none : ret None st = Ok r st' ->
                 grows st st'
                 /\ (coherent nodeMap st ->
                     coherent nodeMap st'
                     /\ forall t, r = Some t ->
                                  exists q, name = Some q /\ resolvedFor st' q t)).
  { intros E. injection E as <- <-. split; [apply grows_refl|].
    intros C. split; [exact C|]. intros t [=]. }
  destruct name as [q|]; [|exact (none H)].
  destruct (truthy (Some q)); [|exact (none H)].
  destruct (lookup q nodeMap) as [d|] eqn:L; [|discriminate].
  destruct (getObjectType_coherent _ Hr _ _ _ _ H) as [G K].
  split; [exact G|]. intros C. destruct (K C) as [C1 R]. split; [exact C1|].
  intros t Ht. exists q. split; [reflexivity|].
  unfold defName in R. rewrite (nodeMap_keys _ _ L) in R. exact (R t Ht).
Qed.

End CoherenceProperties.

(* ------------------------------------------------------------------ *)
(** * What a build leaves: the objects and the types of the schema *)

Section SchemaOfBuild.

Variable getArgumentValues :
  GraphQLDirective -> DirectiveNode -> Exn + list (string * Value).

Lemma firstDefinitions_first :
  forall (ds : list TypeDefinitionNode) (seen : list string)
         (d : TypeDefinitionNode),
    In d (firstDefinitions seen ds) ->
    hd_error (filter (fun d0 => String.eqb (name_value (def_name d0)) (defName d))
                ds)
    = Some d.
Proof.
  induction ds as [|x ds IH]; intros seen d H; cbn [firstDefinitions] in H;
    [destruct H|].
  cbn [filter]. fold (defName x).
  destruct (mem (defName x) seen) eqn:E.
  - pose proof (proj2 (firstDefinitions_NoDup ds seen) d H) as Hd.
    destruct (String.eqb (defName x) (defName d)) eqn:En.
    + apply String.eqb_eq in En. congruence.
    + exact (IH _ _ H).
  - destruct H as [<-|H].
    + rewrite String.eqb_refl. reflexivity.
    + pose proof (proj2 (firstDefinitions_NoDup ds (defName x :: seen)) d H)
        as Hd.
      cbn [mem existsb] in Hd. apply orb_false_iff in Hd.
      rewrite String.eqb_sym, (proj1 Hd). exact (IH _ _ H).
Qed.

Lemma typeDefs_lookup (definitions : list DefinitionNode) (d : TypeDefinitionNode) :
  In d (typeDefs (scanDefinitions definitions)) ->
  lookup (defName d) (nodeMap (scanDefinitions definitions)) = Some d.
Proof.
  rewrite scan_typeDefs, scan_nodeMap. apply firstDefinitions_first.
Qed.

Lemma resolved_object (nm : list (string * TypeDefinitionNode)) (st : State)
    (n : string) (d : TypeDefinitionNode) (a : nat) :
  coherent nm st -> lookup n nm = Some d ->
  resolvedFor st n (Instance a) ->
  exists o, nth_error (heap st) a = Some o
            /\ obj_name o = n /\ obj_node o = d /\ obj_kind o = defKind d.
Proof.
  intros [_ [C2 _]] L [o [E N]]. exists o.
  pose proof (proj1 (Forall_forall _ _) C2 o (nth_error_In _ _ E))
    as [_ [K [Lo _]]].
  rewrite N, L in Lo. injection Lo as Lo.
  rewrite K, <- Lo. repeat split; assumption.
Qed.

Lemma Forall2_both (A B : Type) (P Q : A -> B -> Prop) (l : list A) (l' : list B) :
  Forall2 P l l' -> Forall2 Q l l' -> Forall2 (fun a b => P a b /\ Q a b) l l'.
Proof.
  induction 1 as [|a b l l' Hp _ IH]; intros HQ; inversion HQ; subst;
    constructor; auto.
Qed.

Lemma Forall2_In_impl (A B : Type) (P Q : A -> B -> Prop) (l : list A)
    (l' : list B) :
  Forall2 P l l' -> (forall a b, In a l -> P a b -> Q a b) -> Forall2 Q l l'.
Proof.
  induction 1 as [|a b l l' Hp _ IH]; intros H; constructor.
  - apply H; [left; reflexivity | exact Hp].
  - apply IH. intros x y Hx. apply H. right. exact Hx.
Qed.

(** The states a build that returns goes through, each coherent. *)
Lemma build_coherent (fuel : nat) (definitions : list DefinitionNode)
    (cfg : SchemaConfig) (st : State) :
  buildFromDefinitions getArgumentValues fuel definitions = Ok cfg st ->
  let s := scanDefinitions definitions in
  let nm := nodeMap s in
  let resolve := typeDefNamed getArgumentValues nm fuel in
  let r := rootNames s in
  exists found st2 st3 st4,
    types cfg = filterBoolean found ++ specifiedScalars
    /\ Forall2 (fun d t => exists t', t = Some t'
                                      /\ resolvedFor st (defName d) t')
         (typeDefs s) found
    /\ coherent nm st2
    /\ rootType resolve nm (queryTypeName r) st2 = Ok (query cfg) st3
    /\ coherent nm st3
    /\ rootType resolve nm (mutationTypeName r) st3 = Ok (mutation cfg) st4
    /\ coherent nm st4
    /\ rootType resolve nm (subscriptionTypeName r) st4
       = Ok (subscription cfg) st
    /\ coherent nm st.
Proof.
  intros H s nm resolve r.
  destruct (build_inv _ _ _ _ _ H)
    as [found [explicit [st1 [st2 [st3 [st4
         [H1 [H2 [H3 [H4 [H5 [T _]]]]]]]]]]]].
  fold s in H1, H2, H3, H4, H5. fold nm in H1, H2, H3, H4, H5.
  fold resolve in H1, H2, H3, H4, H5. fold r in H3, H4, H5.
  assert (Hk : forall k d, lookup k nm = Some d -> name_value (def_name d) = k)
    by apply scan_nodeMap_keys.
  assert (Hr : resolverSpec nm resolve)
    by (apply typeDefNamed_coherent; exact Hk).
  assert (C0 : coherent nm (mkState (initialErrors definitions) [] [])).
  { split; [|split]; cbn [innerTypeMap heap]; try constructor.
    intros n a L. discriminate. }
  destruct (mapM_resolved nm resolve Hr _ _ _ _ H1) as [G1 K1].
  destruct (K1 C0) as [C1 R1].
  destruct (keeps_mapM nm _ _ _ (keeps_getDirective nm resolve Hr) _ _ _ _ H2)
    as [G2 K2].
  destruct (rootType_coherent nm Hk _ _ _ _ _ Hr H3) as [G3 K3].
  destruct (rootType_coherent nm Hk _ _ _ _ _ Hr H4) as [G4 K4].
  destruct (rootType_coherent nm Hk _ _ _ _ _ Hr H5) as [G5 K5].
  pose proof (K2 C1) as C2. destruct (K3 C2) as [C3 _].
  destruct (K4 C3) as [C4 _]. destruct (K5 C4) as [C5 _].
  exists found, st2, st3, st4.
  split; [exact T|]. split.
  { assert (F2 : Forall2 (fun d t => lookup (defName d) nm <> None -> t <> None)
                   (typeDefs s) found).
    { revert H1. apply mapM_Forall2. intros x s0 y s' Hx Hl.
      exact (typeDefNamed_some _ _ _ _ _ _ _ _ Hl Hx). }
    apply (Forall2_In_impl _ _ _ _ _ _ (Forall2_both _ _ _ _ _ _ R1 F2)).
    intros d t Hd [R N]. destruct t as [t'|].
    - exists t'. split; [reflexivity|].
      apply (resolvedFor_grows st1); [|exact (R t' eq_refl)].
      exact (grows_trans _ _ _ G2
               (grows_trans _ _ _ G3 (grows_trans _ _ _ G4 G5))).
    - exfalso. apply N; [|reflexivity].
      unfold nm, s. rewrite (typeDefs_lookup _ _ Hd). discriminate. }
  repeat (split; [assumption|]). exact C5.
Qed.

Lemma filterBoolean_Forall2 (A B : Type) (R : A -> B -> Prop)
    (l : list A) (found : list (option B)) :
  Forall2 (fun d t => exists t', t = Some t' /\ R d t') l found ->
  Forall2 R l (filterBoolean found).
Proof.
  induction 1 as [|d t l found [t' [-> Hr]] _ IH]; cbn [filterBoolean];
    constructor; assumption.
Qed.

(** In a build that returns, [types] holds, for each name that the
    document defines, in document order: the object made from the first
    definition of the name, of the class of that definition; or, for a name
    that [innerTypeMap] answers from the start, the specified type of that
    name or the property of [Object.prototype] of that name, whatever the
    definition says.  The five specified scalars follow. *)
Theorem types_built_as_defined :
  forall (fuel : nat) (definitions : list DefinitionNode)
         (cfg : SchemaConfig) (st : State),
    buildFromDefinitions getArgumentValues fuel definitions = Ok cfg st ->
    exists found,
      types cfg = found ++ specifiedScalars
      /\ Forall2 (builtAs st)
           (firstDefinitions [] (typeDefinitions definitions)) found.
Proof.
  intros fuel definitions cfg st H.
  destruct (build_coherent _ _ _ _ H)
    as [found [st2 [st3 [st4 [T [R [_ [_ [_ [_ [_ [_ C]]]]]]]]]]]].
  exists (filterBoolean found). split; [exact T|].
  rewrite <- scan_typeDefs. apply filterBoolean_Forall2.
  apply (Forall2_In_impl _ _ _ _ _ _ R). intros d t Hd [t' [-> Rt]].
  exists t'. split; [reflexivity|].
  pose proof (typeDefs_lookup _ _ Hd) as L.
  destruct t' as [n|a|n|slot]; cbn [builtAs resolvedFor] in *;
    try (destruct Rt as [-> M]; split; [reflexivity | exact M]);
    try exact Rt.
  destruct (resolved_object _ _ _ _ _ C L Rt) as [o [E [N [D K]]]].
  exists o. repeat split; assumption.
Qed.

(** A build that returns leaves the heap and [innerTypeMap] coherent:
    every entry of [innerTypeMap] is the address of an object of that name;
    every object has the name and the class of its definition, which is the
    one [nodeMap] holds for the name, and its name is neither the name of a
    specified type nor a property of [Object.prototype]; the members of every
    union, the entries of [types] and the three root types point to objects
    that exist. *)
Theorem schema_coherent :
  forall (fuel : nat) (definitions : list DefinitionNode)
         (cfg : SchemaConfig) (st : State),
    buildFromDefinitions getArgumentValues fuel definitions = Ok cfg st ->
    coherent (nodeMap (scanDefinitions definitions)) st
    /\ Forall (validNamed st) (types cfg)
    /\ forall t, In (Some t) [query cfg; mutation cfg; subscription cfg] ->
                 validNamed st t.
Proof.
  intros fuel definitions cfg st H.
  destruct (build_coherent _ _ _ _ H)
    as [found [st2 [st3 [st4 [T [R [C2 [H3 [C3 [H4 [C4 [H5 C]]]]]]]]]]]].
  set (nm := nodeMap (scanDefinitions definitions)) in *.
  assert (Hk : forall k d, lookup k nm = Some d -> name_value (def_name d) = k)
    by apply scan_nodeMap_keys.
  assert (Hr : resolverSpec nm (typeDefNamed getArgumentValues nm fuel))
    by (apply typeDefNamed_coherent; exact Hk).
  destruct (rootType_coherent nm Hk _ _ _ _ _ Hr H3) as [G3 K3].
  destruct (rootType_coherent nm Hk _ _ _ _ _ Hr H4) as [G4 K4].
  destruct (rootType_coherent nm Hk _ _ _ _ _ Hr H5) as [G5 K5].
  split; [exact C|]. split.
  - rewrite T. apply Forall_app. split.
    + clear -R. induction R as [|d t l f [t' [-> Hd]] _ IH];
        cbn [filterBoolean]; constructor; [|exact IH].
      exact (resolvedFor_valid _ _ _ Hd).
    + repeat constructor.
  - intros t [E|[E|[E|[]]]].
    + destruct (proj2 (K3 C2) t E) as [q [_ Rq]].
      apply (resolvedFor_valid _ q).
      exact (resolvedFor_grows _ _ _ _ (grows_trans _ _ _ G4 G5) Rq).
    + destruct (proj2 (K4 C3) t E) as [q [_ Rq]].
      apply (resolvedFor_valid _ q).
      exact (resolvedFor_grows _ _ _ _ G5 Rq).
    + destruct (proj2 (K5 C4) t E) as [q [_ Rq]].
      exact (resolvedFor_valid _ q _ Rq).
Qed.

(** *** A root that is not an object type *)

Lemma rootType_not_object (nm : list (string * TypeDefinitionNode))
    (fuel : nat) (q : string) (d : TypeDefinitionNode) (st st' : State)
    (r : option GraphQLNamedType) :
  (forall k d, lookup k nm = Some d -> name_value (def_name d) = k) ->
  coherent nm st ->
  rootType (typeDefNamed getArgumentValues nm fuel) nm (Some q) st = Ok r st' ->
  q <> EmptyString ->
  lookup q nm = Some d ->
  defKind d <> OBJECT ->
  mem q specifiedTypeNames = false ->
  mem q objectPrototypeKeys = false ->
  In (rootError d) (errors st')
  /\ exists a o, r = Some (Instance a)
                 /\ nth_error (heap st') a = Some o
                 /\ obj_node o = d.
Proof.
  intros Hk C H Hq L K S P. unfold rootType in H.
  assert (Ht : truthy (Some q) = true).
  { cbn [truthy]. apply negb_true_iff, String.eqb_neq. exact Hq. }
  rewrite Ht, L in H. unfold getObjectType in H.
  apply bind_inv in H. destruct H as [type [s1 [H1 H]]].
  apply bind_inv in H. destruct H as [s [s1' [Hg H]]].
  unfold getState in Hg. injection Hg as <- <-.
  apply bind_inv in H. destruct H as [u [s2 [Hc H]]].
  injection H as <- <-.
  rewrite (Hk _ _ L) in H1.
  destruct (typeDefNamed_coherent getArgumentValues nm Hk fuel _ _ _ _ _ H1)
    as [G1 K1].
  destruct (K1 C) as [C1 R1].
  assert (Hn : type <> None).
  { refine (typeDefNamed_some getArgumentValues nm fuel q _ st s1 type _ H1).
    congruence. }
  destruct type as [t|]; [|congruence]. specialize (R1 t eq_refl).
  destruct t as [n|a|n|slot]; cbn [resolvedFor] in R1.
  - destruct R1 as [_ R1]. congruence.
  - destruct (resolved_object _ _ _ _ _ C1 L R1) as [o [E [N [D Ko]]]].
    assert (Hi : instanceof_GraphQLObjectType s1 (Named (Instance a)) = false).
    { cbn [instanceof_GraphQLObjectType classOf]. rewrite E. cbn [option_map].
      rewrite Ko. destruct (defKind d); congruence. }
    rewrite Hi in Hc. unfold pushError in Hc. injection Hc as _ <-.
    cbn [errors heap]. split.
    + apply in_or_app. right. left. reflexivity.
    + exists a, o. repeat split; assumption.
  - destruct R1 as [_ R1]. congruence.
  - destruct R1.
Qed.

(** A root name (query, mutation or subscription) whose definition is not
    an object type, the name being neither that of a specified type nor a
    property of [Object.prototype]: the build goes on, the diagnostic of
    [getObjectType] is among the errors at the end, and the root of the schema
    is the object made from that definition all the same. *)
Theorem root_not_object :
  forall (fuel : nat) (definitions : list DefinitionNode)
         (cfg : SchemaConfig) (st : State),
    buildFromDefinitions getArgumentValues fuel definitions = Ok cfg st ->
    let r := rootNames (scanDefinitions definitions) in
    forall (name : option string) (root : option GraphQLNamedType)
           (q : string) (d : TypeDefinitionNode),
      In (name, root) [(queryTypeName r, query cfg);
                       (mutationTypeName r, mutation cfg);
                       (subscriptionTypeName r, subscription cfg)] ->
      name = Some q ->
      q <> EmptyString ->
      lookup q (nodeMap (scanDefinitions definitions)) = Some d ->
      defKind d <> OBJECT ->
      mem q specifiedTypeNames = false ->
      mem q objectPrototypeKeys = false ->
      In (rootError d) (errors st)
      /\ exists a o, root = Some (Instance a)
                     /\ nth_error (heap st) a = Some o
                     /\ obj_node o = d.
Proof.
  intros fuel definitions cfg st H r name root q d Hin Hname Hq L K S P.
  destruct (build_coherent _ _ _ _ H)
    as [found [st2 [st3 [st4 [T [R [C2 [H3 [C3 [H4 [C4 [H5 C]]]]]]]]]]]].
  fold r in H3, H4, H5.
  set (nm := nodeMap (scanDefinitions definitions)) in *.
  assert (Hk : forall k d, lookup k nm = Some d -> name_value (def_name d) = k)
    by apply scan_nodeMap_keys.
  assert (Hres : forall n node,
             respects getArgumentValues nm
               (typeDefNamed getArgumentValues nm fuel n node)).
  { intros n node. apply respects_typeDefNamed. exact Hk. }
  assert (Hroot : forall name s1 x s2,
             rootType (typeDefNamed getArgumentValues nm fuel) nm name s1
             = Ok x s2 ->
             (exists es, errors s2 = errors s1 ++ es) /\ grows s1 s2).
  { intros [typeName|] s1 x s2 E.
    - unfold rootType in E. destruct (truthy (Some typeName)).
      + destruct (respects_getObjectType _ _ _ Hres _ _ _ _ E)
          as [[es [Ee _]] [os [Eo _]]].
        split; [exists es; exact Ee | exists os; exact Eo].
      + injection E as _ <-. split; [exists []; symmetry; apply app_nil_r|].
        apply grows_refl.
    - injection E as _ <-. split; [exists []; symmetry; apply app_nil_r|].
      apply grows_refl. }
  assert (later : forall s1,
             (exists es, errors st = errors s1 ++ es) -> grows s1 st ->
             (In (rootError d) (errors s1)
              /\ exists a o, root = Some (Instance a)
                             /\ nth_error (heap s1) a = Some o
                             /\ obj_node o = d) ->
             In (rootError d) (errors st)
             /\ exists a o, root = Some (Instance a)
                            /\ nth_error (heap st) a = Some o
                            /\ obj_node o = d).
  { intros s1 [es Ee] G [I1 [a [o [Er [En D]]]]]. split.
    - rewrite Ee. apply in_or_app. left. exact I1.
    - exists a, o. repeat split; try assumption.
      exact (nth_error_grows _ _ _ _ G En). }
  destruct (Hroot _ _ _ _ H4) as [[e4 E4] G4].
  destruct (Hroot _ _ _ _ H5) as [[e5 E5] G5].
  destruct Hin as [E|[E|[E|[]]]]; injection E as En Er; subst root;
    rewrite Hname in En.
  - rewrite En in H3. apply (later st3).
    + exists (e4 ++ e5). rewrite E5, E4, app_assoc. reflexivity.
    + exact (grows_trans _ _ _ G4 G5).
    + exact (rootType_not_object nm fuel q d _ _ _ Hk C2 H3 Hq L K S P).
  - rewrite En in H4. apply (later st4).
    + exists e5. exact E5.
    + exact G5.
    + exact (rootType_not_object nm fuel q d _ _ _ Hk C3 H4 Hq L K S P).
  - rewrite En in H5. apply (later st).
    + exists []. symmetry. apply app_nil_r.
    + apply grows_refl.
    + exact (rootType_not_object nm fuel q d _ _ _ Hk C4 H5 Hq L K S P).
Qed.

End SchemaOfBuild.

(** [type Query { a: Int }  scalar Int  type T { a: Int }  scalar T]: an
    object for Query, the specified Int in spite of the definition, an object
    for the first T. *)
Lemma types_built_as_defined_witness :
  let Q := Samples.object "Query" [Samples.field "a" "Int"] in
  let I := ScalarTypeDefinition (Samples.nm "Int") None in
  let T := Samples.object "T" [Samples.field "a" "Int"] in
  let T' := ScalarTypeDefinition (Samples.nm "T") None in
  exists cfg st found,
    buildFromDefinitions literalArgumentValues 1
      [TypeDefinition Q; TypeDefinition I; TypeDefinition T; TypeDefinition T']
    = Ok cfg st
    /\ types cfg = found ++ specifiedScalars
    /\ Forall2 (builtAs st) [Q; I; T] found.
Proof.
  intros Q I T T'.
  destruct (buildFromDefinitions literalArgumentValues 1
              [TypeDefinition Q; TypeDefinition I; TypeDefinition T;
               TypeDefinition T'])
    as [cfg st| |] eqn:E; try (vm_compute in E; discriminate).
  destruct (types_built_as_defined literalArgumentValues 1 _ cfg st E)
    as [found [H1 H2]].
  exists cfg, st, found. split; [reflexivity|]. split; [exact H1 | exact H2].
Defined.

(** [type Query { u: U }  union U = Query | Missing] *)
Lemma schema_coherent_witness :
  let definitions :=
    [TypeDefinition (Samples.object "Query" [Samples.field "u" "U"]);
     TypeDefinition (Samples.union "U" ["Query"; "Missing"])] in
  exists cfg st,
    buildFromDefinitions literalArgumentValues 2 definitions = Ok cfg st
    /\ coherent (nodeMap (scanDefinitions definitions)) st
    /\ Forall (validNamed st) (types cfg).
Proof.
  intros definitions.
  destruct (buildFromDefinitions literalArgumentValues 2 definitions)
    as [cfg st| |] eqn:E; try (vm_compute in E; discriminate).
  destruct (schema_coherent literalArgumentValues 2 _ cfg st E) as [H1 [H2 _]].
  exists cfg, st. split; [reflexivity|]. split; [exact H1 | exact H2].
Defined.

(** [schema { query: U }  scalar U] *)
Lemma root_not_object_witness :
  let U := ScalarTypeDefinition (Samples.nm "U") None in
  let definitions :=
    [SchemaDefinition (Samples.schemaBlock [("query", "U")] None);
     TypeDefinition U] in
  exists cfg st a o,
    buildFromDefinitions literalArgumentValues 1 definitions = Ok cfg st
    /\ In (rootError U) (errors st)
    /\ query cfg = Some (Instance a)
    /\ nth_error (heap st) a = Some o
    /\ obj_node o = U.
Proof.
  intros U definitions.
  destruct (buildFromDefinitions literalArgumentValues 1 definitions)
    as [cfg st| |] eqn:E; try (vm_compute in E; discriminate).
  destruct (root_not_object literalArgumentValues 1 _ cfg st E
              (queryTypeName (rootNames (scanDefinitions definitions)))
              (query cfg) "U" U)
    as [H1 [a [o [H2 [H3 H4]]]]];
    try reflexivity; try discriminate.
  - left. reflexivity.
  - exists cfg, st, a, o. repeat split; assumption.
Defined.
